(** * Synchronization core of the proofreading add-in

    A shallow embedding of [src/App.tsx] (the React component that owns the
    suggestion collections, the check cycle and the hover debouncer) and of
    [src/utils/word.ts] (the Word document adapter), followed by the
    properties of the specification that were checked against it.

    Conventions of the embedding:
    - a JavaScript string is the list of its UTF-16 code units;
    - every React state cell is a field of a record, and a functional
      updater [setX(prev => ...)] is a function applied to that field;
    - the Word host ([Word.run], [body.search], ...) is an interface whose
      operations may throw; [word.ts] is written over it in a state and
      exception monad;
    - [setTimeout]/[clearTimeout] act on an explicit queue of pending timers
      with a virtual clock in milliseconds;
    - an event handler runs atomically; adapter calls take no virtual time,
      a provider call takes the time the environment says it takes. *)

From Stdlib Require Import List ZArith NArith Lia Bool String Ascii.
From Stdlib Require Import SpecFloat.
Import ListNotations.

Set Implicit Arguments.

(* ================================================================== *)
(** * JavaScript strings and numbers *)
(* ================================================================== *)

Module JS.

(** A string value: its sequence of UTF-16 code units. *)
Definition jsstring := list N.

Definition js (s : string) : jsstring :=
  List.map N_of_ascii (list_ascii_of_string s).

Definition jsstring_eq_dec (a b : jsstring) : {a = b} + {a <> b} :=
  list_eq_dec N.eq_dec a b.

(** [ToBoolean] of a string: only the empty string is falsy. *)
Definition truthy (s : jsstring) : bool :=
  match s with [] => false | _ :: _ => true end.

(** ECMAScript [WhiteSpace] and [LineTerminator] code points: the set that
    [String.prototype.trim] strips and that [\s] matches. *)
Definition isWhiteSpace (c : N) : bool :=
  ((c =? 9) || (c =? 10) || (c =? 11) || (c =? 12) || (c =? 13)
   || (c =? 32) || (c =? 160) || (c =? 5760)
   || ((8192 <=? c) && (c <=? 8202))
   || (c =? 8232) || (c =? 8233) || (c =? 8239) || (c =? 8287)
   || (c =? 12288) || (c =? 65279))%N.

Fixpoint trimStart (s : jsstring) : jsstring :=
  match s with
  | [] => []
  | c :: s' => if isWhiteSpace c then trimStart s' else s
  end.

Definition trimEnd (s : jsstring) : jsstring := rev (trimStart (rev s)).

(** [s.trim()] *)
Definition trim (s : jsstring) : jsstring := trimEnd (trimStart s).

(** [/\s/.test(s)] *)
Definition test_ws (s : jsstring) : bool := existsb isWhiteSpace s.

(** [s.replace(/\r\n/g, '\n')]: scanning left to right, a carriage return
    directly followed by a line feed is dropped. *)
Fixpoint replace_crlf (s : jsstring) : jsstring :=
  match s with
  | [] => []
  | c :: s' =>
      if ((c =? 13) && match s' with d :: _ => d =? 10 | [] => false end)%N
      then replace_crlf s'
      else c :: replace_crlf s'
  end.

(** [s.replace(/\r/g, '\n')] *)
Definition replace_cr (s : jsstring) : jsstring :=
  List.map (fun c => if (c =? 13)%N then 10%N else c) s.

(** [s.split(/\s+/)]: [cur] is the piece being read (reversed), [in_ws]
    says that the previous code unit belonged to a separator. A separator
    at either end of the string yields an empty piece there, and the empty
    string splits into one empty piece. *)
Fixpoint split_ws_from (in_ws : bool) (cur s : jsstring) : list jsstring :=
  match s with
  | [] => [rev cur]
  | c :: s' =>
      if isWhiteSpace c
      then (if in_ws then split_ws_from true cur s'
            else rev cur :: split_ws_from true [] s')
      else split_ws_from false (c :: cur) s'
  end.

Definition split_ws (s : jsstring) : list jsstring := split_ws_from false [] s.

(** [xs.filter(Boolean)] on an array of strings. *)
Definition filter_Boolean (xs : list jsstring) : list jsstring :=
  List.filter truthy xs.

(** ** Numbers: IEEE 754 binary64 *)

Definition prec : Z := 53.
Definition emax : Z := 1024.

Definition number := spec_float.

(** The Number value of an integer. *)
Definition num (z : Z) : number := binary_normalize prec emax z 0 false.

Definition num_sub (x y : number) : number := SFsub prec emax x y.
Definition num_div (x y : number) : number := SFdiv prec emax x y.
Definition num_mul (x y : number) : number := SFmul prec emax x y.

(** [Math.round(x)]: the integer closest to [x], ties towards +infinity;
    zeros, infinities and NaN are returned as they are, and a result of
    zero keeps the sign of [x]. For a finite [x = (-1)^s * m * 2^e] the
    integer is [floor (x + 1/2)], computed exactly. *)
Definition Math_round (x : number) : number :=
  match x with
  | S754_finite s m e =>
      let sm := if s then Z.neg m else Z.pos m in
      let r := match e with
               | Zneg k => Z.div (2 * sm + Z.pow 2 (Z.pos k)) (Z.pow 2 (Z.pos k + 1))
               | _ => (sm * Z.pow 2 e)%Z
               end in
      if (r =? 0)%Z then S754_zero s else num r
  | _ => x
  end.

End JS.

Import JS.

(* ================================================================== *)
(** * Data model: the interfaces of App.tsx *)
(* ================================================================== *)

Module Correction.
Record t := mk
  { wrong : jsstring; suggestions : list jsstring; position : option Z }.
(** [{ ...e, position: e.position ?? 0 }] *)
Definition with_position (e : t) : t :=
  mk (wrong e) (suggestions e)
     (Some match position e with Some p => p | None => 0%Z end).
End Correction.

Module ToneSuggestion.
Record t := mk
  { current : jsstring; suggestion : jsstring; reason : jsstring;
    position : option Z }.
Definition with_position (e : t) : t :=
  mk (current e) (suggestion e) (reason e)
     (Some match position e with Some p => p | None => 0%Z end).
End ToneSuggestion.

Module StyleSuggestion.
Record t := mk
  { current : jsstring; suggestion : jsstring; type : jsstring;
    position : option Z }.
Definition with_position (e : t) : t :=
  mk (current e) (suggestion e) (type e)
     (Some match position e with Some p => p | None => 0%Z end).
End StyleSuggestion.

Module StyleMixingCorrection.
Record t := mk
  { current : jsstring; suggestion : jsstring; type : jsstring;
    position : option Z }.
Definition with_position (e : t) : t :=
  mk (current e) (suggestion e) (type e)
     (Some match position e with Some p => p | None => 0%Z end).
End StyleMixingCorrection.

Module StyleMixing.
Record t := mk
  { detected : bool;
    recommendedStyle : option jsstring;
    reason : option jsstring;
    corrections : option (list StyleMixingCorrection.t) }.
(** [{ ...prev, corrections: cs }] *)
Definition with_corrections (prev : t) (cs : list StyleMixingCorrection.t) : t :=
  mk (detected prev) (recommendedStyle prev) (reason prev) (Some cs).
End StyleMixing.

Module PunctuationIssue.
Record t := mk
  { issue : jsstring; currentSentence : jsstring;
    correctedSentence : jsstring; explanation : jsstring;
    position : option Z }.
Definition with_position (e : t) : t :=
  mk (issue e) (currentSentence e) (correctedSentence e) (explanation e)
     (Some match position e with Some p => p | None => 0%Z end).
End PunctuationIssue.

Module EuphonyImprovement.
Record t := mk
  { current : jsstring; suggestions : list jsstring; reason : jsstring;
    position : option Z }.
Definition with_position (e : t) : t :=
  mk (current e) (suggestions e) (reason e)
     (Some match position e with Some p => p | None => 0%Z end).
End EuphonyImprovement.

Module ContentAnalysis.
Record t := mk
  { contentType : jsstring;
    description : option jsstring;
    missingElements : option (list jsstring);
    suggestions : option (list jsstring) }.
End ContentAnalysis.

Module Stats.
Record t := mk { totalWords : N; errorCount : N; accuracy : number }.
(** [{ totalWords: 0, errorCount: 0, accuracy: 100 }] *)
Definition initial : t := mk 0 0 (num 100).
End Stats.

(** The "Data State" and the stats cell of the component. *)
Record Store := mkStore
  { corrections : list Correction.t;
    toneSuggestions : list ToneSuggestion.t;
    styleSuggestions : list StyleSuggestion.t;
    languageStyleMixing : option StyleMixing.t;
    punctuationIssues : list PunctuationIssue.t;
    euphonyImprovements : list EuphonyImprovement.t;
    contentAnalysis : option ContentAnalysis.t;
    stats : Stats.t }.

(** The settings and selection cells; the modelled handlers only read them. *)
Inductive Style := none | sadhu | cholito.

Record Settings := mkSettings
  { apiKey : jsstring;
    selectedModel : jsstring;
    docType : jsstring;
    selectedTone : jsstring;
    selectedStyle : Style }.

(** The message texts of the component are Bengali string literals; each
    literal is named by a constructor. *)
Inductive MessageText :=
| msg_need_api_key       (* asks for the API key first *)
| msg_select_text        (* asks to select text or place the cursor *)
| msg_replaced           (* the correction was applied *)
| msg_not_found          (* the word was not found in the document *)
| msg_error.             (* fallback text of the catch block *)

Module MessageType.
Inductive t := success | error.
End MessageType.

Inductive Modal :=
| modal_none | modal_settings | modal_instructions | modal_tone
| modal_style | modal_doctype | modal_mainMenu.

Inductive LoadingText :=
| loading_empty          (* '' *)
| loading_analysing      (* shown while the branches run *)
| loading_highlighting.  (* shown while the batch highlight runs *)

Record Ui := mkUi
  { isLoading : bool;
    loadingText : LoadingText;
    message : option (MessageText * MessageType.t);
    activeModal : Modal }.

(* ================================================================== *)
(** * The Word host and src/utils/word.ts *)
(* ================================================================== *)

(** The part of the Office JavaScript API that [word.ts] uses. A document
    state is a value of [Doc]; an operation that returns [None] stands for a
    [context.sync()] that throws while carrying it out. *)
Class WordHost := mkWordHost
  { Doc : Type;
    Range : Type;
    (** whether [Word.run] can start a batch at all *)
    run_available : Doc -> bool;
    (** [getSelection()], [load('text')], [sync()] *)
    selection_text : Doc -> option jsstring;
    (** [body.load('text')], [sync()] *)
    body_text : Doc -> option jsstring;
    (** [body.search(needle, { matchCase: false, matchWholeWord })],
        [load('items')], [sync()]; the ranges come in document order *)
    body_search : jsstring -> bool -> Doc -> option (list Range);
    (** [range.insertText(text, Word.InsertLocation.replace)] *)
    insertText_replace : Range -> jsstring -> Doc -> option Doc;
    (** [range.font.highlightColor = color] *)
    set_highlightColor : Range -> jsstring -> Doc -> option Doc;
    (** [body.font.highlightColor = color] *)
    set_body_highlightColor : jsstring -> Doc -> option Doc }.

Module WordTs.
Section WithHost.

Context {host : WordHost}.

(** Computations on the document that may throw: the state reached so far
    is kept when they do. *)
Definition Wd (A : Type) : Type := Doc -> option A * Doc.

Definition ret {A} (a : A) : Wd A := fun d => (Some a, d).

Definition bind {A B} (m : Wd A) (k : A -> Wd B) : Wd B :=
  fun d => match m d with
           | (Some a, d') => k a d'
           | (None, d') => (None, d')
           end.

(** [try { body } catch (error) { console.error(...); return fallback; }] *)
Definition try_catch {A} (body : Wd A) (fallback : A) : Doc -> A * Doc :=
  fun d => match body d with
           | (Some a, d') => (a, d')
           | (None, d') => (fallback, d')
           end.

Definition read {A} (f : Doc -> option A) : Wd A := fun d => (f d, d).

Definition update (f : Doc -> option Doc) : Wd unit :=
  fun d => match f d with
           | Some d' => (Some tt, d')
           | None => (None, d)
           end.

(** [Word.run(async (context) => batch)] *)
Definition Word_run {A} (batch : Wd A) : Wd A :=
  fun d => if run_available d then batch d else (None, d).

Notation "x <- m ;; k" := (bind m (fun x => k))
  (at level 61, m at next level, right associativity).
Notation "m ;;; k" := (bind m (fun _ => k))
  (at level 61, right associativity).

Definition normalize_line_breaks (s : jsstring) : jsstring :=
  replace_cr (replace_crlf s).

(** The function given to [Word.run] by [getTextFromWord]. *)
Definition read_text : Wd jsstring :=
  selection <- read selection_text ;;
  if truthy selection && (0 <? N.of_nat (List.length (trim selection)))%N
  then ret (normalize_line_breaks selection)
  else
    body <- read body_text ;;
    ret (normalize_line_breaks body).

Definition getTextFromWord : Doc -> jsstring * Doc :=
  try_catch (Word_run read_text) [].

(** The loop [for (i = 0; i < results.items.length; i++)
    results.items[i].font.highlightColor = color]. *)
Fixpoint highlight_ranges (rs : list Range) (color : jsstring) : Wd unit :=
  match rs with
  | [] => ret tt
  | r :: rs' => update (set_highlightColor r color) ;;; highlight_ranges rs' color
  end.

Record HighlightItem := mkItem
  { text : jsstring; color : jsstring; position : option Z }.

(** The body of [for (const item of items)]. *)
Fixpoint highlight_items (items : list HighlightItem) : Wd unit :=
  match items with
  | [] => ret tt
  | item :: items' =>
      let cleanText := trim (text item) in
      if negb (truthy cleanText) then highlight_items items'
      else
        results <- read (body_search cleanText (negb (test_ws cleanText))) ;;
        highlight_ranges results (color item) ;;;
        highlight_items items'
  end.

Definition highlightMultipleInWord (items : list HighlightItem)
  : Doc -> unit * Doc :=
  fun d =>
    match items with
    | [] => (tt, d)
    | _ :: _ => try_catch (Word_run (highlight_items items)) tt d
    end.

Definition highlightInWord (text color : jsstring) (_position : option Z)
  : Doc -> unit * Doc :=
  fun d =>
    let cleanText := trim text in
    if negb (truthy cleanText) then (tt, d)
    else
      try_catch
        (Word_run
           (results <- read (body_search cleanText (negb (test_ws cleanText))) ;;
            highlight_ranges results color))
        tt d.

Definition replaceInWord (oldText newText : jsstring) (_position : option Z)
  : Doc -> bool * Doc :=
  fun d =>
    let cleanOldText := trim oldText in
    if negb (truthy cleanOldText) then (false, d)
    else
      try_catch
        (Word_run
           (results <- read (body_search cleanOldText
                               (negb (test_ws cleanOldText))) ;;
            match results with
            | first :: _ =>
                update (insertText_replace first newText) ;;;
                update (set_highlightColor first (js "#FFFFFF")) ;;;
                ret true
            | [] => ret false
            end))
        false d.

Definition clearHighlights : Doc -> unit * Doc :=
  try_catch (Word_run (update (set_body_highlightColor (js "None")))) tt.

End WithHost.
End WordTs.

(* ================================================================== *)
(** * The suggestion provider *)
(* ================================================================== *)

(** The prompt builders ([buildMainPrompt], [buildTonePrompt],
    [buildStylePrompt] and the inline content prompt) produce text that the
    core never inspects; a prompt is kept as the arguments it is built from. *)
Inductive Prompt :=
| MainPrompt (text docType : jsstring)
| TonePrompt (text tone : jsstring)
| StylePrompt (text : jsstring) (style : Style)
| ContentPrompt (text docType : jsstring).

(** The temperatures 0.1, 0.2 and 0.4 are recorded in tenths. *)
Record Request := mkRequest
  { prompt : Prompt; key : jsstring; model : jsstring; temperature10 : N }.

(** The JSON object of a response, read through the fields the core uses: a
    field may be missing, and one that is present is taken to have the shape
    its interface declares. [content] is the same object seen as a
    [ContentAnalysis]. *)
Module Response.
Record t := mk
  { spellingErrors : option (list Correction.t);
    punctuationIssues : option (list PunctuationIssue.t);
    euphonyImprovements : option (list EuphonyImprovement.t);
    languageStyleMixing : option StyleMixing.t;
    toneConversions : option (list ToneSuggestion.t);
    styleConversions : option (list StyleSuggestion.t);
    content : ContentAnalysis.t }.
End Response.

(** Modelled from the spec: [callGeminiJson] of [src/utils/api], which is not
    among the sources. The provider "returns category-specific suggestion
    lists or fails silently": a provider error or an unparseable response is
    the value [null] ([None]), never an exception. [latency] is the time the
    call takes to settle, in milliseconds. *)
Class Provider := mkProvider
  { callGeminiJson : Request -> option Response.t;
    latency : Request -> N }.

(* ================================================================== *)
(** * The state of the running component *)
(* ================================================================== *)

Inductive Callback :=
| cb_clear_message                                       (* () => setMessage(null) *)
| cb_highlight (text color : jsstring) (position : option Z).
                                       (* () => highlightInWord(text, color, position) *)

Record Timer := mkTimer { handle : N; due : N; callback : Callback }.

(** What the component asks of its two collaborators. *)
Inductive Event :=
| ev_getTextFromWord
| ev_clearHighlights
| ev_highlightMultipleInWord (items : list WordTs.HighlightItem)
| ev_highlightInWord (text color : jsstring) (position : option Z)
| ev_replaceInWord (oldText newText : jsstring) (position : option Z)
| ev_callGeminiJson (req : Request).

Section Component.

Context {host : WordHost} {provider : Provider}.

(** [normalize] of [src/utils/normalize], which is not among the sources:
    the properties below hold for every function in its place. *)
Variable normalize : jsstring -> jsstring.

Record World := mkWorld
  { settings : Settings;
    ui : Ui;
    store : Store;
    highlightTimeoutRef : option N;      (* useRef<any>(null) *)
    doc : Doc;
    trace : list (N * Event);            (* calls made, with their time *)
    clock : N;                           (* milliseconds *)
    timers : list Timer;                 (* pending timeouts, earliest first *)
    next_handle : N }.

Definition with_ui (f : Ui -> Ui) (w : World) : World :=
  mkWorld (settings w) (f (ui w)) (store w) (highlightTimeoutRef w) (doc w)
          (trace w) (clock w) (timers w) (next_handle w).
Definition with_store (f : Store -> Store) (w : World) : World :=
  mkWorld (settings w) (ui w) (f (store w)) (highlightTimeoutRef w) (doc w)
          (trace w) (clock w) (timers w) (next_handle w).
Definition set_ref (r : option N) (w : World) : World :=
  mkWorld (settings w) (ui w) (store w) r (doc w)
          (trace w) (clock w) (timers w) (next_handle w).
Definition set_doc (d : Doc) (w : World) : World :=
  mkWorld (settings w) (ui w) (store w) (highlightTimeoutRef w) d
          (trace w) (clock w) (timers w) (next_handle w).
Definition set_trace (tr : list (N * Event)) (w : World) : World :=
  mkWorld (settings w) (ui w) (store w) (highlightTimeoutRef w) (doc w)
          tr (clock w) (timers w) (next_handle w).
Definition set_clock (t : N) (w : World) : World :=
  mkWorld (settings w) (ui w) (store w) (highlightTimeoutRef w) (doc w)
          (trace w) t (timers w) (next_handle w).
Definition set_timers (q : list Timer) (w : World) : World :=
  mkWorld (settings w) (ui w) (store w) (highlightTimeoutRef w) (doc w)
          (trace w) (clock w) q (next_handle w).
Definition set_next_handle (h : N) (w : World) : World :=
  mkWorld (settings w) (ui w) (store w) (highlightTimeoutRef w) (doc w)
          (trace w) (clock w) (timers w) h.

(** ** React state setters *)

Definition setIsLoading (b : bool) : World -> World :=
  with_ui (fun u => mkUi b (loadingText u) (message u) (activeModal u)).
Definition setLoadingText (t : LoadingText) : World -> World :=
  with_ui (fun u => mkUi (isLoading u) t (message u) (activeModal u)).
Definition setMessage (m : option (MessageText * MessageType.t)) : World -> World :=
  with_ui (fun u => mkUi (isLoading u) (loadingText u) m (activeModal u)).
Definition setActiveModal (m : Modal) : World -> World :=
  with_ui (fun u => mkUi (isLoading u) (loadingText u) (message u) m).

Definition setCorrections (f : list Correction.t -> list Correction.t) :=
  with_store (fun s =>
    mkStore (f (corrections s)) (toneSuggestions s) (styleSuggestions s)
            (languageStyleMixing s) (punctuationIssues s)
            (euphonyImprovements s) (contentAnalysis s) (stats s)).
Definition setToneSuggestions (f : list ToneSuggestion.t -> list ToneSuggestion.t) :=
  with_store (fun s =>
    mkStore (corrections s) (f (toneSuggestions s)) (styleSuggestions s)
            (languageStyleMixing s) (punctuationIssues s)
            (euphonyImprovements s) (contentAnalysis s) (stats s)).
Definition setStyleSuggestions (f : list StyleSuggestion.t -> list StyleSuggestion.t) :=
  with_store (fun s =>
    mkStore (corrections s) (toneSuggestions s) (f (styleSuggestions s))
            (languageStyleMixing s) (punctuationIssues s)
            (euphonyImprovements s) (contentAnalysis s) (stats s)).
Definition setLanguageStyleMixing (f : option StyleMixing.t -> option StyleMixing.t) :=
  with_store (fun s =>
    mkStore (corrections s) (toneSuggestions s) (styleSuggestions s)
            (f (languageStyleMixing s)) (punctuationIssues s)
            (euphonyImprovements s) (contentAnalysis s) (stats s)).
Definition setPunctuationIssues (f : list PunctuationIssue.t -> list PunctuationIssue.t) :=
  with_store (fun s =>
    mkStore (corrections s) (toneSuggestions s) (styleSuggestions s)
            (languageStyleMixing s) (f (punctuationIssues s))
            (euphonyImprovements s) (contentAnalysis s) (stats s)).
Definition setEuphonyImprovements (f : list EuphonyImprovement.t -> list EuphonyImprovement.t) :=
  with_store (fun s =>
    mkStore (corrections s) (toneSuggestions s) (styleSuggestions s)
            (languageStyleMixing s) (punctuationIssues s)
            (f (euphonyImprovements s)) (contentAnalysis s) (stats s)).
Definition setContentAnalysis (f : option ContentAnalysis.t -> option ContentAnalysis.t) :=
  with_store (fun s =>
    mkStore (corrections s) (toneSuggestions s) (styleSuggestions s)
            (languageStyleMixing s) (punctuationIssues s)
            (euphonyImprovements s) (f (contentAnalysis s)) (stats s)).
Definition setStats (f : Stats.t -> Stats.t) :=
  with_store (fun s =>
    mkStore (corrections s) (toneSuggestions s) (styleSuggestions s)
            (languageStyleMixing s) (punctuationIssues s)
            (euphonyImprovements s) (contentAnalysis s) (f (stats s))).

(** ** Timers *)

(** The queue is ordered by due time; a new timer goes behind the pending
    ones that are due no later than it. *)
Fixpoint enqueue (tm : Timer) (q : list Timer) : list Timer :=
  match q with
  | [] => [tm]
  | x :: q' => if (due x <=? due tm)%N then x :: enqueue tm q' else tm :: q
  end.

Definition setTimeout (cb : Callback) (delay : N) (w : World) : N * World :=
  let h := next_handle w in
  (h, set_next_handle (h + 1)
        (set_timers (enqueue (mkTimer h (clock w + delay) cb) (timers w)) w)).

Definition clearTimeout (h : N) (w : World) : World :=
  set_timers (filter (fun tm => negb (handle tm =? h)%N) (timers w)) w.

Definition log (e : Event) (w : World) : World :=
  set_trace (trace w ++ [(clock w, e)]) w.

(** ** Calls into word.ts: the call is recorded, then carried out. *)

Definition call_getTextFromWord (w : World) : jsstring * World :=
  let (t, d) := WordTs.getTextFromWord (doc w) in
  (t, set_doc d (log ev_getTextFromWord w)).

Definition call_clearHighlights (w : World) : World :=
  set_doc (snd (WordTs.clearHighlights (doc w))) (log ev_clearHighlights w).

Definition call_highlightMultipleInWord (items : list WordTs.HighlightItem)
           (w : World) : World :=
  set_doc (snd (WordTs.highlightMultipleInWord items (doc w)))
          (log (ev_highlightMultipleInWord items) w).

Definition call_highlightInWord (text color : jsstring) (position : option Z)
           (w : World) : World :=
  set_doc (snd (WordTs.highlightInWord text color position (doc w)))
          (log (ev_highlightInWord text color position) w).

Definition call_replaceInWord (oldText newText : jsstring)
           (position : option Z) (w : World) : bool * World :=
  let (ok, d) := WordTs.replaceInWord oldText newText position (doc w) in
  (ok, set_doc d (log (ev_replaceInWord oldText newText position) w)).

(** ** The event loop: letting time pass *)

Definition run_callback (cb : Callback) (w : World) : World :=
  match cb with
  | cb_clear_message => setMessage None w
  | cb_highlight text color position => call_highlightInWord text color position w
  end.

Definition fire (w : World) (tm : Timer) : World :=
  run_callback (callback tm) (set_clock (N.max (clock w) (due tm)) w).

(** Time passes until [t]: the timers due by then fire in queue order, each
    at its due time. No callback of the component sets a timer. *)
Definition advance (t : N) (w : World) : World :=
  let due_now := filter (fun tm => (due tm <=? t)%N) (timers w) in
  let later := filter (fun tm => negb (due tm <=? t)%N) (timers w) in
  set_clock (N.max (clock w) t) (fold_left fire due_now (set_timers later w)).

(** ** Helpers of the component *)

Definition showMessage (text : MessageText) (type : MessageType.t) (w : World)
  : World :=
  snd (setTimeout cb_clear_message 4000 (setMessage (Some (text, type)) w)).

(** [a !== b] on strings *)
Definition strict_neq (a b : jsstring) : bool :=
  if jsstring_eq_dec a b then false else true.

(** ** Debounced highlight *)

Definition handleHighlight (text color : jsstring) (position : option Z)
           (w : World) : World :=
  let w1 := match highlightTimeoutRef w with
            | Some h => if (h =? 0)%N then w else clearTimeout h w
            | None => w
            end in
  let (h, w2) := setTimeout (cb_highlight text color position) 300 w1 in
  set_ref (Some h) w2.

(** ** Replace handler *)

(** The updater given to [setLanguageStyleMixing] by both handlers. *)
Definition prune_mixing (isNotMatch : jsstring -> bool)
           (prev : option StyleMixing.t) : option StyleMixing.t :=
  match prev with
  | None => prev
  | Some m =>
      match StyleMixing.corrections m with
      | None => prev
      | Some cs =>
          let filtered :=
            filter (fun c => isNotMatch (StyleMixingCorrection.current c)) cs in
          if (0 <? N.of_nat (List.length filtered))%N
          then Some (StyleMixing.with_corrections m filtered)
          else None
      end
  end.

Definition handleReplace (oldText newText : jsstring) (position : option Z)
           (w : World) : World :=
  let (success, w) := call_replaceInWord oldText newText position w in
  if success then
    let target := normalize (trim oldText) in
    let isNotMatch textToCheck := strict_neq (normalize textToCheck) target in
    let w := setCorrections (filter (fun c => isNotMatch (Correction.wrong c))) w in
    let w := setToneSuggestions (filter (fun t => isNotMatch (ToneSuggestion.current t))) w in
    let w := setStyleSuggestions (filter (fun s => isNotMatch (StyleSuggestion.current s))) w in
    let w := setEuphonyImprovements (filter (fun e => isNotMatch (EuphonyImprovement.current e))) w in
    let w := setPunctuationIssues (filter (fun p => isNotMatch (PunctuationIssue.currentSentence p))) w in
    let w := setLanguageStyleMixing (prune_mixing isNotMatch) w in
    showMessage msg_replaced MessageType.success w
  else
    showMessage msg_not_found MessageType.error w.

(** ** Dismiss handler *)

Inductive DismissType :=
| d_spelling | d_tone | d_style | d_mixing | d_punct | d_euphony.

Definition dismissSuggestion (type : DismissType) (textToDismiss : jsstring)
           (w : World) : World :=
  let target := normalize textToDismiss in
  let isNotMatch t := strict_neq (normalize t) target in
  match type with
  | d_spelling =>
      setCorrections (filter (fun c => isNotMatch (Correction.wrong c))) w
  | d_tone =>
      setToneSuggestions (filter (fun t => isNotMatch (ToneSuggestion.current t))) w
  | d_style =>
      setStyleSuggestions (filter (fun s => isNotMatch (StyleSuggestion.current s))) w
  | d_mixing =>
      setLanguageStyleMixing (prune_mixing isNotMatch) w
  | d_punct =>
      setPunctuationIssues (filter (fun p => isNotMatch (PunctuationIssue.currentSentence p))) w
  | d_euphony =>
      setEuphonyImprovements (filter (fun e => isNotMatch (EuphonyImprovement.current e))) w
  end.

(* ================================================================ *)
(** ** The check cycle *)
(* ================================================================ *)

(** What a task of the cycle resolves to. *)
Inductive TaskResult :=
| r_spelling (l : list Correction.t)
| r_tones (l : list ToneSuggestion.t)
| r_styles (l : list StyleSuggestion.t)
| r_null                     (* [return null] *)
| r_undefined                (* a function body that returns nothing *)
| r_empty_array.             (* [Promise.resolve([])] *)

Definition or_empty {A} (o : option (list A)) : list A :=
  match o with Some l => l | None => [] end.

(** [text.trim().split(/\s+/).filter(Boolean).length] *)
Definition count_words (text : jsstring) : N :=
  N.of_nat (List.length (filter_Boolean (split_ws (trim text)))).

(** [words > 0 ? Math.round(((words - errorCount) / words) * 100) : 100] *)
Definition accuracy_of (words errorCount : N) : number :=
  if (0 <? words)%N
  then Math_round
         (num_mul
            (num_div (num_sub (num (Z.of_N words)) (num (Z.of_N errorCount)))
                     (num (Z.of_N words)))
            (num 100))
  else num 100.

(** The object given to [setStats] by [performMainCheck]. *)
Definition stats_of (text : jsstring) (spelling : list Correction.t) : Stats.t :=
  let words := count_words text in
  let errorCount := N.of_nat (List.length spelling) in
  Stats.mk words errorCount (accuracy_of words errorCount).

Definition request (p : Prompt) (temperature10 : N) (s : Settings) : Request :=
  mkRequest p (apiKey s) (selectedModel s) temperature10.

(** A branch started at time [at]: the provider call is issued then and
    settles [latency] later; the result is the value of the promise, the
    time at which it settles and the state after its updates. *)
Definition performMainCheck (text : jsstring) (at_ : N) (w : World)
  : TaskResult * N * World :=
  let req := request (MainPrompt text (docType (settings w))) 1 (settings w) in
  let w := set_trace (trace w ++ [(at_, ev_callGeminiJson req)]) w in
  let settled := (at_ + latency req)%N in
  match callGeminiJson req with
  | None => (r_null, settled, w)
  | Some result =>
      let spelling :=
        map Correction.with_position (or_empty (Response.spellingErrors result)) in
      let w := setCorrections (fun _ => spelling) w in
      let w := setPunctuationIssues (fun _ =>
                 map PunctuationIssue.with_position
                     (or_empty (Response.punctuationIssues result))) w in
      let w := setEuphonyImprovements (fun _ =>
                 map EuphonyImprovement.with_position
                     (or_empty (Response.euphonyImprovements result))) w in
      let mixing :=
        match Response.languageStyleMixing result with
        | Some m =>
            match StyleMixing.corrections m with
            | Some cs =>
                Some (StyleMixing.with_corrections m
                        (map StyleMixingCorrection.with_position cs))
            | None => Some m
            end
        | None => None
        end in
      let w := setLanguageStyleMixing (fun _ => mixing) w in
      let w := setStats (fun _ => stats_of text spelling) w in
      (r_spelling spelling, settled, w)
  end.

Definition performToneCheck (text : jsstring) (at_ : N) (w : World)
  : TaskResult * N * World :=
  let req := request (TonePrompt text (selectedTone (settings w))) 2 (settings w) in
  let w := set_trace (trace w ++ [(at_, ev_callGeminiJson req)]) w in
  let settled := (at_ + latency req)%N in
  match callGeminiJson req with
  | None => (r_null, settled, w)
  | Some result =>
      let tones :=
        map ToneSuggestion.with_position (or_empty (Response.toneConversions result)) in
      (r_tones tones, settled, setToneSuggestions (fun _ => tones) w)
  end.

Definition performStyleCheck (text : jsstring) (at_ : N) (w : World)
  : TaskResult * N * World :=
  let req := request (StylePrompt text (selectedStyle (settings w))) 2 (settings w) in
  let w := set_trace (trace w ++ [(at_, ev_callGeminiJson req)]) w in
  let settled := (at_ + latency req)%N in
  match callGeminiJson req with
  | None => (r_null, settled, w)
  | Some result =>
      let styles :=
        map StyleSuggestion.with_position (or_empty (Response.styleConversions result)) in
      (r_styles styles, settled, setStyleSuggestions (fun _ => styles) w)
  end.

Definition analyzeContentLogic (text : jsstring) (at_ : N) (w : World)
  : TaskResult * N * World :=
  let req := request (ContentPrompt text (docType (settings w))) 4 (settings w) in
  let w := set_trace (trace w ++ [(at_, ev_callGeminiJson req)]) w in
  let settled := (at_ + latency req)%N in
  match callGeminiJson req with
  | None => (r_undefined, settled, w)
  | Some result =>
      (r_undefined, settled,
       setContentAnalysis (fun _ => Some (Response.content result)) w)
  end.

Inductive Branch := MainCheck | ToneCheck | StyleCheck | ContentAnalysisLogic.

(** The promises pushed on [tasks]. *)
Inductive Task :=
| call_now (b : Branch)
    (* [perform...(text)] *)
| after_timeout (ms : N) (b : Branch)
    (* [new Promise(resolve => setTimeout(resolve, ms)).then(() => perform...(text))] *)
| resolved_empty.
    (* [Promise.resolve([])] *)

Definition tasks_of (s : Settings) : list Task :=
  [call_now MainCheck]
  ++ [if truthy (selectedTone s) then after_timeout 200 ToneCheck
      else resolved_empty]
  ++ [match selectedStyle s with
      | none => resolved_empty
      | _ => after_timeout 400 StyleCheck
      end]
  ++ [after_timeout 600 ContentAnalysisLogic].

Definition run_branch (b : Branch) (text : jsstring) (at_ : N) (w : World)
  : TaskResult * N * World :=
  match b with
  | MainCheck => performMainCheck text at_ w
  | ToneCheck => performToneCheck text at_ w
  | StyleCheck => performStyleCheck text at_ w
  | ContentAnalysisLogic => analyzeContentLogic text at_ w
  end.

(** A task created at time [t0]. The timeout of a delayed task is awaited by
    the promise itself: it is the time at which the branch starts. *)
Definition run_task (t0 : N) (text : jsstring) (task : Task) (w : World)
  : TaskResult * N * World :=
  match task with
  | call_now b => run_branch b text t0 w
  | after_timeout ms b => run_branch b text (t0 + ms)%N w
  | resolved_empty => (r_empty_array, t0, w)
  end.

(** [await Promise.all(tasks)] when no task rejects: the results in task
    order, available when the last task has settled. The branches update
    different state cells, so the order of their updates does not matter. *)
Fixpoint Promise_all (t0 : N) (text : jsstring) (ts : list Task) (w : World)
  : list TaskResult * N * World :=
  match ts with
  | [] => ([], t0, w)
  | task :: ts' =>
      let '(r, s, w1) := run_task t0 text task w in
      let '(rs, s', w2) := Promise_all t0 text ts' w1 in
      (r :: rs, N.max s s', w2)
  end.

(** [results[i] || []], read at the type the [forEach] callback gives it. *)
Definition spelling_result (r : TaskResult) : list Correction.t :=
  match r with r_spelling l => l | _ => [] end.
Definition tone_result (r : TaskResult) : list ToneSuggestion.t :=
  match r with r_tones l => l | _ => [] end.
Definition style_result (r : TaskResult) : list StyleSuggestion.t :=
  match r with r_styles l => l | _ => [] end.

Definition highlightItems_of (spellingResult : list Correction.t)
           (toneResult : list ToneSuggestion.t)
           (styleResult : list StyleSuggestion.t) : list WordTs.HighlightItem :=
  map (fun i => WordTs.mkItem (Correction.wrong i) (js "#fee2e2")
                              (Correction.position i)) spellingResult
  ++ map (fun i => WordTs.mkItem (ToneSuggestion.current i) (js "#fef3c7")
                                 (ToneSuggestion.position i)) toneResult
  ++ map (fun i => WordTs.mkItem (StyleSuggestion.current i) (js "#ccfbf1")
                                 (StyleSuggestion.position i)) styleResult.

(** The "Reset UI" block. *)
Definition reset (w : World) : World :=
  let w := setCorrections (fun _ => []) w in
  let w := setToneSuggestions (fun _ => []) w in
  let w := setStyleSuggestions (fun _ => []) w in
  let w := setLanguageStyleMixing (fun _ => None) w in
  let w := setPunctuationIssues (fun _ => []) w in
  let w := setEuphonyImprovements (fun _ => []) w in
  let w := setContentAnalysis (fun _ => None) w in
  setStats (fun _ => Stats.initial) w.

(** The [try] block of [checkSpelling]. With a provider that does not
    throw, no task rejects and the [catch] block is not entered. The calls
    of the branches are recorded, each with its time, before the timers that
    fall due while the branches run are fired: the entries of the trace carry
    their times but are not sorted by them, and the trace is read by kind of
    call. *)
Definition run_cycle (text : jsstring) (w : World) : World :=
  let tasks := tasks_of (settings w) in
  let '(results, settled, w) := Promise_all (clock w) text tasks w in
  let w := advance settled w in
  let spellingResult := spelling_result (nth 0 results r_undefined) in
  let toneResult := tone_result (nth 1 results r_undefined) in
  let styleResult := style_result (nth 2 results r_undefined) in
  let w := setLoadingText loading_highlighting w in
  let highlightItems := highlightItems_of spellingResult toneResult styleResult in
  if (0 <? N.of_nat (List.length highlightItems))%N
  then call_highlightMultipleInWord highlightItems w
  else w.

Definition checkSpelling (w : World) : World :=
  if negb (truthy (apiKey (settings w))) then
    setActiveModal modal_settings
      (showMessage msg_need_api_key MessageType.error w)
  else
    let (text, w) := call_getTextFromWord w in
    if negb (truthy text) || (N.of_nat (List.length (trim text)) =? 0)%N then
      showMessage msg_select_text MessageType.error w
    else
      let w := setIsLoading true w in
      let w := setLoadingText loading_analysing w in
      let w := reset w in
      let w := call_clearHighlights w in
      let w := run_cycle text w in
      (* finally *)
      let w := setIsLoading false w in
      setLoadingText loading_empty w.

End Component.

Arguments World {host}.
Arguments mkWorld {host}.

(** The floating-point computations are evaluated on concrete numbers only. *)
Arguments num : simpl never.
Arguments Math_round : simpl never.
Arguments accuracy_of : simpl never.
Arguments stats_of : simpl never.
Arguments Stats.initial : simpl never.

(* ================================================================== *)
(** * Vocabulary of the specification *)
(* ================================================================== *)

Section Vocabulary.

Variable normalize : jsstring -> jsstring.

(** The canonical keys that are live in one category of the store: the
    normalized matching field of each of its suggestions; for the mixing
    category, of each entry of [StyleMixing.corrections]. *)
Definition live_keys (category : DismissType) (s : Store) : list jsstring :=
  match category with
  | d_spelling => map (fun c => normalize (Correction.wrong c)) (corrections s)
  | d_tone => map (fun t => normalize (ToneSuggestion.current t)) (toneSuggestions s)
  | d_style => map (fun x => normalize (StyleSuggestion.current x)) (styleSuggestions s)
  | d_mixing =>
      match languageStyleMixing s with
      | Some m =>
          map (fun c => normalize (StyleMixingCorrection.current c))
              (or_empty (StyleMixing.corrections m))
      | None => []
      end
  | d_punct =>
      map (fun p => normalize (PunctuationIssue.currentSentence p)) (punctuationIssues s)
  | d_euphony =>
      map (fun e => normalize (EuphonyImprovement.current e)) (euphonyImprovements s)
  end.

(** The content of one category, whatever it holds. *)
Definition same_category (category : DismissType) (s s' : Store) : Prop :=
  match category with
  | d_spelling => corrections s' = corrections s
  | d_tone => toneSuggestions s' = toneSuggestions s
  | d_style => styleSuggestions s' = styleSuggestions s
  | d_mixing => languageStyleMixing s' = languageStyleMixing s
  | d_punct => punctuationIssues s' = punctuationIssues s
  | d_euphony => euphonyImprovements s' = euphonyImprovements s
  end.

(** A [StyleMixing] record that is present with an empty list of
    corrections. *)
Definition empty_but_present (o : option StyleMixing.t) : Prop :=
  exists m, o = Some m /\ StyleMixing.corrections m = Some [].

End Vocabulary.

(** The accuracy formula as the specification words it, in exact arithmetic:
    [round(100 * (totalWords - errorCount) / totalWords)], a tie rounding up
    as [Math.round] does, and [100] when there are no words. *)
Definition spec_accuracy (totalWords errorCount : Z) : Z :=
  if (0 <? totalWords)%Z
  then (2 * (100 * (totalWords - errorCount)) + totalWords) / (2 * totalWords)
  else 100.

(** The number of whitespace-delimited tokens of a text: the number of code
    units that are not whitespace and that start the text or follow a
    whitespace code unit. *)
Fixpoint count_tokens_from (prev_ws : bool) (s : jsstring) : N :=
  match s with
  | [] => 0
  | c :: s' =>
      ((if negb (isWhiteSpace c) && prev_ws then 1 else 0)
       + count_tokens_from (isWhiteSpace c) s')%N
  end.

Definition count_tokens (s : jsstring) : N := count_tokens_from true s.

(** The calls of one kind in a trace. *)
Definition provider_calls (tr : list (N * Event)) : list (N * Request) :=
  flat_map (fun e => match snd e with
                     | ev_callGeminiJson req => [(fst e, req)]
                     | _ => []
                     end) tr.

Definition batch_highlight_calls (tr : list (N * Event))
  : list (N * list WordTs.HighlightItem) :=
  flat_map (fun e => match snd e with
                     | ev_highlightMultipleInWord items => [(fst e, items)]
                     | _ => []
                     end) tr.

Definition highlight_calls (tr : list (N * Event)) : list (N * Event) :=
  filter (fun e => match snd e with
                   | ev_highlightInWord _ _ _ => true
                   | _ => false
                   end) tr.

Definition clear_calls (tr : list (N * Event)) : list N :=
  flat_map (fun e => match snd e with
                     | ev_clearHighlights => [fst e]
                     | _ => []
                     end) tr.

(* ================================================================== *)
(** * An in-memory document, a scripted provider and a normalizer,
      used to run the component on concrete inputs *)
(* ================================================================== *)

Module Fake.

(** A document is a sequence of words, each with its highlight colour; a
    range is the index of a word. Searching finds the words equal to a
    needle without whitespace and nothing for a needle with whitespace. *)
Record document := mkDocument
  { available : bool;
    selected : jsstring;
    words : list (jsstring * jsstring) }.

Fixpoint join (sep : jsstring) (xs : list jsstring) : jsstring :=
  match xs with
  | [] => []
  | [x] => x
  | x :: xs' => x ++ sep ++ join sep xs'
  end.

Fixpoint find_word (needle : jsstring) (i : nat) (ws : list (jsstring * jsstring))
  : list nat :=
  match ws with
  | [] => []
  | (x, _) :: ws' =>
      (if jsstring_eq_dec x needle then [i] else []) ++ find_word needle (S i) ws'
  end.

Fixpoint change_word (i : nat) (f : jsstring * jsstring -> jsstring * jsstring)
         (ws : list (jsstring * jsstring)) : option (list (jsstring * jsstring)) :=
  match ws, i with
  | [], _ => None
  | x :: ws', O => Some (f x :: ws')
  | x :: ws', S j => option_map (cons x) (change_word j f ws')
  end.

Definition change (i : nat) (f : jsstring * jsstring -> jsstring * jsstring)
           (d : document) : option document :=
  option_map (mkDocument (available d) (selected d)) (change_word i f (words d)).

#[export] Instance host : WordHost :=
  {| Doc := document;
     Range := nat;
     run_available := available;
     selection_text := fun d => Some (selected d);
     body_text := fun d => Some (join [32%N] (map fst (words d)));
     body_search := fun needle wholeWord d =>
       Some (if wholeWord then find_word needle 0 (words d) else []);
     insertText_replace := fun r text => change r (fun x => (text, snd x));
     set_highlightColor := fun r color => change r (fun x => (fst x, color));
     set_body_highlightColor := fun color d =>
       Some (mkDocument (available d) (selected d)
                        (map (fun x => (fst x, color)) (words d))) |}.

(** A provider that answers each kind of prompt from a fixed script. *)
Definition scripted (main tone style content : option Response.t) (wait : N)
  : Provider :=
  {| callGeminiJson := fun req =>
       match prompt req with
       | MainPrompt _ _ => main
       | TonePrompt _ _ => tone
       | StylePrompt _ _ => style
       | ContentPrompt _ _ => content
       end;
     latency := fun _ => wait |}.

(** Modelled from the spec: [normalize] of [src/utils/normalize], which is
    not among the sources. It "must fold case, trim boundary whitespace,
    and collapse internal whitespace variance"; here case is folded for the
    Latin letters A to Z and each run of whitespace becomes one space. *)
Definition fold_case (c : N) : N :=
  if ((65 <=? c) && (c <=? 90))%N then (c + 32)%N else c.

Definition normalize (s : jsstring) : jsstring :=
  join [32%N] (filter_Boolean (split_ws (trim (map fold_case s)))).

Definition no_response : Response.t :=
  Response.mk None None None None None None
              (ContentAnalysis.mk [] None None None).

Definition settings0 : Settings :=
  mkSettings (js "key") (js "gemini-2.5-flash") (js "generic") [] none.

Definition ui0 : Ui := mkUi false loading_empty None modal_none.

Definition store0 : Store := mkStore [] [] [] None [] [] None Stats.initial.

(** The component as it is mounted, over a given document. *)
Definition world0 (d : document) : World :=
  mkWorld settings0 ui0 store0 None d [] 0 [] 1.

End Fake.


(* ================================================================== *)
(** * Vocabulary for the check cycle *)
(* ================================================================== *)

Section CycleVocabulary.

Context {host : WordHost} {provider : Provider}.

(** The requests of the four branches for a document text. *)
Definition main_request (text : jsstring) (s : Settings) : Request :=
  request (MainPrompt text (docType s)) 1 s.
Definition tone_request (text : jsstring) (s : Settings) : Request :=
  request (TonePrompt text (selectedTone s)) 2 s.
Definition style_request (text : jsstring) (s : Settings) : Request :=
  request (StylePrompt text (selectedStyle s)) 2 s.
Definition content_request (text : jsstring) (s : Settings) : Request :=
  request (ContentPrompt text (docType s)) 4 s.

Definition tone_selected (s : Settings) : bool := truthy (selectedTone s).

Definition style_selected (s : Settings) : bool :=
  match selectedStyle s with none => false | _ => true end.

(** The provider calls that the staggering prescribes for a cycle whose
    branches are created at time [t0]: main at once, tone after 200 ms if a
    tone is selected, style after 400 ms if a style is selected, content
    analysis after 600 ms. *)
Definition staggered_calls (t0 : N) (text : jsstring) (s : Settings)
  : list (N * Request) :=
  [(t0, main_request text s)]
  ++ (if tone_selected s then [((t0 + 200)%N, tone_request text s)] else [])
  ++ (if style_selected s then [((t0 + 400)%N, style_request text s)] else [])
  ++ [((t0 + 600)%N, content_request text s)].

(** The time at which each branch settles. *)
Definition main_settles (t0 : N) (text : jsstring) (s : Settings) : N :=
  (t0 + latency (main_request text s))%N.
Definition tone_settles (t0 : N) (text : jsstring) (s : Settings) : N :=
  if tone_selected s then (t0 + 200 + latency (tone_request text s))%N else t0.
Definition style_settles (t0 : N) (text : jsstring) (s : Settings) : N :=
  if style_selected s then (t0 + 400 + latency (style_request text s))%N else t0.
Definition content_settles (t0 : N) (text : jsstring) (s : Settings) : N :=
  (t0 + 600 + latency (content_request text s))%N.

(** What each branch leaves in its own cells of a store that was reset: the
    suggestions of its own response, and nothing when the branch is not run
    or its provider call fails. *)
Definition spelling_outcome (text : jsstring) (s : Settings) : list Correction.t :=
  match callGeminiJson (main_request text s) with
  | Some r => map Correction.with_position (or_empty (Response.spellingErrors r))
  | None => []
  end.

Definition tone_outcome (text : jsstring) (s : Settings) : list ToneSuggestion.t :=
  if tone_selected s then
    match callGeminiJson (tone_request text s) with
    | Some r => map ToneSuggestion.with_position (or_empty (Response.toneConversions r))
    | None => []
    end
  else [].

Definition style_outcome (text : jsstring) (s : Settings) : list StyleSuggestion.t :=
  if style_selected s then
    match callGeminiJson (style_request text s) with
    | Some r => map StyleSuggestion.with_position (or_empty (Response.styleConversions r))
    | None => []
    end
  else [].

Definition content_outcome (text : jsstring) (s : Settings) : option ContentAnalysis.t :=
  option_map Response.content (callGeminiJson (content_request text s)).

Definition punctuation_outcome (text : jsstring) (s : Settings) : list PunctuationIssue.t :=
  match callGeminiJson (main_request text s) with
  | Some r => map PunctuationIssue.with_position (or_empty (Response.punctuationIssues r))
  | None => []
  end.

Definition euphony_outcome (text : jsstring) (s : Settings) : list EuphonyImprovement.t :=
  match callGeminiJson (main_request text s) with
  | Some r => map EuphonyImprovement.with_position (or_empty (Response.euphonyImprovements r))
  | None => []
  end.

Definition mixing_outcome (text : jsstring) (s : Settings) : option StyleMixing.t :=
  match callGeminiJson (main_request text s) with
  | Some r =>
      match Response.languageStyleMixing r with
      | Some m =>
          Some match StyleMixing.corrections m with
               | Some cs =>
                   StyleMixing.with_corrections m
                     (map StyleMixingCorrection.with_position cs)
               | None => m
               end
      | None => None
      end
  | None => None
  end.

Definition stats_outcome (text : jsstring) (s : Settings) : Stats.t :=
  match callGeminiJson (main_request text s) with
  | Some r => stats_of text (spelling_outcome text s)
  | None => Stats.initial
  end.

(** The store as the "Reset UI" block leaves it. *)
Definition empty_store : Store := mkStore [] [] [] None [] [] None Stats.initial.

(** The store at the end of a cycle: each cell holds the outcome of the
    branch that owns it. *)
Definition cycle_store (text : jsstring) (s : Settings) : Store :=
  mkStore (spelling_outcome text s) (tone_outcome text s) (style_outcome text s)
          (mixing_outcome text s) (punctuation_outcome text s)
          (euphony_outcome text s) (content_outcome text s) (stats_outcome text s).

(** The updates that each branch makes to the store when its call settles. *)
Definition main_update (text : jsstring) (s : Settings) (st : Store) : Store :=
  match callGeminiJson (main_request text s) with
  | Some r =>
      mkStore (spelling_outcome text s) (toneSuggestions st) (styleSuggestions st)
              (mixing_outcome text s) (punctuation_outcome text s)
              (euphony_outcome text s) (contentAnalysis st) (stats_outcome text s)
  | None => st
  end.

Definition tone_update (text : jsstring) (s : Settings) (st : Store) : Store :=
  match callGeminiJson (tone_request text s) with
  | Some r =>
      mkStore (corrections st)
              (map ToneSuggestion.with_position (or_empty (Response.toneConversions r)))
              (styleSuggestions st) (languageStyleMixing st) (punctuationIssues st)
              (euphonyImprovements st) (contentAnalysis st) (stats st)
  | None => st
  end.

Definition style_update (text : jsstring) (s : Settings) (st : Store) : Store :=
  match callGeminiJson (style_request text s) with
  | Some r =>
      mkStore (corrections st) (toneSuggestions st)
              (map StyleSuggestion.with_position (or_empty (Response.styleConversions r)))
              (languageStyleMixing st) (punctuationIssues st)
              (euphonyImprovements st) (contentAnalysis st) (stats st)
  | None => st
  end.

Definition content_update (text : jsstring) (s : Settings) (st : Store) : Store :=
  match callGeminiJson (content_request text s) with
  | Some r =>
      mkStore (corrections st) (toneSuggestions st) (styleSuggestions st)
              (languageStyleMixing st) (punctuationIssues st)
              (euphonyImprovements st) (Some (Response.content r)) (stats st)
  | None => st
  end.

(** The value each started branch resolves to. *)
Definition main_value (text : jsstring) (s : Settings) : TaskResult :=
  match callGeminiJson (main_request text s) with
  | Some r => r_spelling (spelling_outcome text s)
  | None => r_null
  end.

Definition tone_value (text : jsstring) (s : Settings) : TaskResult :=
  match callGeminiJson (tone_request text s) with
  | Some r => r_tones (map ToneSuggestion.with_position
                           (or_empty (Response.toneConversions r)))
  | None => r_null
  end.

Definition style_value (text : jsstring) (s : Settings) : TaskResult :=
  match callGeminiJson (style_request text s) with
  | Some r => r_styles (map StyleSuggestion.with_position
                            (or_empty (Response.styleConversions r)))
  | None => r_null
  end.

(** The time at which all four branches of a cycle started at [t0] have
    settled. *)
Definition all_settled (t0 : N) (text : jsstring) (s : Settings) : N :=
  N.max (main_settles t0 text s)
    (N.max (tone_settles t0 text s)
       (N.max (style_settles t0 text s) (content_settles t0 text s))).

(** The items of the batch highlight of a cycle. *)
Definition cycle_items (text : jsstring) (s : Settings) : list WordTs.HighlightItem :=
  highlightItems_of (spelling_outcome text s) (tone_outcome text s)
                    (style_outcome text s).

(** The text that [checkSpelling] reads from the document, and the two
    conditions under which it refuses to run. *)
Definition fetched_text (w : World) : jsstring :=
  fst (WordTs.getTextFromWord (doc w)).

Definition credential_missing (w : World) : Prop :=
  truthy (apiKey (settings w)) = false.

Definition document_blank (w : World) : Prop := trim (fetched_text w) = [].

(** The conditions under which [checkSpelling] runs a cycle. *)
Definition cycle_runs (w : World) : Prop :=
  truthy (apiKey (settings w)) = true /\ trim (fetched_text w) <> [].

(** The document read throws: the batch given to [Word.run] does not
    complete. *)
Definition read_throws (d : Doc) : Prop :=
  fst (WordTs.Word_run WordTs.read_text d) = None.

(** A document that is read, and whose text is empty. *)
Definition reads_empty (d : Doc) : Prop :=
  fst (WordTs.Word_run WordTs.read_text d) = Some [].

(** What the user and the collaborators can observe of a state: the
    interface cells, the store, the calls made, the clock and the timers. *)
Definition observable (w : World)
  : Ui * Store * list (N * Event) * N * list Timer * option N * N :=
  (ui w, store w, trace w, clock w, timers w, highlightTimeoutRef w, next_handle w).

(** Two states that differ at most by what timers do when they fire: the
    message may be cleared and a hovered text highlighted. *)
Definition differ_by_timers (w w' : World) : Prop :=
  settings w' = settings w
  /\ store w' = store w
  /\ isLoading (ui w') = isLoading (ui w)
  /\ loadingText (ui w') = loadingText (ui w)
  /\ activeModal (ui w') = activeModal (ui w)
  /\ provider_calls (trace w') = provider_calls (trace w)
  /\ batch_highlight_calls (trace w') = batch_highlight_calls (trace w)
  /\ clear_calls (trace w') = clear_calls (trace w).

End CycleVocabulary.

(** The batch highlight of a cycle: one call when there are items, no call
    when there are none. *)
Definition batch_of (t : N) (items : list WordTs.HighlightItem)
  : list (N * list WordTs.HighlightItem) :=
  match items with [] => [] | _ :: _ => [(t, items)] end.

(** The branch that issues a request. *)
Definition branch_of (req : Request) : Branch :=
  match prompt req with
  | MainPrompt _ _ => MainCheck
  | TonePrompt _ _ => ToneCheck
  | StylePrompt _ _ => StyleCheck
  | ContentPrompt _ _ => ContentAnalysisLogic
  end.

Definition Branch_eqb (a b : Branch) : bool :=
  match a, b with
  | MainCheck, MainCheck | ToneCheck, ToneCheck | StyleCheck, StyleCheck
  | ContentAnalysisLogic, ContentAnalysisLogic => true
  | _, _ => false
  end.

(** The provider [p] with the calls of branch [b] failing: a provider error
    or an unparseable response there, the same answers elsewhere. *)
Definition fails_on (b : Branch) (p : Provider) : Provider :=
  {| callGeminiJson := fun req =>
       if Branch_eqb (branch_of req) b then None else @callGeminiJson p req;
     latency := @latency p |}.

(** The cells of the store that a branch owns, the others blanked. *)
Definition branch_cells (b : Branch) (st : Store) : Store :=
  match b with
  | MainCheck =>
      mkStore (corrections st) [] [] (languageStyleMixing st)
              (punctuationIssues st) (euphonyImprovements st) None (stats st)
  | ToneCheck =>
      mkStore [] (toneSuggestions st) [] None [] [] None Stats.initial
  | StyleCheck =>
      mkStore [] [] (styleSuggestions st) None [] [] None Stats.initial
  | ContentAnalysisLogic =>
      mkStore [] [] [] None [] [] (contentAnalysis st) Stats.initial
  end.

(** The time at which a branch of a cycle started at [t0] settles. *)
Definition branch_settles {provider : Provider} (b : Branch) (t0 : N)
           (text : jsstring) (s : Settings) : N :=
  match b with
  | MainCheck => main_settles t0 text s
  | ToneCheck => tone_settles t0 text s
  | StyleCheck => style_settles t0 text s
  | ContentAnalysisLogic => content_settles t0 text s
  end.


(* ================================================================== *)
(** * Vocabulary for pruning one category *)
(* ================================================================== *)

(** [without_key key target before after]: [after] is [before] with the
    items whose key is [target] taken out; the other items are kept as they
    are, in their order and as often as they occur. *)
Inductive without_key {A : Type} (key : A -> jsstring) (target : jsstring)
  : list A -> list A -> Prop :=
| without_key_nil : without_key key target [] []
| without_key_drop (x : A) (before after : list A) :
    key x = target ->
    without_key key target before after ->
    without_key key target (x :: before) after
| without_key_keep (x : A) (before after : list A) :
    key x <> target ->
    without_key key target before after ->
    without_key key target (x :: before) (x :: after).

(** The [StyleMixing] cell after its corrections were pruned to [kept]: the
    record with the list replaced and its other fields as they were, and
    null when nothing is kept. *)
Definition mixing_with (m : StyleMixing.t) (kept : list StyleMixingCorrection.t)
  : option StyleMixing.t :=
  match kept with
  | [] => None
  | _ :: _ =>
      Some (StyleMixing.mk (StyleMixing.detected m) (StyleMixing.recommendedStyle m)
                           (StyleMixing.reason m) (Some kept))
  end.

Section PruneVocabulary.

Variable normalize : jsstring -> jsstring.

(** The category [type] of [s'] is that of [s] with the suggestions keyed
    [target] taken out. For the mixing category: a cell that is null, or a
    record without a list of corrections, is as before; a record with a list
    has the list pruned and becomes null when nothing is kept. *)
Definition category_without_key (type : DismissType) (target : jsstring)
           (s s' : Store) : Prop :=
  match type with
  | d_spelling =>
      without_key (fun c => normalize (Correction.wrong c)) target
                  (corrections s) (corrections s')
  | d_tone =>
      without_key (fun t => normalize (ToneSuggestion.current t)) target
                  (toneSuggestions s) (toneSuggestions s')
  | d_style =>
      without_key (fun x => normalize (StyleSuggestion.current x)) target
                  (styleSuggestions s) (styleSuggestions s')
  | d_mixing =>
      match languageStyleMixing s with
      | None => languageStyleMixing s' = None
      | Some m =>
          match StyleMixing.corrections m with
          | None => languageStyleMixing s' = Some m
          | Some cs =>
              exists kept,
                without_key (fun c => normalize (StyleMixingCorrection.current c))
                            target cs kept
                /\ languageStyleMixing s' = mixing_with m kept
          end
      end
  | d_punct =>
      without_key (fun p => normalize (PunctuationIssue.currentSentence p)) target
                  (punctuationIssues s) (punctuationIssues s')
  | d_euphony =>
      without_key (fun e => normalize (EuphonyImprovement.current e)) target
                  (euphonyImprovements s) (euphonyImprovements s')
  end.

End PruneVocabulary.


(* ================================================================== *)
(** * Vocabulary for the hover debouncer *)
(* ================================================================== *)

Section DebounceVocabulary.

Context {host : WordHost}.

(** The pointer enters a suggestion card, [after] milliseconds after the
    previous event. *)
Record Hover := mkHover
  { after : N; on_text : jsstring; on_color : jsstring; on_position : option Z }.

(** The adapter call that a hover asks for. *)
Definition hover_event (h : Hover) : Event :=
  ev_highlightInWord (on_text h) (on_color h) (on_position h).

(** The component under a sequence of hovers: before each one the stated
    time passes (timers that fall due fire), then the [onMouseEnter] handler
    runs. *)
Fixpoint hovers (hs : list Hover) (w : World) : World :=
  match hs with
  | [] => w
  | h :: hs' =>
      hovers hs'
        (handleHighlight (on_text h) (on_color h) (on_position h)
                         (advance (clock w + after h) w))
  end.

(** The sequence of hovers followed by [quiet] milliseconds without one. *)
Definition hovers_then_quiet (hs : list Hover) (quiet : N) (w : World) : World :=
  let w1 := hovers hs w in
  advance (clock w1 + quiet) w1.

(** The time without a hover that follows the first hover of a sequence. *)
Definition gap_after (hs' : list Hover) (quiet : N) : N :=
  match hs' with
  | next :: _ => after next
  | [] => quiet
  end.

(** What debouncing promises: a hover leads to an adapter call exactly when
    no other hover arrives within 300 ms of it. *)
Fixpoint expected_highlights (hs : list Hover) (quiet : N) : list Event :=
  match hs with
  | [] => []
  | h :: hs' =>
      (if (300 <=? gap_after hs' quiet)%N then [hover_event h] else [])
      ++ expected_highlights hs' quiet
  end.

(** The highlight that a pending timer stands for, with its due time. *)
Definition scheduled (tm : Timer) : list (N * Event) :=
  match callback tm with
  | cb_highlight text color position =>
      [(due tm, ev_highlightInWord text color position)]
  | cb_clear_message => []
  end.

(** The highlights that are scheduled and have not fired. *)
Definition pending_highlights (w : World) : list (N * Event) :=
  flat_map scheduled (timers w).

(** The debouncer's view of a state of the component: timer handles are
    positive, as in a browser, and a highlight that is still scheduled is the
    one whose handle the ref holds. *)
Definition debouncer_ok (w : World) : Prop :=
  (0 < next_handle w)%N
  /\ forall tm text color position,
       In tm (timers w) ->
       callback tm = cb_highlight text color position ->
       highlightTimeoutRef w = Some (handle tm) /\ handle tm <> 0%N.

(** The calls that a list of scheduled highlights gives rise to by time [t],
    and their history for a sequence of hovers that starts at time [t]. *)
Definition fired_by (t : N) (pending : list (N * Event)) : list Event :=
  map snd (filter (fun x => (fst x <=? t)%N) pending).

Fixpoint expected_from (t : N) (pending : list (N * Event)) (hs : list Hover)
         (quiet : N) : list Event :=
  match hs with
  | [] => fired_by (t + quiet) pending
  | h :: hs' =>
      fired_by (t + after h) pending
      ++ expected_from (t + after h) [((t + after h + 300)%N, hover_event h)] hs' quiet
  end.

End DebounceVocabulary.

(** What can happen to the mounted component: the user hovers over a card,
    applies or dismisses a suggestion, or starts a check, or time passes. *)
Inductive Action :=
| act_hover (text color : jsstring) (position : option Z)
| act_apply (oldText newText : jsstring) (position : option Z)
| act_dismiss (type : DismissType) (textToDismiss : jsstring)
| act_check
| act_wait (ms : N).

Definition act {host : WordHost} {provider : Provider}
           (normalize : jsstring -> jsstring) (a : Action) (w : World) : World :=
  match a with
  | act_hover text color position => handleHighlight text color position w
  | act_apply oldText newText position =>
      handleReplace normalize oldText newText position w
  | act_dismiss type textToDismiss => dismissSuggestion normalize type textToDismiss w
  | act_check => checkSpelling w
  | act_wait ms => advance (clock w + ms) w
  end.

(** The component as it is mounted: empty collections, no message, nothing
    scheduled, the first timer handle being 1. *)
Definition mounted {host : WordHost} (s : Settings) (d : Doc) : World :=
  mkWorld s (mkUi false loading_empty None modal_none)
          (mkStore [] [] [] None [] [] None Stats.initial)
          None d [] 0 [] 1.

(** The states the component can be in. *)
Inductive reachable {host : WordHost} {provider : Provider}
          (normalize : jsstring -> jsstring) : World -> Prop :=
| reach_mounted (s : Settings) (d : Doc) : reachable normalize (mounted s d)
| reach_act (a : Action) (w : World) :
    reachable normalize w -> reachable normalize (act normalize a w).


(* ================================================================== *)
(** * The suggestion cards of the content area (App.tsx, render) *)
(* ================================================================== *)

Inductive SectionKey :=
| sec_spelling | sec_tone | sec_style | sec_mixing | sec_punctuation
| sec_euphony | sec_content.

Inductive ViewFilter := view_all | view_spelling | view_punctuation.

Definition SectionKey_eqb (a b : SectionKey) : bool :=
  match a, b with
  | sec_spelling, sec_spelling | sec_tone, sec_tone | sec_style, sec_style
  | sec_mixing, sec_mixing | sec_punctuation, sec_punctuation
  | sec_euphony, sec_euphony | sec_content, sec_content => true
  | _, _ => false
  end.

(** The [viewFilter] and [collapsedSections] cells. *)
Record View := mkView
  { viewFilter : ViewFilter;
    collapsedSections : SectionKey -> bool }.

(** The cells as [useState] initialises them. *)
Definition initial_view : View := mkView view_all (fun _ => false).

(** [setCollapsedSections(prev => ({ ...prev, [key]: !prev[key] }))] *)
Definition toggleSection (key : SectionKey) (v : View) : View :=
  mkView (viewFilter v)
         (fun k => if SectionKey_eqb k key then negb (collapsedSections v key)
                   else collapsedSections v k).

Definition shouldShowSection (v : View) (key : SectionKey) : bool :=
  match viewFilter v with
  | view_all => true
  | view_spelling => match key with sec_spelling => true | _ => false end
  | view_punctuation => match key with sec_punctuation => true | _ => false end
  end.

(** A suggestion card: the section it is rendered in and the handler calls
    that its [onMouseEnter], its dismiss button and its suggestion buttons
    make. *)
Record Card := mkCard
  { section : SectionKey;
    onMouseEnter : Action;
    dismiss_btn : Action;
    suggestion_btns : list Action }.

Definition spelling_card (c : Correction.t) : Card :=
  mkCard sec_spelling
         (act_hover (Correction.wrong c) (js "#fee2e2") (Correction.position c))
         (act_dismiss d_spelling (Correction.wrong c))
         (map (fun s => act_apply (Correction.wrong c) s (Correction.position c))
              (Correction.suggestions c)).

Definition tone_card (t : ToneSuggestion.t) : Card :=
  mkCard sec_tone
         (act_hover (ToneSuggestion.current t) (js "#fef3c7") (ToneSuggestion.position t))
         (act_dismiss d_tone (ToneSuggestion.current t))
         [act_apply (ToneSuggestion.current t) (ToneSuggestion.suggestion t)
                    (ToneSuggestion.position t)].

Definition style_card (s : StyleSuggestion.t) : Card :=
  mkCard sec_style
         (act_hover (StyleSuggestion.current s) (js "#ccfbf1") (StyleSuggestion.position s))
         (act_dismiss d_style (StyleSuggestion.current s))
         [act_apply (StyleSuggestion.current s) (StyleSuggestion.suggestion s)
                    (StyleSuggestion.position s)].

Definition mixing_card (c : StyleMixingCorrection.t) : Card :=
  mkCard sec_mixing
         (act_hover (StyleMixingCorrection.current c) (js "#e9d5ff")
                    (StyleMixingCorrection.position c))
         (act_dismiss d_mixing (StyleMixingCorrection.current c))
         [act_apply (StyleMixingCorrection.current c) (StyleMixingCorrection.suggestion c)
                    (StyleMixingCorrection.position c)].

(** The punctuation card passes no position to either handler. *)
Definition punctuation_card (p : PunctuationIssue.t) : Card :=
  mkCard sec_punctuation
         (act_hover (PunctuationIssue.currentSentence p) (js "#ffedd5") None)
         (act_dismiss d_punct (PunctuationIssue.currentSentence p))
         [act_apply (PunctuationIssue.currentSentence p)
                    (PunctuationIssue.correctedSentence p) None].

Definition euphony_card (e : EuphonyImprovement.t) : Card :=
  mkCard sec_euphony
         (act_hover (EuphonyImprovement.current e) (js "#fce7f3")
                    (EuphonyImprovement.position e))
         (act_dismiss d_euphony (EuphonyImprovement.current e))
         (map (fun s => act_apply (EuphonyImprovement.current e) s
                                  (EuphonyImprovement.position e))
              (EuphonyImprovement.suggestions e)).

(** [{present && shouldShowSection(key) && (<> header
      {!collapsedSections[key] && items.map(card)} </>)}] *)
Definition section_cards (v : View) (key : SectionKey) (present : bool)
           (items : list Card) : list Card :=
  if present && shouldShowSection v key
  then (if negb (collapsedSections v key) then items else [])
  else [].

Section Render.

Context {host : WordHost}.

(** The cards of the content area, in the order of the sections. *)
Definition cards (v : View) (w : World) : list Card :=
  let st := store w in
  section_cards v sec_spelling
    (0 <? N.of_nat (List.length (corrections st)))%N
    (map spelling_card (corrections st))
  ++ section_cards v sec_tone
       (0 <? N.of_nat (List.length (toneSuggestions st)))%N
       (map tone_card (toneSuggestions st))
  ++ section_cards v sec_style
       (0 <? N.of_nat (List.length (styleSuggestions st)))%N
       (map style_card (styleSuggestions st))
  ++ match languageStyleMixing st with
     | Some m =>
         section_cards v sec_mixing
           (StyleMixing.detected m
            && match selectedStyle (settings w) with none => true | _ => false end)
           (map mixing_card (or_empty (StyleMixing.corrections m)))
     | None => []
     end
  ++ section_cards v sec_punctuation
       (0 <? N.of_nat (List.length (punctuationIssues st)))%N
       (map punctuation_card (punctuationIssues st))
  ++ section_cards v sec_euphony
       (0 <? N.of_nat (List.length (euphonyImprovements st)))%N
       (map euphony_card (euphonyImprovements st)).

End Render.

(** ** Vocabulary for the cards *)

(** A section is open: it passes the view filter and is not collapsed. *)
Definition shown (v : View) (key : SectionKey) : bool :=
  shouldShowSection v key && negb (collapsedSections v key).

(** The text that a card shows and passes to its handlers. *)
Definition card_text (c : Card) : jsstring :=
  match dismiss_btn c with
  | act_dismiss _ text => text
  | _ => []
  end.

(** What hovering over a card asks to be highlighted. *)
Definition hover_item (c : Card) : list WordTs.HighlightItem :=
  match onMouseEnter c with
  | act_hover text color position => [WordTs.mkItem text color position]
  | _ => []
  end.

(** The sections whose suggestions the batch highlight of a check covers. *)
Definition in_batch (c : Card) : bool :=
  match section c with
  | sec_spelling | sec_tone | sec_style => true
  | _ => false
  end.

(** The store item that a card stands for. *)
Definition card_source {host : WordHost} (w : World) (c : Card) : Prop :=
  (exists x, In x (corrections (store w)) /\ c = spelling_card x)
  \/ (exists x, In x (toneSuggestions (store w)) /\ c = tone_card x)
  \/ (exists x, In x (styleSuggestions (store w)) /\ c = style_card x)
  \/ (exists m cs x,
         languageStyleMixing (store w) = Some m
         /\ StyleMixing.detected m = true
         /\ selectedStyle (settings w) = none
         /\ StyleMixing.corrections m = Some cs
         /\ In x cs /\ c = mixing_card x)
  \/ (exists x, In x (punctuationIssues (store w)) /\ c = punctuation_card x)
  \/ (exists x, In x (euphonyImprovements (store w)) /\ c = euphony_card x).

(** The section in which the suggestions of a category are rendered. *)
Definition section_of (type : DismissType) : SectionKey :=
  match type with
  | d_spelling => sec_spelling
  | d_tone => sec_tone
  | d_style => sec_style
  | d_mixing => sec_mixing
  | d_punct => sec_punctuation
  | d_euphony => sec_euphony
  end.

(** The replacement that a suggestion button asks for finds its match. *)
Definition apply_succeeds {host : WordHost} (a : Action) (w : World) : bool :=
  match a with
  | act_apply oldText newText position =>
      fst (WordTs.replaceInWord oldText newText position (doc w))
  | _ => false
  end.

(** A state whose suggestions are among those of another one. *)
Definition pruned {host : WordHost} (w w' : World) : Prop :=
  settings w' = settings w
  /\ incl (corrections (store w')) (corrections (store w))
  /\ incl (toneSuggestions (store w')) (toneSuggestions (store w))
  /\ incl (styleSuggestions (store w')) (styleSuggestions (store w))
  /\ incl (punctuationIssues (store w')) (punctuationIssues (store w))
  /\ incl (euphonyImprovements (store w')) (euphonyImprovements (store w))
  /\ (languageStyleMixing (store w') = languageStyleMixing (store w)
      \/ exists f, languageStyleMixing (store w')
                   = prune_mixing f (languageStyleMixing (store w))).

(* ================================================================== *)
(** * Vocabulary for the adapter, the timers and the accuracy *)
(* ================================================================== *)

(** An item of a batch whose text is not blank; the others are skipped. *)
Definition nonblank (item : WordTs.HighlightItem) : bool :=
  truthy (trim (WordTs.text item)).

Section TimerVocabulary.

Context {host : WordHost}.

(** The part of a state that timers and the message depend on. *)
Definition timer_view (w : World)
  : list Timer * option N * N * option (MessageText * MessageType.t) * N :=
  (timers w, highlightTimeoutRef w, next_handle w, message (ui w), clock w).

(** Timer handles are handed out in increasing order, the ref never holds
    the handle of a timer that clears the message, and a message that is
    shown has a pending timer that clears it within 4000 ms. *)
Definition message_ok (w : World) : Prop :=
  (forall h, highlightTimeoutRef w = Some h -> (h < next_handle w)%N)
  /\ (forall tm, In tm (timers w) -> (handle tm < next_handle w)%N)
  /\ (forall tm, In tm (timers w) -> callback tm = cb_clear_message ->
                 highlightTimeoutRef w <> Some (handle tm))
  /\ (message (ui w) <> None ->
      exists tm, In tm (timers w) /\ callback tm = cb_clear_message
                 /\ (due tm <= clock w + 4000)%N).

(** At most one highlight is scheduled, and it is due within 300 ms. *)
Definition one_pending (w : World) : Prop :=
  (List.length (pending_highlights w) <= 1)%nat
  /\ forall x, In x (pending_highlights w) -> (fst x <= clock w + 300)%N.

End TimerVocabulary.

(** Whether two Number values are the same value. *)
Definition same_number (x y : number) : bool :=
  match x, y with
  | S754_zero a, S754_zero b => Bool.eqb a b
  | S754_infinity a, S754_infinity b => Bool.eqb a b
  | S754_nan, S754_nan => true
  | S754_finite a m e, S754_finite b m' e' =>
      Bool.eqb a b && Pos.eqb m m' && Z.eqb e e'
  | _, _ => false
  end.

(** The word and error counts, up to 200 words, for which the accuracy that
    the code computes is not the exactly rounded percentage. *)
Definition rounding_exceptions : list (N * N) :=
  [(40, 17); (80, 34); (120, 51); (160, 68); (200, 85); (200, 87); (200, 143);
   (200, 171)]%N.

Definition is_exception (words errorCount : N) : bool :=
  existsb (fun x => (fst x =? words)%N && (snd x =? errorCount)%N) rounding_exceptions.

Definition rounds_as_expected (words errorCount : N) : bool :=
  let exact := spec_accuracy (Z.of_N words) (Z.of_N errorCount) in
  if is_exception words errorCount
  then same_number (accuracy_of words errorCount) (num (exact - 1))
       && negb (same_number (accuracy_of words errorCount) (num exact))
  else same_number (accuracy_of words errorCount) (num exact).

Definition upto (n : N) : list N := map N.of_nat (seq 0 (S (N.to_nat n))).

Definition accuracy_table (bound : N) : bool :=
  forallb (fun words => forallb (rounds_as_expected words) (upto words)) (upto bound).

(* ================================================================== *)
(** * Concrete states used by the examples *)
(* ================================================================== *)

Module Example.

Definition teh : jsstring := js "teh".

(** A document with the misspelt word highlighted, and a store in which the
    same text is flagged by three categories: as a spelling error, as a tone
    suggestion (capitalised) and as the only style-mixing correction (with
    blanks around it). The euphony entry is about another word. *)
Definition document1 : Fake.document :=
  Fake.mkDocument true []
    [(js "teh", js "#fee2e2"); (js "cat", js "None"); (js "sat", js "None")].

Definition store1 : Store :=
  mkStore
    [Correction.mk teh [js "the"] (Some 0%Z)]
    [ToneSuggestion.mk (js "Teh") (js "The") (js "formal") (Some 0%Z)]
    []
    (Some (StyleMixing.mk true None None
             (Some [StyleMixingCorrection.mk (js " teh ") (js "the") (js "cholito") None])))
    []
    [EuphonyImprovement.mk (js "cat") [js "kitten"] (js "sound") (Some 0%Z)]
    None
    (Stats.mk 3 1 (num 67)).

Definition world1 : @World Fake.host :=
  @mkWorld Fake.host Fake.settings0 Fake.ui0 store1 None document1 [] 0 [] 1.

(** A document of forty words and a provider that reports seventeen of them
    as misspelt. *)
Definition document40 : Fake.document :=
  Fake.mkDocument true [] (repeat (js "ab", js "None") 40).

Definition errors17 : list Correction.t :=
  repeat (Correction.mk (js "ab") [js "abc"] None) 17.

Definition provider17 : Provider :=
  Fake.scripted
    (Some (Response.mk (Some errors17) None None None None None
                       (ContentAnalysis.mk [] None None None)))
    None None None 50.

Definition world40 : @World Fake.host := Fake.world0 document40.

(** A component with a tone and a style selected, and a provider that
    answers every branch. *)
Definition settings2 : Settings :=
  mkSettings (js "key") (js "gemini-2.5-flash") (js "generic") (js "formal") sadhu.

Definition world2 : @World Fake.host :=
  @mkWorld Fake.host settings2 Fake.ui0 store1 None document1 [] 0 [] 1.

Definition provider2 : Provider :=
  Fake.scripted
    (Some (Response.mk (Some [Correction.mk teh [js "the"] None]) None None None
                       None None (ContentAnalysis.mk [] None None None)))
    (Some (Response.mk None None None None
                       (Some [ToneSuggestion.mk (js "cat") (js "feline") (js "formal") None])
                       None (ContentAnalysis.mk [] None None None)))
    (Some (Response.mk None None None None None
                       (Some [StyleSuggestion.mk (js "sat") (js "was seated") (js "sadhu") None])
                       (ContentAnalysis.mk [] None None None)))
    (Some (Response.mk None None None None None None
                       (ContentAnalysis.mk (js "story") None None None)))
    50.

(** A document without errors: the main check succeeds and reports nothing;
    no tone and no style are selected. *)
Definition provider_clean : Provider :=
  Fake.scripted (Some Fake.no_response) None None (Some Fake.no_response) 50.

(** A provider whose main call fails while the content analysis succeeds. *)
Definition provider_main_fails : Provider :=
  Fake.scripted None None None (Some Fake.no_response) 50.

Definition world_clean : @World Fake.host := Fake.world0 document1.

(** No API key. *)
Definition world_no_key : @World Fake.host :=
  @mkWorld Fake.host
    (mkSettings [] (js "gemini-2.5-flash") (js "generic") [] none)
    Fake.ui0 store1 None document1 [] 0 [] 1.

(** A document that holds nothing but blanks. *)
Definition document_blanks : Fake.document :=
  Fake.mkDocument true [] [(js "  ", js "None")].

Definition world_blank : @World Fake.host :=
  @mkWorld Fake.host Fake.settings0 Fake.ui0 store1 None document_blanks [] 0 [] 1.

(** A document that cannot be read, and one that is read and is empty. *)
Definition document_unreadable : Fake.document :=
  Fake.mkDocument false [] [(js "teh", js "None")].

Definition document_empty : Fake.document := Fake.mkDocument true [] [].

Definition world_unreadable : @World Fake.host :=
  @mkWorld Fake.host Fake.settings0 Fake.ui0 store1 None document_unreadable [] 0 [] 1.

(** The pointer crosses three cards within 200 ms and then rests. *)
Definition three_hovers : list Hover :=
  [mkHover 0 (js "teh") (js "#fee2e2") (Some 0%Z);
   mkHover 100 (js "cat") (js "#fef3c7") (Some 0%Z);
   mkHover 100 (js "sat") (js "#ccfbf1") (Some 0%Z)].

End Example.

(* ================================================================== *)
(** * More concrete states *)
(* ================================================================== *)

Module Sample.

(** The document of the examples with the word "cat" selected. *)
Definition document_selected : Fake.document :=
  Fake.mkDocument true (js "cat")
    [(js "teh", js "None"); (js "cat", js "None"); (js "sat", js "None")].

(** The component of [Example.world2] before any check: same settings and
    document, nothing stored. *)
Definition world2_fresh : @World Fake.host :=
  @mkWorld Fake.host Example.settings2 Fake.ui0 Fake.store0 None
           Example.document1 [] 0 [] 1.

(** A store with two spelling errors. *)
Definition teh_error : Correction.t := Correction.mk (js "teh") [js "the"] (Some 0%Z).
Definition sta_error : Correction.t := Correction.mk (js "sta") [js "sat"] (Some 2%Z).

Definition store3 : Store :=
  mkStore [teh_error; sta_error] [] [] None [] [] None (Stats.mk 3 2 (num 33)).

Definition world3 : @World Fake.host :=
  @mkWorld Fake.host Fake.settings0 Fake.ui0 store3 None Example.document1 [] 0 [] 1.

(** The cards of the two spelling errors and of the euphony entry of
    [Example.store1]. *)
Definition teh_card : Card := spelling_card teh_error.
Definition sta_card : Card := spelling_card sta_error.
Definition cat_card : Card :=
  euphony_card (EuphonyImprovement.mk (js "cat") [js "kitten"] (js "sound") (Some 0%Z)).

(** The mounted component after a replacement that finds no match, and
    after a hover. *)
Definition world_not_found : @World Fake.host :=
  @act Fake.host Example.provider2 Fake.normalize
       (act_apply (js "dog") (js "hound") None)
       (@mounted Fake.host Fake.settings0 Example.document1).

Definition world_hovered : @World Fake.host :=
  @act Fake.host Example.provider2 Fake.normalize
       (act_hover (js "teh") (js "#fee2e2") (Some 0%Z))
       (@mounted Fake.host Fake.settings0 Example.document1).

End Sample.

(* ================================================================== *)
(** * Properties *)
(* ================================================================== *)

Lemma strict_neq_true (a b : jsstring) : strict_neq a b = true <-> a <> b.
Proof.
  unfold strict_neq. destruct (jsstring_eq_dec a b); split; congruence.
Qed.

Lemma strict_neq_false (a b : jsstring) : strict_neq a b = false <-> a = b.
Proof.
  unfold strict_neq. destruct (jsstring_eq_dec a b); split; congruence.
Qed.

(** The keys left by [xs.filter(x => normalize(field(x)) !== target)]. *)
Lemma keys_after_filter {A} (key : A -> jsstring) (target : jsstring) (xs : list A) :
  forall k,
    In k (map key (filter (fun x => strict_neq (key x) target) xs))
    <-> In k (map key xs) /\ k <> target.
Proof.
  intros k. rewrite !in_map_iff. split.
  - intros [x [Hk Hin]]. apply filter_In in Hin. destruct Hin as [Hin Hne].
    apply strict_neq_true in Hne. subst k. split; [exists x; auto | exact Hne].
  - intros [[x [Hk Hin]] Hne]. exists x. split; [exact Hk|].
    apply filter_In. split; [exact Hin|]. apply strict_neq_true. now rewrite Hk.
Qed.

Lemma length_pos_iff {A} (l : list A) :
  (0 <? N.of_nat (List.length l))%N = true <-> l <> [].
Proof.
  destruct l; simpl; split; intros; try congruence; try discriminate.
  apply N.ltb_lt. lia.
Qed.

(** [xs.filter(x => key(x) !== target)] takes out the items keyed [target]
    and nothing else. *)
Lemma without_key_filter {A} (key : A -> jsstring) (target : jsstring) (xs : list A) :
  without_key key target xs (filter (fun x => strict_neq (key x) target) xs).
Proof.
  induction xs as [|x xs IH]; cbn [filter]; [constructor|].
  destruct (strict_neq (key x) target) eqn:Hx.
  - apply without_key_keep; [now apply strict_neq_true | exact IH].
  - apply without_key_drop; [now apply strict_neq_false | exact IH].
Qed.

(** What is left is determined by the list and the key. *)
Lemma without_key_unique {A} (key : A -> jsstring) (target : jsstring)
      (xs kept kept' : list A) :
  without_key key target xs kept -> without_key key target xs kept' -> kept = kept'.
Proof.
  intros H. revert kept'. induction H as [|x xs kept Hx H IH|x xs kept Hx H IH];
    intros kept' H'; inversion H'; subst; try contradiction.
  - reflexivity.
  - now apply IH.
  - f_equal. now apply IH.
Qed.

Section PruneMixing.

Variable normalize : jsstring -> jsstring.
Variable target : jsstring.

Lemma prune_mixing_keys (prev : option StyleMixing.t) (s s' : Store) :
  languageStyleMixing s = prev ->
  languageStyleMixing s' =
    prune_mixing (fun t => strict_neq (normalize t) target) prev ->
  forall k, In k (live_keys normalize d_mixing s')
            <-> In k (live_keys normalize d_mixing s) /\ k <> target.
Proof.
  intros Hs Hs' k. unfold live_keys. rewrite Hs, Hs'. clear Hs Hs'.
  destruct prev as [m|]; simpl; [|tauto].
  destruct (StyleMixing.corrections m) as [cs|] eqn:Hcs; simpl.
  - pose proof (keys_after_filter
                  (fun c => normalize (StyleMixingCorrection.current c)) target cs k)
      as Hk.
    destruct (filter _ cs) as [|c0 kept] eqn:Hf.
    + simpl. exact Hk.
    + replace (0 <? N.of_nat (List.length (c0 :: kept)))%N with true
        by (symmetry; apply length_pos_iff; discriminate).
      simpl. simpl in Hk. exact Hk.
  - rewrite Hcs. simpl. tauto.
Qed.

Lemma prune_mixing_not_empty (prev : option StyleMixing.t) :
  ~ empty_but_present
      (prune_mixing (fun t => strict_neq (normalize t) target) prev).
Proof.
  intros [m [Hm Hcs]]. unfold prune_mixing in Hm.
  destruct prev as [m0|]; [|discriminate].
  destruct (StyleMixing.corrections m0) as [cs|] eqn:Hcs0.
  - destruct (0 <? N.of_nat (List.length (filter _ cs)))%N eqn:Hlen; [|discriminate].
    injection Hm as <-. simpl in Hcs. injection Hcs as Hnil.
    rewrite Hnil in Hlen. discriminate.
  - injection Hm as <-. congruence.
Qed.

Lemma prune_mixing_collapses (m : StyleMixing.t) (cs : list StyleMixingCorrection.t) :
  StyleMixing.corrections m = Some cs ->
  (forall c, In c cs -> normalize (StyleMixingCorrection.current c) = target) ->
  prune_mixing (fun t => strict_neq (normalize t) target) (Some m) = None.
Proof.
  intros Hcs Hall. unfold prune_mixing. rewrite Hcs.
  assert (Hnil : filter (fun c => strict_neq
                                    (normalize (StyleMixingCorrection.current c))
                                    target) cs = []).
  { clear Hcs. induction cs as [|c cs IH]; [reflexivity|]. simpl.
    assert (Hc : strict_neq (normalize (StyleMixingCorrection.current c)) target
                 = false).
    { apply strict_neq_false. apply Hall. now left. }
    rewrite Hc. apply IH. intros c' Hin. apply Hall. now right. }
  rewrite Hnil. reflexivity.
Qed.

Lemma prune_mixing_without_key (s s' : Store) :
  languageStyleMixing s' =
    prune_mixing (fun t => strict_neq (normalize t) target) (languageStyleMixing s) ->
  category_without_key normalize d_mixing target s s'.
Proof.
  intros Hs'. cbn [category_without_key]. rewrite Hs'. clear Hs'.
  destruct (languageStyleMixing s) as [m|]; [|reflexivity].
  unfold prune_mixing.
  destruct (StyleMixing.corrections m) as [cs|]; [|reflexivity].
  exists (filter (fun c => strict_neq (normalize (StyleMixingCorrection.current c))
                                      target) cs).
  split.
  - apply (without_key_filter (fun c => normalize (StyleMixingCorrection.current c))).
  - destruct (filter _ cs); reflexivity.
Qed.

End PruneMixing.

(* ================================================================== *)
(** ** The suggestion store: apply and dismiss *)
(* ================================================================== *)

Section StoreProperties.

Context {host : WordHost}.
Variable normalize : jsstring -> jsstring.

(** A search that finds nothing makes [replaceInWord] answer [false] and
    leaves the document as it was. *)
Lemma replaceInWord_no_match (oldText newText : jsstring) (position : option Z)
      (d : Doc) :
  body_search (trim oldText) (negb (test_ws (trim oldText))) d = Some [] ->
  WordTs.replaceInWord oldText newText position d = (false, d).
Proof.
  intros Hsearch. unfold WordTs.replaceInWord.
  destruct (negb (truthy (trim oldText))); [reflexivity|].
  unfold WordTs.try_catch, WordTs.Word_run, WordTs.bind, WordTs.read.
  destruct (run_available d); [|reflexivity].
  rewrite Hsearch. reflexivity.
Qed.

(** The store after [handleReplace] when the replace reports no match. *)
Lemma handleReplace_failure (oldText newText : jsstring) (position : option Z)
      (w : World) :
  fst (WordTs.replaceInWord oldText newText position (doc w)) = false ->
  store (handleReplace normalize oldText newText position w) = store w
  /\ message (ui (handleReplace normalize oldText newText position w))
     = Some (msg_not_found, MessageType.error).
Proof.
  intros Hfalse. unfold handleReplace, call_replaceInWord.
  destruct (WordTs.replaceInWord oldText newText position (doc w)) as [ok d].
  simpl in Hfalse. subst ok. split; reflexivity.
Qed.

(** C3. When the search of the document finds no match for the trimmed old
    text, [replaceInWord] reports [false] without changing the document, and
    [handleReplace] leaves every collection of the store (spelling, tone,
    style, punctuation, euphony, StyleMixing, content analysis, stats) as it
    was and shows the not-found message. *)
Theorem handleReplace_no_match_leaves_store
        (oldText newText : jsstring) (position : option Z) (w : World) :
  body_search (trim oldText) (negb (test_ws (trim oldText))) (doc w) = Some [] ->
  WordTs.replaceInWord oldText newText position (doc w) = (false, doc w)
  /\ store (handleReplace normalize oldText newText position w) = store w
  /\ doc (handleReplace normalize oldText newText position w) = doc w
  /\ message (ui (handleReplace normalize oldText newText position w))
     = Some (msg_not_found, MessageType.error).
Proof.
  intros Hsearch.
  pose proof (replaceInWord_no_match oldText newText position (doc w) Hsearch) as Hr.
  split; [exact Hr|].
  destruct (handleReplace_failure oldText newText position w) as [Hs Hm].
  { now rewrite Hr. }
  split; [exact Hs|]. split; [|exact Hm].
  unfold handleReplace, call_replaceInWord. rewrite Hr. reflexivity.
Qed.

(** C2. When [replaceInWord] reports a match, [handleReplace] leaves in every
    category exactly the keys that differ from [normalize(oldText.trim())]:
    every suggestion whose normalized matching field equals the target is
    gone from spelling, tone, style, punctuation, euphony and from
    [StyleMixing.corrections]. The [StyleMixing] record is never present with
    an empty corrections list afterwards, and it becomes absent when every
    one of its corrections matched. Content analysis and stats are kept. *)
Theorem handleReplace_prunes_every_category
        (oldText newText : jsstring) (position : option Z) (w : World) :
  fst (WordTs.replaceInWord oldText newText position (doc w)) = true ->
  let target := normalize (trim oldText) in
  let s := store w in
  let s' := store (handleReplace normalize oldText newText position w) in
  (forall category k,
      In k (live_keys normalize category s')
      <-> In k (live_keys normalize category s) /\ k <> target)
  /\ (forall category, ~ In target (live_keys normalize category s'))
  /\ ~ empty_but_present (languageStyleMixing s')
  /\ (forall m cs,
         languageStyleMixing s = Some m ->
         StyleMixing.corrections m = Some cs ->
         (forall c, In c cs -> normalize (StyleMixingCorrection.current c) = target) ->
         languageStyleMixing s' = None)
  /\ contentAnalysis s' = contentAnalysis s
  /\ stats s' = stats s.
Proof.
  intros Htrue target s s'.
  assert (Hkeys : forall category k,
             In k (live_keys normalize category s')
             <-> In k (live_keys normalize category s) /\ k <> target).
  { intros category k. subst s s'.
    unfold handleReplace, call_replaceInWord.
    destruct (WordTs.replaceInWord oldText newText position (doc w)) as [ok d].
    simpl in Htrue. subst ok.
    destruct category.
    - apply (keys_after_filter (fun c => normalize (Correction.wrong c))).
    - apply (keys_after_filter (fun t => normalize (ToneSuggestion.current t))).
    - apply (keys_after_filter (fun x => normalize (StyleSuggestion.current x))).
    - apply prune_mixing_keys with (prev := languageStyleMixing (store w));
        reflexivity.
    - apply (keys_after_filter (fun p => normalize (PunctuationIssue.currentSentence p))).
    - apply (keys_after_filter (fun e => normalize (EuphonyImprovement.current e))). }
  split; [exact Hkeys|].
  split.
  { intros category Hin. apply Hkeys in Hin. destruct Hin as [_ Hne]. now apply Hne. }
  subst s s'. unfold handleReplace, call_replaceInWord.
  destruct (WordTs.replaceInWord oldText newText position (doc w)) as [ok d].
  simpl in Htrue. subst ok. cbn.
  split; [apply prune_mixing_not_empty|].
  split; [|split; reflexivity].
  intros m cs Hm Hcs Hall. rewrite Hm.
  exact (prune_mixing_collapses normalize m Hcs Hall).
Qed.

(** C1 (as amended). [dismissSuggestion(type, text)] prunes the one category
    named by [type]: afterwards that category holds exactly the keys that
    differ from [normalize(text)] (for the mixing category, inside
    [StyleMixing.corrections], the record becoming absent rather than empty),
    the suggestions of the category with another key are kept as they are,
    in their order, every other category, the content analysis and the stats
    are as before, and neither the document nor the trace of adapter and
    provider calls changes. *)
Theorem dismissSuggestion_prunes_named_category
        (type : DismissType) (textToDismiss : jsstring) (w : World) :
  let target := normalize textToDismiss in
  let s := store w in
  let w' := dismissSuggestion normalize type textToDismiss w in
  let s' := store w' in
  (forall k, In k (live_keys normalize type s')
             <-> In k (live_keys normalize type s) /\ k <> target)
  /\ ~ In target (live_keys normalize type s')
  /\ ~ empty_but_present
         (match type with d_mixing => languageStyleMixing s' | _ => None end)
  /\ (forall other, other <> type -> same_category other s s')
  /\ contentAnalysis s' = contentAnalysis s
  /\ stats s' = stats s
  /\ doc w' = doc w
  /\ trace w' = trace w
  /\ category_without_key normalize type target s s'.
Proof.
  intros target s w' s'.
  assert (Hkeys : forall k, In k (live_keys normalize type s')
                            <-> In k (live_keys normalize type s) /\ k <> target).
  { intros k. subst s s' w'. destruct type.
    - apply (keys_after_filter (fun c => normalize (Correction.wrong c))).
    - apply (keys_after_filter (fun t => normalize (ToneSuggestion.current t))).
    - apply (keys_after_filter (fun x => normalize (StyleSuggestion.current x))).
    - apply prune_mixing_keys with (prev := languageStyleMixing (store w));
        reflexivity.
    - apply (keys_after_filter (fun p => normalize (PunctuationIssue.currentSentence p))).
    - apply (keys_after_filter (fun e => normalize (EuphonyImprovement.current e))). }
  split; [exact Hkeys|].
  split.
  { intros Hin. apply Hkeys in Hin. destruct Hin as [_ Hne]. now apply Hne. }
  split.
  { destruct type; try (intros [m [Hm _]]; discriminate).
    subst s' w'. cbn. apply prune_mixing_not_empty. }
  split.
  { intros other Hother. subst s s' w'.
    destruct type, other; try congruence; reflexivity. }
  split; [subst s s' w'; destruct type; reflexivity|].
  split; [subst s s' w'; destruct type; reflexivity|].
  split; [subst s s' w'; destruct type; reflexivity|].
  split; [subst s s' w'; destruct type; reflexivity|].
  subst s s' w' target. destruct type; cbn [category_without_key].
  - apply (without_key_filter (fun c => normalize (Correction.wrong c))).
  - apply (without_key_filter (fun t => normalize (ToneSuggestion.current t))).
  - apply (without_key_filter (fun x => normalize (StyleSuggestion.current x))).
  - apply prune_mixing_without_key. reflexivity.
  - apply (without_key_filter (fun p => normalize (PunctuationIssue.currentSentence p))).
  - apply (without_key_filter (fun e => normalize (EuphonyImprovement.current e))).
Qed.

End StoreProperties.

(* ================================================================== *)
(** ** Stats *)
(* ================================================================== *)

Lemma truthy_rev (s : jsstring) : truthy (rev s) = truthy s.
Proof.
  destruct s as [|c s]; [reflexivity|]. simpl.
  destruct (rev s ++ [c]) eqn:E; [|reflexivity].
  apply app_eq_nil in E. destruct E as [_ E]. discriminate.
Qed.

(** The pieces of [split] that survive [filter(Boolean)] are the tokens:
    one for the piece being read, if it is not empty, and one for each later
    code unit that starts a token. *)
Lemma split_ws_from_tokens (s : jsstring) :
  forall in_ws cur,
    (in_ws = true -> cur = []) ->
    N.of_nat (List.length (filter_Boolean (split_ws_from in_ws cur s)))
    = if truthy cur then (1 + count_tokens_from false s)%N
      else count_tokens_from true s.
Proof.
  unfold filter_Boolean.
  induction s as [|c s IH]; intros in_ws cur Hinv;
    cbn [split_ws_from count_tokens_from].
  - cbn [filter]. rewrite truthy_rev. destruct (truthy cur); reflexivity.
  - destruct (isWhiteSpace c) eqn:Hc; cbn [negb andb].
    + destruct in_ws.
      * rewrite (Hinv eq_refl). rewrite IH by reflexivity. reflexivity.
      * cbn [filter]. rewrite truthy_rev.
        destruct (truthy cur) eqn:Hcur.
        -- cbn [List.length]. rewrite Nat2N.inj_succ, IH by reflexivity.
           cbn [truthy]. lia.
        -- rewrite IH by reflexivity. reflexivity.
    + rewrite IH by discriminate. cbn [truthy].
      destruct (truthy cur); lia.
Qed.

Lemma count_tokens_trimStart (s : jsstring) :
  count_tokens_from true (trimStart s) = count_tokens_from true s.
Proof.
  induction s as [|c s IH]; [reflexivity|].
  cbn [trimStart count_tokens_from].
  destruct (isWhiteSpace c) eqn:Hc; cbn [negb andb].
  - rewrite IH. reflexivity.
  - cbn [count_tokens_from]. rewrite Hc. reflexivity.
Qed.

Lemma trimStart_split (s : jsstring) :
  exists blanks, s = blanks ++ trimStart s /\ forallb isWhiteSpace blanks = true.
Proof.
  induction s as [|c s [blanks [Hs Hb]]].
  - exists []. split; reflexivity.
  - simpl. destruct (isWhiteSpace c) eqn:Hc.
    + exists (c :: blanks). simpl. rewrite Hc, Hb. split; [now f_equal | reflexivity].
    + exists []. split; reflexivity.
Qed.

Lemma count_tokens_blanks (blanks : jsstring) :
  forallb isWhiteSpace blanks = true ->
  forall b, count_tokens_from b blanks = 0%N.
Proof.
  induction blanks as [|c blanks IH]; intros Hb b; [reflexivity|].
  cbn [forallb] in Hb. apply andb_true_iff in Hb. destruct Hb as [Hc Hb].
  cbn [count_tokens_from]. rewrite Hc. cbn [negb andb]. now rewrite IH.
Qed.

Lemma count_tokens_app_blanks (s blanks : jsstring) :
  forallb isWhiteSpace blanks = true ->
  forall b, count_tokens_from b (s ++ blanks) = count_tokens_from b s.
Proof.
  intros Hb. induction s as [|c s IH]; intros b.
  - now apply count_tokens_blanks.
  - cbn [app count_tokens_from]. now rewrite IH.
Qed.

Lemma count_tokens_trimEnd (s : jsstring) (b : bool) :
  count_tokens_from b (trimEnd s) = count_tokens_from b s.
Proof.
  unfold trimEnd.
  destruct (trimStart_split (rev s)) as [blanks [Hs Hb]].
  assert (Hsplit : s = rev (trimStart (rev s)) ++ rev blanks).
  { rewrite <- rev_app_distr, <- Hs. symmetry. apply rev_involutive. }
  rewrite Hsplit at 2. symmetry. apply count_tokens_app_blanks.
  rewrite forallb_forall in *. intros x Hx. apply Hb. now apply in_rev.
Qed.

(** [totalWords] is the number of whitespace-delimited tokens of the text. *)
Lemma count_words_is_token_count (text : jsstring) :
  count_words text = count_tokens text.
Proof.
  unfold count_words, split_ws, count_tokens, trim.
  rewrite split_ws_from_tokens by discriminate. simpl.
  rewrite count_tokens_trimEnd. apply count_tokens_trimStart.
Qed.

(** What [performMainCheck] stores as stats: the token count of the text, the
    number of spelling suggestions, and [100] for a text without words. *)
Lemma stats_of_counts (text : jsstring) (spelling : list Correction.t) :
  Stats.totalWords (stats_of text spelling) = count_tokens text
  /\ Stats.errorCount (stats_of text spelling) = N.of_nat (List.length spelling)
  /\ (count_tokens text = 0%N ->
      Stats.accuracy (stats_of text spelling) = num 100).
Proof.
  unfold stats_of. simpl. rewrite count_words_is_token_count.
  repeat split. intros H0. unfold accuracy_of. rewrite H0. reflexivity.
Qed.

(** Ten words with three errors give 70, three words with one error 67. *)
Lemma accuracy_of_examples :
  accuracy_of 10 3 = num 70 /\ accuracy_of 3 1 = num 67 /\ accuracy_of 0 0 = num 100
  /\ spec_accuracy 10 3 = 70%Z /\ spec_accuracy 3 1 = 67%Z.
Proof. repeat split; vm_compute; reflexivity. Qed.

(** C5 (failing input). For a text of forty words of which the provider
    reports seventeen as misspelt, the check cycle stores
    [totalWords = 40], [errorCount = 17] and [accuracy = 57]: the quotient
    [23 / 40] is rounded to a double before it is multiplied by [100], the
    product is [57.49999999999999] and [Math.round] takes it down. The
    formula of the specification, [round(100 * 23 / 40) = round(57.5)],
    gives [58]. *)
Theorem stats_accuracy_rounds_tie_down :
  let w' := @checkSpelling Fake.host Example.provider17 Example.world40 in
  stats (store w') = Stats.mk 40 17 (num 57)
  /\ accuracy_of 40 17 = num 57
  /\ num_mul (num_div (num_sub (num 40) (num 17)) (num 40)) (num 100)
     = S754_finite false 8092405580431359 (-47)
  /\ num_mul (num 100) (num_sub (num 40) (num 17)) = num 2300
  /\ spec_accuracy 40 17 = 58%Z.
Proof. repeat split; vm_compute; reflexivity. Qed.

(* ================================================================== *)
(** ** The check cycle *)
(* ================================================================== *)

Section CycleProperties.

Unset Implicit Arguments.

Context {host : WordHost} {provider : Provider}.

(** Reading the text does not change the document. *)
Lemma getTextFromWord_keeps_doc (d : Doc) : snd (WordTs.getTextFromWord d) = d.
Proof.
  unfold WordTs.getTextFromWord, WordTs.try_catch, WordTs.Word_run,
    WordTs.read_text, WordTs.bind, WordTs.read, WordTs.ret.
  destruct (run_available d); [|reflexivity].
  destruct (selection_text d) as [selection|]; [|reflexivity].
  destruct (truthy selection && _); [reflexivity|].
  destruct (body_text d); reflexivity.
Qed.

(** A read that throws yields the empty string. *)
Lemma getTextFromWord_throws (d : Doc) :
  read_throws d -> WordTs.getTextFromWord d = ([], d).
Proof.
  unfold read_throws. intros Hthrow.
  pose proof (getTextFromWord_keeps_doc d) as Hdoc.
  unfold WordTs.getTextFromWord, WordTs.try_catch in *.
  destruct (WordTs.Word_run WordTs.read_text d) as [[t|] d'];
    simpl in *; [discriminate | now subst].
Qed.

Lemma getTextFromWord_reads_empty (d : Doc) :
  reads_empty d -> WordTs.getTextFromWord d = ([], d).
Proof.
  unfold reads_empty. intros Hempty.
  pose proof (getTextFromWord_keeps_doc d) as Hdoc.
  unfold WordTs.getTextFromWord, WordTs.try_catch in *.
  destruct (WordTs.Word_run WordTs.read_text d) as [[t|] d'];
    simpl in *; [|discriminate]. injection Hempty as ->. now subst.
Qed.

(** *** Timers only clear the message and highlight a hovered text *)

Lemma differ_by_timers_refl (w : World) : differ_by_timers w w.
Proof. repeat split. Qed.

Lemma differ_by_timers_trans (w1 w2 w3 : World) :
  differ_by_timers w1 w2 -> differ_by_timers w2 w3 -> differ_by_timers w1 w3.
Proof.
  unfold differ_by_timers.
  intros (A1 & A2 & A3 & A4 & A5 & A6 & A7 & A8) (B1 & B2 & B3 & B4 & B5 & B6 & B7 & B8).
  repeat split; congruence.
Qed.

Lemma calls_of_highlight (tr : list (N * Event)) (t : N) (text color : jsstring)
      (position : option Z) :
  provider_calls (tr ++ [(t, ev_highlightInWord text color position)]) = provider_calls tr
  /\ batch_highlight_calls (tr ++ [(t, ev_highlightInWord text color position)])
     = batch_highlight_calls tr
  /\ clear_calls (tr ++ [(t, ev_highlightInWord text color position)]) = clear_calls tr.
Proof.
  unfold provider_calls, batch_highlight_calls, clear_calls.
  rewrite !flat_map_app. simpl. rewrite !app_nil_r. repeat split.
Qed.

Lemma fire_differs_by_timers (w : World) (tm : Timer) : differ_by_timers w (fire w tm).
Proof.
  unfold fire, run_callback. destruct (callback tm) as [|text color position].
  - repeat split.
  - destruct (calls_of_highlight (trace w) (N.max (clock w) (due tm))
                                 text color position) as (H1 & H2 & H3).
    repeat split; assumption.
Qed.

Lemma fold_fire_differs_by_timers (q : list Timer) :
  forall w, differ_by_timers w (fold_left fire q w).
Proof.
  induction q as [|tm q IH]; intros w; simpl.
  - apply differ_by_timers_refl.
  - eapply differ_by_timers_trans; [apply fire_differs_by_timers | apply IH].
Qed.

Lemma advance_differs_by_timers (t : N) (w : World) :
  differ_by_timers w (advance t w) /\ clock (advance t w) = N.max (clock w) t.
Proof.
  unfold advance. split; [|reflexivity].
  eapply differ_by_timers_trans with (w2 := set_timers _ w).
  - repeat split.
  - eapply differ_by_timers_trans; [apply fold_fire_differs_by_timers|].
    repeat split.
Qed.

(** *** The branches in closed form *)

Lemma performMainCheck_closed (text : jsstring) (at_ : N) (w : World) :
  performMainCheck text at_ w
  = (main_value text (settings w),
     (at_ + latency (main_request text (settings w)))%N,
     with_store (main_update text (settings w))
       (set_trace (trace w ++ [(at_, ev_callGeminiJson (main_request text (settings w)))])
                  w)).
Proof.
  unfold performMainCheck, main_value, main_update, mixing_outcome.
  fold (main_request text (settings w)).
  destruct (callGeminiJson (main_request text (settings w))) as [res|] eqn:E;
    [|reflexivity].
  unfold spelling_outcome, punctuation_outcome, euphony_outcome, stats_outcome,
    spelling_outcome.
  rewrite E.
  destruct (Response.languageStyleMixing res) as [m|]; [|reflexivity].
  destruct (StyleMixing.corrections m); reflexivity.
Qed.

Lemma performToneCheck_closed (text : jsstring) (at_ : N) (w : World) :
  performToneCheck text at_ w
  = (tone_value text (settings w),
     (at_ + latency (tone_request text (settings w)))%N,
     with_store (tone_update text (settings w))
       (set_trace (trace w ++ [(at_, ev_callGeminiJson (tone_request text (settings w)))])
                  w)).
Proof.
  unfold performToneCheck, tone_value, tone_update.
  fold (tone_request text (settings w)).
  destruct (callGeminiJson (tone_request text (settings w))); reflexivity.
Qed.

Lemma performStyleCheck_closed (text : jsstring) (at_ : N) (w : World) :
  performStyleCheck text at_ w
  = (style_value text (settings w),
     (at_ + latency (style_request text (settings w)))%N,
     with_store (style_update text (settings w))
       (set_trace (trace w ++ [(at_, ev_callGeminiJson (style_request text (settings w)))])
                  w)).
Proof.
  unfold performStyleCheck, style_value, style_update.
  fold (style_request text (settings w)).
  destruct (callGeminiJson (style_request text (settings w))); reflexivity.
Qed.

Lemma analyzeContentLogic_closed (text : jsstring) (at_ : N) (w : World) :
  analyzeContentLogic text at_ w
  = (r_undefined,
     (at_ + latency (content_request text (settings w)))%N,
     with_store (content_update text (settings w))
       (set_trace (trace w ++ [(at_, ev_callGeminiJson (content_request text (settings w)))])
                  w)).
Proof.
  unfold analyzeContentLogic, content_update.
  fold (content_request text (settings w)).
  destruct (callGeminiJson (content_request text (settings w))); reflexivity.
Qed.

(** *** The joined tasks in closed form *)

(** The branches write to different cells: their updates commute, so the
    store after the join does not depend on the order in which the branches
    settle. *)
Lemma branch_updates_commute (text : jsstring) (s : Settings) (st : Store) :
  tone_update text s (main_update text s st) = main_update text s (tone_update text s st)
  /\ style_update text s (main_update text s st)
     = main_update text s (style_update text s st)
  /\ content_update text s (main_update text s st)
     = main_update text s (content_update text s st)
  /\ style_update text s (tone_update text s st)
     = tone_update text s (style_update text s st)
  /\ content_update text s (tone_update text s st)
     = tone_update text s (content_update text s st)
  /\ content_update text s (style_update text s st)
     = style_update text s (content_update text s st).
Proof.
  unfold main_update, tone_update, style_update, content_update.
  destruct (callGeminiJson (main_request text s));
    destruct (callGeminiJson (tone_request text s));
    destruct (callGeminiJson (style_request text s));
    destruct (callGeminiJson (content_request text s)); repeat split.
Qed.

Lemma cycle_store_from_empty (text : jsstring) (s : Settings) :
  content_update text s
    ((if style_selected s then style_update text s else fun st => st)
       ((if tone_selected s then tone_update text s else fun st => st)
          (main_update text s empty_store)))
  = cycle_store text s.
Proof.
  unfold cycle_store, content_update, style_update, tone_update, main_update,
    content_outcome, style_outcome, tone_outcome, mixing_outcome,
    punctuation_outcome, euphony_outcome, stats_outcome, spelling_outcome.
  destruct (callGeminiJson (main_request text s));
    destruct (tone_selected s); destruct (style_selected s);
    destruct (callGeminiJson (tone_request text s));
    destruct (callGeminiJson (style_request text s));
    destruct (callGeminiJson (content_request text s)); reflexivity.
Qed.

Lemma Promise_all_closed (text : jsstring) (w : World) :
  let s := settings w in
  let t0 := clock w in
  Promise_all t0 text (tasks_of s) w
  = ([main_value text s;
      if tone_selected s then tone_value text s else r_empty_array;
      if style_selected s then style_value text s else r_empty_array;
      r_undefined],
     N.max (main_settles t0 text s)
       (N.max (tone_settles t0 text s)
          (N.max (style_settles t0 text s)
             (N.max (content_settles t0 text s) t0))),
     with_store
       (fun st =>
          content_update text s
            ((if style_selected s then style_update text s else fun st => st)
               ((if tone_selected s then tone_update text s else fun st => st)
                  (main_update text s st))))
       (set_trace
          (trace w ++ map (fun c => (fst c, ev_callGeminiJson (snd c)))
                          (staggered_calls t0 text s))
          w)).
Proof.
  intros s t0. subst s t0.
  unfold tasks_of, staggered_calls, tone_settles, style_settles, main_settles,
    content_settles, tone_selected, style_selected.
  cbn [app Promise_all run_task run_branch].
  rewrite performMainCheck_closed.
  destruct (truthy (selectedTone (settings w)));
    destruct (selectedStyle (settings w));
    cbn [run_task run_branch];
    rewrite ?performToneCheck_closed, ?performStyleCheck_closed,
      ?analyzeContentLogic_closed;
    cbn [settings with_store set_trace trace map fst snd app];
    rewrite <- ?app_assoc; reflexivity.
Qed.

Lemma settled_is_all_settled (t0 : N) (text : jsstring) (s : Settings) :
  N.max t0
    (N.max (main_settles t0 text s)
       (N.max (tone_settles t0 text s)
          (N.max (style_settles t0 text s)
             (N.max (content_settles t0 text s) t0))))
  = all_settled t0 text s.
Proof.
  unfold all_settled, main_settles, tone_settles, style_settles, content_settles.
  destruct (tone_selected s); destruct (style_selected s); lia.
Qed.

Lemma results_of_values (text : jsstring) (s : Settings) :
  spelling_result (main_value text s) = spelling_outcome text s
  /\ tone_result (if tone_selected s then tone_value text s else r_empty_array)
     = tone_outcome text s
  /\ style_result (if style_selected s then style_value text s else r_empty_array)
     = style_outcome text s.
Proof.
  unfold main_value, tone_value, style_value, spelling_outcome, tone_outcome,
    style_outcome.
  destruct (callGeminiJson (main_request text s));
    destruct (tone_selected s); destruct (style_selected s);
    destruct (callGeminiJson (tone_request text s));
    destruct (callGeminiJson (style_request text s)); repeat split.
Qed.

(** *** The calls of each kind in a trace *)

Lemma calls_of_provider_calls (tr : list (N * Event)) (cs : list (N * Request)) :
  provider_calls (tr ++ map (fun c => (fst c, ev_callGeminiJson (snd c))) cs)
  = provider_calls tr ++ cs
  /\ batch_highlight_calls (tr ++ map (fun c => (fst c, ev_callGeminiJson (snd c))) cs)
     = batch_highlight_calls tr
  /\ clear_calls (tr ++ map (fun c => (fst c, ev_callGeminiJson (snd c))) cs)
     = clear_calls tr.
Proof.
  unfold provider_calls, batch_highlight_calls, clear_calls.
  rewrite !flat_map_app.
  induction cs as [|[t req] cs (IH1 & IH2 & IH3)]; simpl.
  - rewrite !app_nil_r. repeat split.
  - apply app_inv_head in IH1.
    rewrite <- (app_nil_r (flat_map _ tr)) in IH2 at 2. apply app_inv_head in IH2.
    rewrite <- (app_nil_r (flat_map _ tr)) in IH3 at 2. apply app_inv_head in IH3.
    rewrite IH1, IH2, IH3, !app_nil_r. repeat split.
Qed.

Lemma calls_of_event (tr : list (N * Event)) (t : N) (e : Event) :
  provider_calls (tr ++ [(t, e)])
  = provider_calls tr ++ match e with ev_callGeminiJson req => [(t, req)] | _ => [] end
  /\ batch_highlight_calls (tr ++ [(t, e)])
     = batch_highlight_calls tr
       ++ match e with ev_highlightMultipleInWord items => [(t, items)] | _ => [] end
  /\ clear_calls (tr ++ [(t, e)])
     = clear_calls tr ++ match e with ev_clearHighlights => [t] | _ => [] end.
Proof.
  unfold provider_calls, batch_highlight_calls, clear_calls.
  rewrite !flat_map_app. simpl. rewrite !app_nil_r. repeat split.
Qed.

(** *** The cycle as a whole *)

Lemma run_cycle_spec (text : jsstring) (w : World) :
  store w = empty_store ->
  let s := settings w in
  let t0 := clock w in
  let w' := run_cycle text w in
  settings w' = s
  /\ store w' = cycle_store text s
  /\ provider_calls (trace w') = provider_calls (trace w) ++ staggered_calls t0 text s
  /\ batch_highlight_calls (trace w')
     = batch_highlight_calls (trace w)
       ++ batch_of (all_settled t0 text s) (cycle_items text s)
  /\ clear_calls (trace w') = clear_calls (trace w)
  /\ isLoading (ui w') = isLoading (ui w)
  /\ clock w' = all_settled t0 text s.
Proof.
  intros Hstore s t0 w'. subst w'. unfold run_cycle.
  rewrite Promise_all_closed. fold s t0.
  set (settled := N.max (main_settles t0 text s) _).
  set (w5 := with_store _ _).
  destruct (advance_differs_by_timers settled w5)
    as ((A1 & A2 & A3 & A4 & A5 & A6 & A7 & A8) & Hclock).
  set (w6 := advance settled w5) in *.
  assert (Hw5 : settings w5 = s /\ store w5 = cycle_store text s
                /\ trace w5 = trace w ++ map (fun c => (fst c, ev_callGeminiJson (snd c)))
                                             (staggered_calls t0 text s)
                /\ isLoading (ui w5) = isLoading (ui w) /\ clock w5 = t0).
  { subst w5. cbn [settings store with_store set_trace trace ui clock].
    rewrite Hstore, cycle_store_from_empty. repeat split. }
  destruct Hw5 as (B1 & B2 & B3 & B4 & B5).
  rewrite B5 in Hclock. unfold settled in Hclock.
  rewrite settled_is_all_settled in Hclock. fold settled in Hclock.
  destruct (calls_of_provider_calls (trace w) (staggered_calls t0 text s))
    as (C1 & C2 & C3).
  rewrite B3 in A6, A7, A8. rewrite C1 in A6. rewrite C2 in A7. rewrite C3 in A8.
  cbn [nth].
  destruct (results_of_values text s) as (R1 & R2 & R3).
  rewrite R1, R2, R3. fold (cycle_items text s).
  destruct (cycle_items text s) as [|item items] eqn:Hitems.
  - cbn [List.length N.of_nat N.ltb N.compare]. cbn [batch_of]. rewrite app_nil_r.
    cbn [setLoadingText with_ui settings store trace ui clock isLoading].
    repeat split; congruence.
  - replace (0 <? N.of_nat (List.length (item :: items)))%N with true
      by (symmetry; apply length_pos_iff; discriminate).
    unfold call_highlightMultipleInWord, log.
    cbn [setLoadingText with_ui set_doc set_trace settings store trace ui clock isLoading batch_of].
    destruct (calls_of_event (trace w6) (clock w6)
                (ev_highlightMultipleInWord (item :: items))) as (D1 & D2 & D3).
    rewrite D1, D2, D3, !app_nil_r.
    repeat split; congruence.
Qed.
Lemma trim_length_zero (s : jsstring) :
  (N.of_nat (List.length (trim s)) =? 0)%N = true <-> trim s = [].
Proof.
  destruct (trim s); simpl; split; intros; try reflexivity; try discriminate.
Qed.

(** The test [!text || text.trim().length === 0] *)
Lemma blank_test (text : jsstring) :
  negb (truthy text) || (N.of_nat (List.length (trim text)) =? 0)%N = true
  <-> trim text = [].
Proof.
  rewrite orb_true_iff, trim_length_zero. split; [|now right].
  intros [H|H]; [|exact H]. destruct text; [reflexivity | discriminate].
Qed.

(** [checkSpelling] when it runs a cycle. *)
Lemma checkSpelling_runs (w : World) :
  cycle_runs w ->
  checkSpelling w
  = setLoadingText loading_empty
      (setIsLoading false
         (run_cycle (fetched_text w)
            (call_clearHighlights
               (reset (setLoadingText loading_analysing
                         (setIsLoading true (log ev_getTextFromWord w))))))).
Proof.
  intros [Hkey Htext]. unfold checkSpelling, call_getTextFromWord, fetched_text in *.
  rewrite Hkey. cbn [negb].
  pose proof (getTextFromWord_keeps_doc (doc w)) as Hdoc.
  destruct (WordTs.getTextFromWord (doc w)) as [text d]. cbn [fst snd] in *. subst d.
  destruct (negb (truthy text) || _) eqn:Hblank.
  - apply blank_test in Hblank. contradiction.
  - reflexivity.
Qed.

Lemma checkSpelling_cycle (w : World) :
  cycle_runs w ->
  let s := settings w in
  let t0 := clock w in
  let text := fetched_text w in
  let w' := checkSpelling w in
  settings w' = s
  /\ store w' = cycle_store text s
  /\ provider_calls (trace w') = provider_calls (trace w) ++ staggered_calls t0 text s
  /\ batch_highlight_calls (trace w')
     = batch_highlight_calls (trace w)
       ++ batch_of (all_settled t0 text s) (cycle_items text s)
  /\ clear_calls (trace w') = clear_calls (trace w) ++ [t0]
  /\ isLoading (ui w') = false
  /\ clock w' = all_settled t0 text s.
Proof.
  intros Hruns s t0 text w'. subst w'. rewrite (checkSpelling_runs w Hruns).
  fold text.
  set (w0 := call_clearHighlights _).
  destruct (run_cycle_spec text w0 eq_refl) as (A1 & A2 & A3 & A4 & A5 & A6 & A7).
  assert (Hw0 : settings w0 = s /\ clock w0 = t0
                /\ trace w0 = (trace w ++ [(t0, ev_getTextFromWord)])
                                ++ [(t0, ev_clearHighlights)]).
  { repeat split. }
  destruct Hw0 as (B1 & B2 & B3).
  rewrite B1, B2 in *. rewrite B3 in A3, A4, A5.
  destruct (calls_of_event (trace w ++ [(t0, ev_getTextFromWord)]) t0 ev_clearHighlights)
    as (C1 & C2 & C3).
  destruct (calls_of_event (trace w) t0 ev_getTextFromWord) as (D1 & D2 & D3).
  rewrite C1, D1 in A3. rewrite C2, D2 in A4. rewrite C3, D3 in A5.
  rewrite !app_nil_r in *.
  cbn [setLoadingText setIsLoading with_ui settings store trace ui clock isLoading].
  repeat split; assumption.
Qed.

(** [checkSpelling] when it refuses. *)
Lemma checkSpelling_no_credential (w : World) :
  credential_missing w ->
  checkSpelling w
  = setActiveModal modal_settings (showMessage msg_need_api_key MessageType.error w).
Proof.
  unfold credential_missing, checkSpelling. intros ->. reflexivity.
Qed.

Lemma checkSpelling_blank (w : World) :
  truthy (apiKey (settings w)) = true ->
  document_blank w ->
  checkSpelling w
  = showMessage msg_select_text MessageType.error (log ev_getTextFromWord w).
Proof.
  unfold document_blank, checkSpelling, call_getTextFromWord, fetched_text.
  intros -> Hblank. cbn [negb].
  pose proof (getTextFromWord_keeps_doc (doc w)) as Hdoc.
  destruct (WordTs.getTextFromWord (doc w)) as [text d]. cbn [fst snd] in *. subst d.
  apply blank_test in Hblank. rewrite Hblank. reflexivity.
Qed.
End CycleProperties.

(* ================================================================== *)
(** ** The check cycle: refusal, staggering, isolation, batch highlight *)
(* ================================================================== *)

Section CycleTheorems.

Unset Implicit Arguments.

Context {host : WordHost}.

(** C6. A cycle that runs creates exactly four tasks: the main check called
    at once, the tone check behind a 200 ms timeout if a tone is selected and
    a promise already resolved to the empty list otherwise, the style check
    behind a 400 ms timeout if a style other than "none" is selected and an
    already resolved promise otherwise, the content analysis behind a 600 ms
    timeout always. The provider calls of the cycle are the staggered ones:
    the main call at the time the tasks are created, no tone (style) call
    without a selected tone (style), and otherwise none before 200 ms
    (400 ms), and the content call not before 600 ms. *)
Theorem checkSpelling_staggers_four_branches (p : Provider) (w : World) :
  cycle_runs w ->
  let s := settings w in
  let t0 := clock w in
  let text := fetched_text w in
  let calls := staggered_calls t0 text s in
  List.length (tasks_of s) = 4
  /\ nth_error (tasks_of s) 0 = Some (call_now MainCheck)
  /\ nth_error (tasks_of s) 1
     = Some (if tone_selected s then after_timeout 200 ToneCheck else resolved_empty)
  /\ nth_error (tasks_of s) 2
     = Some (if style_selected s then after_timeout 400 StyleCheck else resolved_empty)
  /\ nth_error (tasks_of s) 3 = Some (after_timeout 600 ContentAnalysisLogic)
  /\ (forall w0, @run_task host p t0 text resolved_empty w0 = (r_empty_array, t0, w0))
  /\ provider_calls (trace (@checkSpelling host p w)) = provider_calls (trace w) ++ calls
  /\ (forall t req,
         In (t, req) calls ->
         match branch_of req with
         | MainCheck => t = t0
         | ToneCheck => tone_selected s = true /\ (t0 + 200 <= t)%N
         | StyleCheck => style_selected s = true /\ (t0 + 400 <= t)%N
         | ContentAnalysisLogic => (t0 + 600 <= t)%N
         end)
  /\ In ((t0 + 600)%N, content_request text s) calls.
Proof.
  intros Hruns s t0 text calls.
  destruct (@checkSpelling_cycle host p w Hruns) as (_ & _ & Hcalls & _).
  fold s t0 text calls in Hcalls.
  assert (Htasks : tasks_of s
                   = [call_now MainCheck;
                      if tone_selected s then after_timeout 200 ToneCheck else resolved_empty;
                      if style_selected s then after_timeout 400 StyleCheck else resolved_empty;
                      after_timeout 600 ContentAnalysisLogic]).
  { unfold tasks_of, tone_selected, style_selected.
    destruct (selectedStyle s); reflexivity. }
  rewrite Htasks.
  split; [reflexivity|]. split; [reflexivity|]. split; [reflexivity|].
  split; [reflexivity|]. split; [reflexivity|]. split; [reflexivity|].
  split; [exact Hcalls|].
  subst calls. unfold staggered_calls. split.
  - intros t req Hin.
    destruct (tone_selected s); destruct (style_selected s);
      cbn [app In] in Hin;
      repeat (destruct Hin as [Hin|Hin];
              [injection Hin as <- <-; cbn; try split; try reflexivity; lia|]);
      contradiction.
  - apply in_or_app. right. apply in_or_app. right. apply in_or_app. right.
    now left.
Qed.

(** C7 (as amended). At the end of a cycle that runs, the batched highlight
    is called at most once: exactly once when the spelling, tone and style
    results are not all empty, and not at all when they are. Its items are,
    in order, the [wrong] texts of the spelling results with colour
    [#fee2e2], the [current] texts of the tone results with [#fef3c7] and the
    [current] texts of the style results with [#ccfbf1]; punctuation, euphony
    and style-mixing suggestions contribute no item. *)
Theorem checkSpelling_batch_highlight (p : Provider) (w : World) :
  cycle_runs w ->
  let w' := @checkSpelling host p w in
  let st' := store w' in
  let items :=
    map (fun c => WordTs.mkItem (Correction.wrong c) (js "#fee2e2")
                                (Correction.position c)) (corrections st')
    ++ map (fun t => WordTs.mkItem (ToneSuggestion.current t) (js "#fef3c7")
                                   (ToneSuggestion.position t)) (toneSuggestions st')
    ++ map (fun x => WordTs.mkItem (StyleSuggestion.current x) (js "#ccfbf1")
                                   (StyleSuggestion.position x)) (styleSuggestions st') in
  batch_highlight_calls (trace w')
  = batch_highlight_calls (trace w) ++ batch_of (clock w') items
  /\ (items <> [] ->
      batch_highlight_calls (trace w')
      = batch_highlight_calls (trace w) ++ [(clock w', items)])
  /\ (items = [] ->
      batch_highlight_calls (trace w') = batch_highlight_calls (trace w))
  /\ List.length items
     = (List.length (corrections st') + List.length (toneSuggestions st')
        + List.length (styleSuggestions st'))%nat.
Proof.
  intros Hruns w' st' items.
  destruct (@checkSpelling_cycle host p w Hruns)
    as (_ & Hstore & _ & Hbatch & _ & _ & Hclock).
  fold w' in Hstore, Hbatch, Hclock.
  assert (Hitems : items = @cycle_items p (fetched_text w) (settings w)).
  { subst items st'. rewrite Hstore. reflexivity. }
  rewrite <- Hitems, <- Hclock in Hbatch.
  split; [exact Hbatch|]. split; [|split].
  - intros Hne. rewrite Hbatch. destruct items; [contradiction | reflexivity].
  - intros Hnil. rewrite Hbatch, Hnil. apply app_nil_r.
  - subst items. rewrite !length_app, !length_map. lia.
Qed.

(** C8. [checkSpelling] refuses when the API key is missing and when the
    text read from the document is empty after trimming. In both cases the
    store, the document and its highlights are untouched and no provider
    call is made; without a key the document is not accessed at all (the
    trace does not grow), with a key and a blank document the only call is
    the read of the text. *)
Theorem checkSpelling_refuses (p : Provider) (w : World) :
  credential_missing w \/ document_blank w ->
  let w' := @checkSpelling host p w in
  store w' = store w
  /\ doc w' = doc w
  /\ provider_calls (trace w') = provider_calls (trace w)
  /\ clear_calls (trace w') = clear_calls (trace w)
  /\ batch_highlight_calls (trace w') = batch_highlight_calls (trace w)
  /\ isLoading (ui w') = isLoading (ui w)
  /\ (credential_missing w ->
      trace w' = trace w
      /\ message (ui w') = Some (msg_need_api_key, MessageType.error)
      /\ activeModal (ui w') = modal_settings)
  /\ (~ credential_missing w ->
      trace w' = trace w ++ [(clock w, ev_getTextFromWord)]
      /\ message (ui w') = Some (msg_select_text, MessageType.error)).
Proof.
  intros Hrefuse w'. subst w'.
  destruct (truthy (apiKey (settings w))) eqn:Hkey.
  - destruct Hrefuse as [Hmissing|Hblank];
      [unfold credential_missing in Hmissing; congruence|].
    rewrite (@checkSpelling_blank host p w Hkey Hblank).
    destruct (calls_of_event (trace w) (clock w) ev_getTextFromWord) as (C1 & C2 & C3).
    cbn [showMessage setTimeout setMessage with_ui set_timers set_next_handle snd
         log set_trace store doc trace ui isLoading message].
    rewrite C1, C2, C3, !app_nil_r.
    split; [reflexivity|]. split; [reflexivity|]. split; [reflexivity|].
    split; [reflexivity|]. split; [reflexivity|]. split; [reflexivity|].
    split.
    + intros Hmissing. unfold credential_missing in Hmissing. congruence.
    + intros _. split; reflexivity.
  - rewrite (@checkSpelling_no_credential host p w Hkey).
    split; [reflexivity|]. split; [reflexivity|]. split; [reflexivity|].
    split; [reflexivity|]. split; [reflexivity|]. split; [reflexivity|].
    split.
    + intros _. repeat split.
    + intros Hpresent. contradiction.
Qed.

(** C10. When the read of the document throws, [getTextFromWord] returns the
    empty string and [checkSpelling] (with a key) refuses exactly as for a
    blank document: it shows the select-text message, leaves the store as it
    was and calls no provider; what can be observed afterwards is the same as
    for a document that is read and is empty. *)
Theorem read_failure_is_an_empty_document (p : Provider) (w : World) :
  truthy (apiKey (settings w)) = true ->
  read_throws (doc w) ->
  let w' := @checkSpelling host p w in
  WordTs.getTextFromWord (doc w) = ([], doc w)
  /\ w' = showMessage msg_select_text MessageType.error (log ev_getTextFromWord w)
  /\ message (ui w') = Some (msg_select_text, MessageType.error)
  /\ store w' = store w
  /\ provider_calls (trace w') = provider_calls (trace w)
  /\ (forall d0, reads_empty d0 ->
        observable (@checkSpelling host p (set_doc d0 w)) = observable w').
Proof.
  intros Hkey Hthrow w'.
  pose proof (getTextFromWord_throws (doc w) Hthrow) as Hread.
  assert (Hblank : document_blank w).
  { unfold document_blank, fetched_text. rewrite Hread. reflexivity. }
  assert (Hw' : w' = showMessage msg_select_text MessageType.error
                                 (log ev_getTextFromWord w)).
  { subst w'. apply (@checkSpelling_blank host p w Hkey Hblank). }
  split; [exact Hread|]. split; [exact Hw'|]. rewrite Hw'.
  destruct (calls_of_event (trace w) (clock w) ev_getTextFromWord) as (C1 & _).
  split; [reflexivity|]. split; [reflexivity|]. split.
  - cbn [showMessage setTimeout setMessage with_ui set_timers set_next_handle snd
         log set_trace trace].
    rewrite C1. apply app_nil_r.
  - intros d0 Hempty.
    assert (Hblank0 : document_blank (set_doc d0 w)).
    { unfold document_blank, fetched_text. cbn [set_doc doc].
      rewrite (getTextFromWord_reads_empty d0 Hempty). reflexivity. }
    rewrite (@checkSpelling_blank host p (set_doc d0 w) Hkey Hblank0).
    reflexivity.
Qed.

(** The store at the end of a cycle in which one branch fails. *)
Lemma cycle_store_fails_on (p : Provider) (b : Branch) (text : jsstring) (s : Settings) :
  branch_cells b (@cycle_store (fails_on b p) text s) = branch_cells b empty_store
  /\ forall b', b' <> b ->
       branch_cells b' (@cycle_store (fails_on b p) text s)
       = branch_cells b' (@cycle_store p text s).
Proof.
  split.
  - destruct b; unfold cycle_store, branch_cells, tone_outcome, style_outcome;
      cbn [corrections toneSuggestions styleSuggestions languageStyleMixing
           punctuationIssues euphonyImprovements contentAnalysis stats empty_store].
    + reflexivity.
    + destruct (tone_selected s); reflexivity.
    + destruct (style_selected s); reflexivity.
    + reflexivity.
  - intros b' Hne. destruct b, b'; try congruence; reflexivity.
Qed.

Lemma branch_settles_fails_on (p : Provider) (b b' : Branch) (t0 : N)
      (text : jsstring) (s : Settings) :
  @branch_settles (fails_on b p) b' t0 text s = @branch_settles p b' t0 text s.
Proof. destruct b'; reflexivity. Qed.

Lemma branch_settles_le_all (p : Provider) (b : Branch) (t0 : N)
      (text : jsstring) (s : Settings) :
  (@branch_settles p b t0 text s <= @all_settled p t0 text s)%N.
Proof. unfold all_settled. destruct b; cbn [branch_settles]; lia. Qed.

(** C4 (as amended). In a cycle that runs, let one branch fail (its provider
    call answers [null], as for a provider error or an unparseable
    response). Then the cells of the store owned by that branch are empty,
    the cells owned by each other branch hold what they hold when the branch
    does not fail, the same provider calls are issued, the cycle completes
    (the loading flag is cleared), and the batched highlight step is reached
    once all four branches have settled: it issues one call with the items
    of the surviving spelling, tone and style results when there is at least
    one item, and no call when there is none. *)
Theorem checkSpelling_isolates_branch_failure
        (p : Provider) (b : Branch) (w : World) :
  cycle_runs w ->
  let s := settings w in
  let t0 := clock w in
  let text := fetched_text w in
  let w1 := @checkSpelling host p w in
  let w2 := @checkSpelling host (fails_on b p) w in
  let items2 :=
    highlightItems_of (corrections (store w2)) (toneSuggestions (store w2))
                      (styleSuggestions (store w2)) in
  branch_cells b (store w2) = branch_cells b empty_store
  /\ (forall b', b' <> b -> branch_cells b' (store w2) = branch_cells b' (store w1))
  /\ provider_calls (trace w2) = provider_calls (trace w1)
  /\ isLoading (ui w2) = false
  /\ batch_highlight_calls (trace w2)
     = batch_highlight_calls (trace w) ++ batch_of (clock w2) items2
  /\ (forall b', (@branch_settles p b' t0 text s <= clock w2)%N).
Proof.
  intros Hruns s t0 text w1 w2 items2.
  destruct (@checkSpelling_cycle host p w Hruns)
    as (_ & Hstore1 & Hcalls1 & _).
  destruct (@checkSpelling_cycle host (fails_on b p) w Hruns)
    as (_ & Hstore2 & Hcalls2 & Hbatch2 & _ & Hloading2 & Hclock2).
  fold s t0 text w1 in Hstore1, Hcalls1.
  fold s t0 text w2 in Hstore2, Hcalls2, Hbatch2, Hloading2, Hclock2.
  destruct (cycle_store_fails_on p b text s) as [Hown Hothers].
  split; [rewrite Hstore2; exact Hown|].
  split; [intros b' Hne; rewrite Hstore1, Hstore2; now apply Hothers|].
  split; [now rewrite Hcalls1, Hcalls2|].
  split; [exact Hloading2|].
  split.
  - assert (Hitems : items2 = @cycle_items (fails_on b p) text s).
    { subst items2. rewrite Hstore2. reflexivity. }
    rewrite Hitems, Hclock2. exact Hbatch2.
  - intros b'. rewrite Hclock2, <- (branch_settles_fails_on p b b' t0 text s).
    apply branch_settles_le_all.
Qed.

End CycleTheorems.

(* ================================================================== *)
(** ** The hover debouncer *)
(* ================================================================== *)

Section DebounceProperties.

Unset Implicit Arguments.

Context {host : WordHost}.

Lemma pending_highlights_scheduled (w : World) :
  pending_highlights w = flat_map scheduled (timers w).
Proof. reflexivity. Qed.

Lemma in_enqueue (tm x : Timer) (q : list Timer) :
  In x (enqueue tm q) <-> x = tm \/ In x q.
Proof.
  induction q as [|y q IH]; cbn [enqueue].
  - cbn [In]. intuition congruence.
  - destruct (due y <=? due tm)%N; cbn [In]; rewrite ?IH; intuition congruence.
Qed.

Lemma scheduled_enqueue (tm : Timer) (q : list Timer) :
  flat_map scheduled q = [] ->
  flat_map scheduled (enqueue tm q) = scheduled tm.
Proof.
  induction q as [|y q IH]; cbn [enqueue flat_map]; intros Hnone.
  - apply app_nil_r.
  - apply app_eq_nil in Hnone. destruct Hnone as [Hy Hq].
    destruct (due y <=? due tm)%N; cbn [flat_map].
    + rewrite Hy, (IH Hq). reflexivity.
    + rewrite Hy, Hq. apply app_nil_r.
Qed.

Lemma scheduled_none (q : list Timer) :
  (forall tm, In tm q -> scheduled tm = []) -> flat_map scheduled q = [].
Proof.
  induction q as [|y q IH]; intros Hall; [reflexivity|]. cbn [flat_map].
  rewrite (Hall y (or_introl eq_refl)). apply IH.
  intros tm Hin. apply Hall. now right.
Qed.

Lemma filter_scheduled (t : N) (y : Timer) :
  filter (fun x => (fst x <=? t)%N) (scheduled y)
  = (if (due y <=? t)%N then scheduled y else [])
  /\ filter (fun x => negb (fst x <=? t)%N) (scheduled y)
     = (if (due y <=? t)%N then [] else scheduled y).
Proof.
  unfold scheduled. destruct (callback y); cbn [filter fst];
    destruct (due y <=? t)%N; split; reflexivity.
Qed.

Lemma scheduled_filter_due (t : N) (q : list Timer) :
  flat_map scheduled (filter (fun tm => (due tm <=? t)%N) q)
  = filter (fun x => (fst x <=? t)%N) (flat_map scheduled q)
  /\ flat_map scheduled (filter (fun tm => negb (due tm <=? t)%N) q)
     = filter (fun x => negb (fst x <=? t)%N) (flat_map scheduled q).
Proof.
  induction q as [|y q [IH1 IH2]]; [split; reflexivity|].
  destruct (filter_scheduled t y) as [F1 F2].
  cbn [filter flat_map]. rewrite !filter_app, F1, F2, <- IH1, <- IH2.
  destruct (due y <=? t)%N; cbn [negb flat_map app]; split; reflexivity.
Qed.

(** *** One hover *)

Lemma handleHighlight_reschedules (text color : jsstring) (position : option Z)
      (w : World) :
  debouncer_ok w ->
  let w' := handleHighlight text color position w in
  pending_highlights w'
  = [((clock w + 300)%N, ev_highlightInWord text color position)]
  /\ debouncer_ok w'
  /\ trace w' = trace w
  /\ clock w' = clock w.
Proof.
  intros [Hpos Href] w'.
  set (w1 := match highlightTimeoutRef w with
             | Some h => if (h =? 0)%N then w else clearTimeout h w
             | None => w
             end).
  assert (Hw1 : (forall tm, In tm (timers w1) -> scheduled tm = [])
                /\ clock w1 = clock w /\ trace w1 = trace w
                /\ next_handle w1 = next_handle w).
  { subst w1. destruct (highlightTimeoutRef w) as [h|] eqn:Hr.
    - destruct (h =? 0)%N eqn:Hh.
      + repeat split. intros tm Hin. unfold scheduled.
        destruct (callback tm) as [|t c p] eqn:Hcb; [reflexivity|].
        destruct (Href tm t c p Hin Hcb) as [Heq Hne].
        apply N.eqb_eq in Hh. congruence.
      + repeat split. intros tm Hin. unfold scheduled.
        destruct (callback tm) as [|t c p] eqn:Hcb; [reflexivity|].
        cbn [clearTimeout set_timers timers] in Hin.
        apply filter_In in Hin. destruct Hin as [Hin Hkeep].
        destruct (Href tm t c p Hin Hcb) as [Heq _].
        injection Heq as ->. rewrite N.eqb_refl in Hkeep. discriminate.
    - repeat split. intros tm Hin. unfold scheduled.
      destruct (callback tm) as [|t c p] eqn:Hcb; [reflexivity|].
      destruct (Href tm t c p Hin Hcb) as [Heq _]. discriminate. }
  destruct Hw1 as (Hnone & Hclock & Htrace & Hnext).
  assert (Hw' : w' = set_ref (Some (next_handle w1))
                       (snd (setTimeout (cb_highlight text color position) 300 w1))).
  { reflexivity. }
  rewrite Hw'. clear Hw'. rewrite pending_highlights_scheduled.
  cbn [setTimeout snd set_ref set_next_handle set_timers timers trace clock
       next_handle highlightTimeoutRef].
  rewrite scheduled_enqueue by (apply scheduled_none; exact Hnone).
  cbn [scheduled callback due]. rewrite Hclock.
  split; [reflexivity|]. split; [|split; [exact Htrace | reflexivity]].
  split; simpl; [lia|].
  intros tm t c p Hin Hcb. apply in_enqueue in Hin. destruct Hin as [->|Hin].
  - simpl. split; [reflexivity | lia].
  - specialize (Hnone tm Hin). unfold scheduled in Hnone. rewrite Hcb in Hnone.
    discriminate.
Qed.

(** *** Time passing *)

Lemma highlight_calls_app (tr1 tr2 : list (N * Event)) :
  highlight_calls (tr1 ++ tr2) = highlight_calls tr1 ++ highlight_calls tr2.
Proof. apply filter_app. Qed.

Lemma fire_highlights (w : World) (tm : Timer) :
  map snd (highlight_calls (trace (fire w tm)))
  = map snd (highlight_calls (trace w)) ++ map snd (scheduled tm)
  /\ timers (fire w tm) = timers w
  /\ highlightTimeoutRef (fire w tm) = highlightTimeoutRef w
  /\ next_handle (fire w tm) = next_handle w.
Proof.
  unfold fire, run_callback, scheduled.
  destruct (callback tm) as [|text color position].
  - cbn [map]. rewrite app_nil_r. repeat split.
  - unfold call_highlightInWord, log.
    cbn [set_doc set_trace set_clock trace timers highlightTimeoutRef next_handle clock].
    rewrite highlight_calls_app, map_app. repeat split.
Qed.

Lemma fold_fire_highlights (q : list Timer) :
  forall w,
    map snd (highlight_calls (trace (fold_left fire q w)))
    = map snd (highlight_calls (trace w)) ++ map snd (flat_map scheduled q)
    /\ timers (fold_left fire q w) = timers w
    /\ highlightTimeoutRef (fold_left fire q w) = highlightTimeoutRef w
    /\ next_handle (fold_left fire q w) = next_handle w.
Proof.
  induction q as [|tm q IH]; intros w; cbn [fold_left flat_map].
  - cbn [map]. rewrite app_nil_r. repeat split.
  - destruct (IH (fire w tm)) as (I1 & I2 & I3 & I4).
    destruct (fire_highlights w tm) as (F1 & F2 & F3 & F4).
    rewrite I1, I2, I3, I4, F1, F2, F3, F4, map_app, app_assoc. repeat split.
Qed.

Lemma advance_highlights (t : N) (w : World) :
  let w' := advance t w in
  map snd (highlight_calls (trace w'))
  = map snd (highlight_calls (trace w)) ++ fired_by t (pending_highlights w)
  /\ pending_highlights w'
     = filter (fun x => negb (fst x <=? t)%N) (pending_highlights w)
  /\ clock w' = N.max (clock w) t
  /\ (debouncer_ok w -> debouncer_ok w').
Proof.
  intros w'. subst w'. unfold advance.
  set (due_now := filter (fun tm => (due tm <=? t)%N) (timers w)).
  set (later := filter (fun tm => negb (due tm <=? t)%N) (timers w)).
  destruct (fold_fire_highlights due_now (set_timers later w)) as (F1 & F2 & F3 & F4).
  destruct (scheduled_filter_due t (timers w)) as [S1 S2].
  fold due_now in S1. fold later in S2.
  rewrite !pending_highlights_scheduled. unfold fired_by.
  cbn [set_clock trace timers clock].
  rewrite F1, F2, S1. cbn [set_timers trace timers]. rewrite S2.
  split; [reflexivity|]. split; [reflexivity|]. split; [reflexivity|].
  intros [Hpos Href]. split.
  - cbn [set_clock next_handle]. rewrite F4. exact Hpos.
  - intros tm text color position Hin Hcb.
    cbn [set_clock timers highlightTimeoutRef] in *. rewrite F2 in Hin. rewrite F3.
    cbn [set_timers timers highlightTimeoutRef] in *.
    subst later. apply filter_In in Hin. destruct Hin as [Hin _].
    exact (Href tm text color position Hin Hcb).
Qed.

(** *** A sequence of hovers *)

Lemma hovers_then_quiet_from (hs : list Hover) (quiet : N) :
  forall w,
    debouncer_ok w ->
    map snd (highlight_calls (trace (hovers_then_quiet hs quiet w)))
    = map snd (highlight_calls (trace w))
      ++ expected_from (clock w) (pending_highlights w) hs quiet.
Proof.
  unfold hovers_then_quiet.
  induction hs as [|h hs IH]; intros w Hok; cbn [hovers expected_from].
  - destruct (advance_highlights (clock w + quiet) w) as (A1 & _). exact A1.
  - destruct (advance_highlights (clock w + after h) w) as (A1 & A2 & A3 & A4).
    set (w1 := advance (clock w + after h) w) in *.
    destruct (handleHighlight_reschedules (on_text h) (on_color h) (on_position h)
                                          w1 (A4 Hok)) as (H1 & H2 & H3 & H4).
    set (w2 := handleHighlight (on_text h) (on_color h) (on_position h) w1) in *.
    rewrite (IH w2 H2), H1, H3, H4, A1, A3.
    replace (N.max (clock w) (clock w + after h)) with (clock w + after h)%N by lia.
    rewrite <- app_assoc. reflexivity.
Qed.

Lemma expected_from_one (hs : list Hover) (quiet : N) :
  forall t e,
    expected_from t [((t + 300)%N, e)] hs quiet
    = (if (300 <=? gap_after hs quiet)%N then [e] else [])
      ++ expected_highlights hs quiet.
Proof.
  induction hs as [|h hs IH]; intros t e; cbn [expected_from expected_highlights gap_after].
  - unfold fired_by. cbn [filter fst].
    destruct (300 <=? quiet)%N eqn:Hq.
    + replace (t + 300 <=? t + quiet)%N with true
        by (symmetry; apply N.leb_le; apply N.leb_le in Hq; lia).
      reflexivity.
    + replace (t + 300 <=? t + quiet)%N with false
        by (symmetry; apply N.leb_gt; apply N.leb_gt in Hq; lia).
      reflexivity.
  - rewrite (IH (t + after h)%N (hover_event h)).
    unfold fired_by. cbn [filter fst].
    destruct (300 <=? after h)%N eqn:Hq.
    + replace (t + 300 <=? t + after h)%N with true
        by (symmetry; apply N.leb_le; apply N.leb_le in Hq; lia).
      reflexivity.
    + replace (t + 300 <=? t + after h)%N with false
        by (symmetry; apply N.leb_gt; apply N.leb_gt in Hq; lia).
      reflexivity.
Qed.

Lemma expected_from_none (hs : list Hover) (quiet : N) (t : N) :
  expected_from t [] hs quiet = expected_highlights hs quiet.
Proof.
  destruct hs as [|h hs]; cbn [expected_from expected_highlights]; [reflexivity|].
  rewrite expected_from_one. reflexivity.
Qed.

(** After a hover exactly one highlight is scheduled: that of the hover. *)
Lemma hovers_pending (hs : list Hover) :
  forall w,
    debouncer_ok w ->
    debouncer_ok (hovers hs w)
    /\ forall d, hs <> [] ->
         pending_highlights (hovers hs w)
         = [((clock (hovers hs w) + 300)%N, hover_event (last hs d))].
Proof.
  induction hs as [|h hs IH]; intros w Hok; cbn [hovers].
  - split; [exact Hok|]. intros d Hne. contradiction.
  - destruct (advance_highlights (clock w + after h) w) as (_ & _ & _ & A4).
    set (w1 := advance (clock w + after h) w) in *.
    destruct (handleHighlight_reschedules (on_text h) (on_color h) (on_position h)
                                          w1 (A4 Hok)) as (H1 & H2 & H3 & H4).
    set (w2 := handleHighlight (on_text h) (on_color h) (on_position h) w1) in *.
    destruct (IH w2 H2) as [Hok' Hlast]. split; [exact Hok'|].
    intros d _. destruct hs as [|h2 hs].
    + cbn [hovers last]. rewrite H1, H4. reflexivity.
    + change (last (h :: h2 :: hs) d) with (last (h2 :: hs) d).
      apply Hlast. discriminate.
Qed.

(** C9. For every sequence of hovers arriving at a component whose
    debouncer is in order and has nothing scheduled, followed by a time
    without hover: the adapter's single highlight is called for a hover
    exactly when no other hover arrives within 300 ms of it, with the text
    and colour of that hover, so each quiet period of 300 ms yields one call
    and that call is for the last text hovered before it. A hover cancels
    what was scheduled and schedules its own highlight 300 ms later, so at
    most one highlight is pending. In particular three hovers within 300 ms
    followed by 300 ms of quiet produce exactly one call, for the third
    text. *)
Theorem hover_highlights_are_debounced (hs : list Hover) (quiet : N) (w : World) :
  debouncer_ok w ->
  pending_highlights w = [] ->
  let w' := hovers_then_quiet hs quiet w in
  map snd (highlight_calls (trace w'))
  = map snd (highlight_calls (trace w)) ++ expected_highlights hs quiet
  /\ (forall d, hs <> [] ->
      pending_highlights (hovers hs w)
      = [((clock (hovers hs w) + 300)%N, hover_event (last hs d))])
  /\ (forall h1 h2 h3,
         hs = [h1; h2; h3] ->
         (after h2 + after h3 < 300)%N ->
         (300 <= quiet)%N ->
         map snd (highlight_calls (trace w'))
         = map snd (highlight_calls (trace w)) ++ [hover_event h3]).
Proof.
  intros Hok Hnone w'.
  assert (Hcalls : map snd (highlight_calls (trace w'))
                   = map snd (highlight_calls (trace w))
                     ++ expected_highlights hs quiet).
  { subst w'. rewrite (hovers_then_quiet_from hs quiet w Hok), Hnone.
    now rewrite expected_from_none. }
  split; [exact Hcalls|]. split.
  - exact (proj2 (hovers_pending hs w Hok)).
  - intros h1 h2 h3 -> Hclose Hquiet. rewrite Hcalls.
    cbn [expected_highlights gap_after].
    replace (300 <=? after h2)%N with false by (symmetry; apply N.leb_gt; lia).
    replace (300 <=? after h3)%N with false by (symmetry; apply N.leb_gt; lia).
    replace (300 <=? quiet)%N with true by (symmetry; apply N.leb_le; lia).
    reflexivity.
Qed.

End DebounceProperties.

(** *** The debouncer in every state the component can reach *)

Section DebounceInvariant.

Unset Implicit Arguments.

Context {host : WordHost} {provider : Provider}.
Variable normalize : jsstring -> jsstring.

(** The debouncer is not disturbed by a step that leaves the timers, the
    ref and the next handle alone. *)
Lemma debouncer_ok_same_timers (w w' : World) :
  timers w' = timers w ->
  highlightTimeoutRef w' = highlightTimeoutRef w ->
  next_handle w' = next_handle w ->
  debouncer_ok w -> debouncer_ok w'.
Proof.
  unfold debouncer_ok. intros -> -> ->. exact (fun H => H).
Qed.

Lemma showMessage_debouncer_ok (text : MessageText) (type : MessageType.t) (w : World) :
  debouncer_ok w -> debouncer_ok (showMessage text type w).
Proof.
  intros [Hpos Href]. split.
  - simpl. lia.
  - intros tm t c p Hin Hcb. simpl in Hin. apply in_enqueue in Hin.
    destruct Hin as [->|Hin]; [discriminate|].
    exact (Href tm t c p Hin Hcb).
Qed.

Lemma handleReplace_debouncer_ok (oldText newText : jsstring) (position : option Z)
      (w : World) :
  debouncer_ok w -> debouncer_ok (handleReplace normalize oldText newText position w).
Proof.
  intros Hok. unfold handleReplace, call_replaceInWord.
  destruct (WordTs.replaceInWord oldText newText position (doc w)) as [ok d].
  destruct ok; apply showMessage_debouncer_ok;
    (eapply debouncer_ok_same_timers; [| | |exact Hok]; reflexivity).
Qed.

Lemma dismissSuggestion_debouncer_ok (type : DismissType) (textToDismiss : jsstring)
      (w : World) :
  debouncer_ok w -> debouncer_ok (dismissSuggestion normalize type textToDismiss w).
Proof.
  intros Hok. destruct type;
    (eapply debouncer_ok_same_timers; [| | |exact Hok]; reflexivity).
Qed.

Lemma run_cycle_debouncer_ok (text : jsstring) (w : World) :
  debouncer_ok w -> debouncer_ok (run_cycle text w).
Proof.
  intros Hok. unfold run_cycle. rewrite Promise_all_closed.
  set (settled := N.max _ _). set (w5 := with_store _ _).
  assert (Hok5 : debouncer_ok w5).
  { eapply debouncer_ok_same_timers; [| | |exact Hok]; reflexivity. }
  destruct (advance_highlights settled w5) as (_ & _ & _ & Hadv).
  specialize (Hadv Hok5).
  destruct (0 <? _)%N;
    (eapply debouncer_ok_same_timers; [| | |exact Hadv]; reflexivity).
Qed.

Lemma checkSpelling_debouncer_ok (w : World) :
  debouncer_ok w -> debouncer_ok (checkSpelling w).
Proof.
  intros Hok. unfold checkSpelling.
  destruct (negb (truthy (apiKey (settings w)))).
  - eapply debouncer_ok_same_timers;
      [| | |exact (showMessage_debouncer_ok msg_need_api_key MessageType.error w Hok)];
      reflexivity.
  - unfold call_getTextFromWord.
    destruct (WordTs.getTextFromWord (doc w)) as [text d].
    assert (Hok1 : debouncer_ok (set_doc d (log ev_getTextFromWord w))).
    { eapply debouncer_ok_same_timers; [| | |exact Hok]; reflexivity. }
    destruct (negb (truthy text) || _).
    + now apply showMessage_debouncer_ok.
    + eapply debouncer_ok_same_timers;
        [| | |apply (run_cycle_debouncer_ok text); eapply debouncer_ok_same_timers;
              [| | |exact Hok1]]; reflexivity.
Qed.

(** The debouncer stays in order whatever happens to the component, and it
    is in order when the component is mounted. *)
Lemma debouncer_ok_invariant (a : Action) (w : World) :
  debouncer_ok w -> debouncer_ok (act normalize a w).
Proof.
  intros Hok. destruct a; cbn [act].
  - exact (proj1 (proj2 (handleHighlight_reschedules text color position w Hok))).
  - now apply handleReplace_debouncer_ok.
  - now apply dismissSuggestion_debouncer_ok.
  - now apply checkSpelling_debouncer_ok.
  - exact (proj2 (proj2 (proj2 (advance_highlights (clock w + ms) w))) Hok).
Qed.

Lemma debouncer_ok_reachable (w : World) :
  reachable normalize w -> debouncer_ok w.
Proof.
  induction 1 as [s d | a w Hreach IH].
  - split; [reflexivity|]. intros tm t c p [].
  - now apply debouncer_ok_invariant.
Qed.

End DebounceInvariant.

(** *** The store properties on a concrete state *)

(** Dismissing the spelling card of "teh" leaves the tone suggestion about
    the same text in place: the key is still live in the tone category. *)
Lemma dismissSuggestion_keeps_key_in_other_category :
  let target := Fake.normalize Example.teh in
  let w' := dismissSuggestion Fake.normalize d_spelling Example.teh Example.world1 in
  In target (live_keys Fake.normalize d_tone (store w'))
  /\ In target (live_keys Fake.normalize d_mixing (store w'))
  /\ ~ (forall category, ~ In target (live_keys Fake.normalize category (store w'))).
Proof.
  assert (Htone : In (Fake.normalize Example.teh)
                     (live_keys Fake.normalize d_tone
                        (store (dismissSuggestion Fake.normalize d_spelling
                                  Example.teh Example.world1)))).
  { vm_compute. left. reflexivity. }
  split; [exact Htone|]. split.
  - vm_compute. left. reflexivity.
  - intros Hnone. exact (Hnone d_tone Htone).
Qed.

Lemma handleReplace_prunes_every_category_witness :
  let w' := handleReplace Fake.normalize Example.teh (js "the") None Example.world1 in
  fst (WordTs.replaceInWord Example.teh (js "the") None (doc Example.world1)) = true
  /\ (forall category,
         ~ In (Fake.normalize (trim Example.teh))
              (live_keys Fake.normalize category (store w')))
  /\ languageStyleMixing (store w') = None.
Proof.
  assert (Hok : fst (WordTs.replaceInWord Example.teh (js "the") None
                       (doc Example.world1)) = true) by reflexivity.
  destruct (handleReplace_prunes_every_category Fake.normalize
              Example.teh (js "the") None Example.world1 Hok)
    as (_ & Hnone & _ & Hcollapse & _).
  split; [exact Hok|]. split; [exact Hnone|].
  apply (Hcollapse _ _ eq_refl eq_refl).
  intros c [<-|[]]. reflexivity.
Defined.

Lemma handleReplace_no_match_leaves_store_witness :
  let w' := handleReplace Fake.normalize (js "dog") (js "hound") None Example.world1 in
  body_search (trim (js "dog")) (negb (test_ws (trim (js "dog"))))
              (doc Example.world1) = Some []
  /\ store w' = Example.store1
  /\ message (ui w') = Some (msg_not_found, MessageType.error).
Proof.
  assert (Hnone : body_search (trim (js "dog")) (negb (test_ws (trim (js "dog"))))
                              (doc Example.world1) = Some []) by reflexivity.
  destruct (handleReplace_no_match_leaves_store Fake.normalize
              (js "dog") (js "hound") None Example.world1 Hnone)
    as (_ & Hstore & _ & Hmsg).
  split; [exact Hnone|]. split; [exact Hstore | exact Hmsg].
Defined.

(** *** The check cycle on concrete states *)

Lemma world2_runs : cycle_runs Example.world2.
Proof. split; [reflexivity | intros H; vm_compute in H; discriminate]. Defined.

Lemma world_clean_runs : cycle_runs Example.world_clean.
Proof. split; [reflexivity | intros H; vm_compute in H; discriminate]. Defined.

Lemma checkSpelling_staggers_four_branches_witness :
  cycle_runs Example.world2
  /\ provider_calls (trace (@checkSpelling Fake.host Example.provider2 Example.world2))
     = [(0, main_request (js "teh cat sat") Example.settings2);
        (200, tone_request (js "teh cat sat") Example.settings2);
        (400, style_request (js "teh cat sat") Example.settings2);
        (600, content_request (js "teh cat sat") Example.settings2)]%N.
Proof.
  destruct (@checkSpelling_staggers_four_branches
              Fake.host Example.provider2 Example.world2 world2_runs)
    as (_ & _ & _ & _ & _ & _ & Hcalls & _).
  split; [exact world2_runs | exact Hcalls].
Defined.

Lemma checkSpelling_batch_highlight_witness :
  cycle_runs Example.world2
  /\ batch_highlight_calls
       (trace (@checkSpelling Fake.host Example.provider2 Example.world2))
     = [(650%N,
         [WordTs.mkItem (js "teh") (js "#fee2e2") (Some 0%Z);
          WordTs.mkItem (js "cat") (js "#fef3c7") (Some 0%Z);
          WordTs.mkItem (js "sat") (js "#ccfbf1") (Some 0%Z)])].
Proof.
  destruct (@checkSpelling_batch_highlight
              Fake.host Example.provider2 Example.world2 world2_runs)
    as (Hbatch & _).
  split; [exact world2_runs | exact Hbatch].
Defined.

(** A cycle on a document in which the provider finds nothing to report
    completes without any batched highlight call. *)
Lemma clean_cycle_issues_no_batch_highlight :
  let w' := @checkSpelling Fake.host Example.provider_clean Example.world_clean in
  cycle_runs Example.world_clean
  /\ store w' = mkStore [] [] [] None [] [] (Some (Response.content Fake.no_response))
                        (Stats.mk 3 0 (num 100))
  /\ isLoading (ui w') = false
  /\ batch_highlight_calls (trace w') = []
  /\ ~ (exists call, batch_highlight_calls (trace w') = [call]).
Proof.
  split; [exact world_clean_runs|].
  split; [vm_compute; reflexivity|].
  split; [reflexivity|].
  assert (H : batch_highlight_calls
                (trace (@checkSpelling Fake.host Example.provider_clean
                                       Example.world_clean)) = [])
    by (vm_compute; reflexivity).
  split; [exact H|]. intros [call Hcall]. rewrite H in Hcall. discriminate.
Qed.

Lemma checkSpelling_isolates_branch_failure_witness :
  let w2 := @checkSpelling Fake.host (fails_on ToneCheck Example.provider2)
                           Example.world2 in
  cycle_runs Example.world2
  /\ toneSuggestions (store w2) = []
  /\ corrections (store w2) = [Correction.mk Example.teh [js "the"] (Some 0%Z)]
  /\ batch_highlight_calls (trace w2)
     = [(650%N,
         [WordTs.mkItem (js "teh") (js "#fee2e2") (Some 0%Z);
          WordTs.mkItem (js "sat") (js "#ccfbf1") (Some 0%Z)])].
Proof.
  destruct (@checkSpelling_isolates_branch_failure
              Fake.host Example.provider2 ToneCheck Example.world2 world2_runs)
    as (Hown & Hothers & _ & _ & Hbatch & _).
  split; [exact world2_runs|].
  split; [exact (f_equal toneSuggestions Hown)|].
  split; [|exact Hbatch].
  exact (f_equal corrections (Hothers MainCheck ltac:(discriminate))).
Defined.

(** When the main branch fails and neither a tone nor a style is selected,
    the cycle completes and no batched highlight is issued. *)
Lemma failed_main_branch_issues_no_batch_highlight :
  let w' := @checkSpelling Fake.host Example.provider_main_fails Example.world_clean in
  cycle_runs Example.world_clean
  /\ contentAnalysis (store w') = Some (Response.content Fake.no_response)
  /\ isLoading (ui w') = false
  /\ batch_highlight_calls (trace w') = [].
Proof.
  split; [exact world_clean_runs|]. repeat split; vm_compute; reflexivity.
Qed.

Lemma checkSpelling_refuses_witness :
  (credential_missing Example.world_no_key \/ document_blank Example.world_no_key)
  /\ trace (@checkSpelling Fake.host Example.provider2 Example.world_no_key) = []
  /\ (credential_missing Example.world_blank \/ document_blank Example.world_blank)
  /\ store (@checkSpelling Fake.host Example.provider2 Example.world_blank)
     = Example.store1
  /\ trace (@checkSpelling Fake.host Example.provider2 Example.world_blank)
     = [(0%N, ev_getTextFromWord)].
Proof.
  assert (H1 : credential_missing Example.world_no_key \/ document_blank Example.world_no_key)
    by (left; reflexivity).
  assert (H2 : credential_missing Example.world_blank \/ document_blank Example.world_blank)
    by (right; reflexivity).
  destruct (@checkSpelling_refuses Fake.host Example.provider2 Example.world_no_key H1)
    as (_ & _ & _ & _ & _ & _ & Hkey & _).
  destruct (@checkSpelling_refuses Fake.host Example.provider2 Example.world_blank H2)
    as (Hstore & _ & _ & _ & _ & _ & _ & Hblank).
  split; [exact H1|].
  split; [exact (proj1 (Hkey eq_refl))|].
  split; [exact H2|].
  split; [exact Hstore|].
  exact (proj1 (Hblank ltac:(discriminate))).
Defined.

Lemma read_failure_is_an_empty_document_witness :
  let w' := @checkSpelling Fake.host Example.provider2 Example.world_unreadable in
  truthy (apiKey (settings Example.world_unreadable)) = true
  /\ read_throws (doc Example.world_unreadable)
  /\ message (ui w') = Some (msg_select_text, MessageType.error)
  /\ observable (@checkSpelling Fake.host Example.provider2
                   (@set_doc Fake.host Example.document_empty Example.world_unreadable))
     = observable w'.
Proof.
  assert (H1 : truthy (apiKey (settings Example.world_unreadable)) = true)
    by reflexivity.
  assert (H2 : read_throws (doc Example.world_unreadable)) by reflexivity.
  destruct (@read_failure_is_an_empty_document
              Fake.host Example.provider2 Example.world_unreadable H1 H2)
    as (_ & _ & Hmsg & _ & _ & Hsame).
  split; [exact H1|]. split; [exact H2|]. split; [exact Hmsg|].
  apply Hsame. reflexivity.
Defined.

(** *** The debouncer on a concrete state *)

Lemma hover_highlights_are_debounced_witness :
  debouncer_ok Example.world1
  /\ pending_highlights Example.world1 = []
  /\ map snd (highlight_calls
                (trace (hovers_then_quiet Example.three_hovers 300 Example.world1)))
     = [ev_highlightInWord (js "sat") (js "#ccfbf1") (Some 0%Z)].
Proof.
  assert (Hok : debouncer_ok Example.world1).
  { split; [reflexivity|]. intros tm text color position []. }
  assert (Hnone : pending_highlights Example.world1 = []) by reflexivity.
  destruct (@hover_highlights_are_debounced
              Fake.host Example.three_hovers 300 Example.world1 Hok Hnone)
    as (_ & _ & Hthree).
  split; [exact Hok|]. split; [exact Hnone|].
  apply (Hthree _ _ _ eq_refl); [reflexivity | discriminate].
Defined.
(* ================================================================== *)
(** ** More about trimming, line breaks and words *)
(* ================================================================== *)

Unset Implicit Arguments.

(** *** Trimming and line breaks *)

Lemma trimStart_starts (s : jsstring) :
  match trimStart s with [] => True | c :: _ => isWhiteSpace c = false end.
Proof.
  induction s as [|c s IH]; [exact I|]. cbn [trimStart].
  destruct (isWhiteSpace c) eqn:Hc; [exact IH | exact Hc].
Qed.

Lemma trimStart_fixed (s : jsstring) :
  match s with [] => True | c :: _ => isWhiteSpace c = false end ->
  trimStart s = s.
Proof.
  destruct s as [|c s]; [reflexivity|]. cbn [trimStart]. intros ->. reflexivity.
Qed.

Lemma trimEnd_split (s : jsstring) :
  exists blanks, s = trimEnd s ++ blanks /\ forallb isWhiteSpace blanks = true.
Proof.
  unfold trimEnd. destruct (trimStart_split (rev s)) as [blanks [Hs Hb]].
  exists (rev blanks). split.
  - rewrite <- rev_app_distr, <- Hs. symmetry. apply rev_involutive.
  - rewrite forallb_forall in *. intros x Hx. apply Hb. now apply in_rev.
Qed.

Lemma trimEnd_keeps_start (s : jsstring) :
  match s with [] => True | c :: _ => isWhiteSpace c = false end ->
  match trimEnd s with [] => True | c :: _ => isWhiteSpace c = false end.
Proof.
  intros Hs. destruct (trimEnd_split s) as [blanks [Hsplit _]].
  destruct (trimEnd s) as [|c r]; [exact I|].
  rewrite Hsplit in Hs. exact Hs.
Qed.

(** A trimmed string neither starts nor ends with whitespace, and trimming
    it again changes nothing. *)
Lemma trim_clean (s : jsstring) :
  match trim s with [] => True | c :: _ => isWhiteSpace c = false end
  /\ match rev (trim s) with [] => True | c :: _ => isWhiteSpace c = false end.
Proof.
  split.
  - unfold trim. apply trimEnd_keeps_start, trimStart_starts.
  - unfold trim, trimEnd. rewrite rev_involutive. apply trimStart_starts.
Qed.

Lemma trim_idempotent (s : jsstring) : trim (trim s) = trim s.
Proof.
  destruct (trim_clean s) as [Hstart Hend].
  unfold trim at 1. rewrite (trimStart_fixed _ Hstart).
  unfold trimEnd. rewrite (trimStart_fixed _ Hend). apply rev_involutive.
Qed.

Lemma replace_crlf_In (s : jsstring) (c : N) :
  In c (replace_crlf s) -> In c s.
Proof.
  induction s as [|x s IH]; [intros []|]. cbn [replace_crlf].
  destruct ((x =? 13)%N && _); cbn [In]; intuition.
Qed.

Lemma normalize_line_breaks_no_cr (s : jsstring) :
  ~ In 13%N (WordTs.normalize_line_breaks s).
Proof.
  unfold WordTs.normalize_line_breaks, replace_cr. intros Hin.
  apply in_map_iff in Hin. destruct Hin as [c [Hc _]].
  destruct (c =? 13)%N eqn:E; [discriminate|].
  apply N.eqb_neq in E. congruence.
Qed.

Lemma normalize_line_breaks_without_cr (s : jsstring) :
  ~ In 13%N s -> WordTs.normalize_line_breaks s = s.
Proof.
  unfold WordTs.normalize_line_breaks, replace_cr.
  induction s as [|c s IH]; intros Hno; [reflexivity|].
  assert (Hc : (c =? 13)%N = false).
  { apply N.eqb_neq. intros ->. apply Hno. now left. }
  cbn [replace_crlf]. rewrite Hc. cbn [andb map]. rewrite Hc.
  f_equal. apply IH. intros Hin. apply Hno. now right.
Qed.

(** *** Blank texts and token counts *)

Lemma trimStart_nil_iff (s : jsstring) :
  trimStart s = [] <-> forallb isWhiteSpace s = true.
Proof.
  induction s as [|c s IH]; cbn [trimStart forallb]; [tauto|].
  destruct (isWhiteSpace c); cbn [andb]; [exact IH|].
  split; discriminate.
Qed.

Lemma trim_nil_iff (s : jsstring) :
  trim s = [] <-> forallb isWhiteSpace s = true.
Proof.
  rewrite <- trimStart_nil_iff. unfold trim. split.
  - intros Hnil. destruct (trimEnd_split (trimStart s)) as [blanks [Hsplit Hb]].
    rewrite Hnil in Hsplit. cbn [app] in Hsplit.
    pose proof (trimStart_starts s) as Hstart.
    destruct (trimStart s) as [|c r]; [reflexivity|].
    subst blanks. cbn [forallb] in Hb. rewrite Hstart in Hb. discriminate.
  - intros ->. reflexivity.
Qed.

Lemma count_tokens_zero_iff (s : jsstring) :
  count_tokens_from true s = 0%N <-> forallb isWhiteSpace s = true.
Proof.
  induction s as [|c s IH]; cbn [count_tokens_from forallb]; [tauto|].
  destruct (isWhiteSpace c); cbn [negb andb].
  - rewrite N.add_0_l. exact IH.
  - split; [lia | discriminate].
Qed.

(** A text has no word exactly when it is blank. *)
Lemma count_words_zero_iff (text : jsstring) :
  count_words text = 0%N <-> trim text = [].
Proof.
  rewrite count_words_is_token_count, trim_nil_iff. apply count_tokens_zero_iff.
Qed.

(* ================================================================== *)
(** ** The functions of word.ts *)
(* ================================================================== *)

Section WordFunctions.

Context {host : WordHost}.
Variable normalize : jsstring -> jsstring.

(** X1. The text that [getTextFromWord] returns holds no carriage return,
    whether it comes from the selection or from the body, and also when the
    read fails. *)
Theorem getTextFromWord_has_no_carriage_return (d : Doc) :
  ~ In 13%N (fst (WordTs.getTextFromWord d)).
Proof.
  unfold WordTs.getTextFromWord, WordTs.try_catch, WordTs.Word_run,
    WordTs.read_text, WordTs.bind, WordTs.read, WordTs.ret.
  destruct (run_available d); [|intros []].
  destruct (selection_text d) as [selection|]; [|intros []].
  destruct (truthy selection && _).
  - apply normalize_line_breaks_no_cr.
  - destruct (body_text d); [apply normalize_line_breaks_no_cr | intros []].
Qed.

(** X2. When a batch can be started and the selection is read, a selection
    that holds something other than whitespace is what [getTextFromWord]
    returns, with its line breaks normalised (unchanged when it holds no
    carriage return), whatever the body holds; a selection that is
    empty or blank makes it return the text of the body, or the empty string
    when the body cannot be read. The document is left as it is. *)
Theorem getTextFromWord_prefers_selection (d : Doc) (selection : jsstring) :
  run_available d = true ->
  selection_text d = Some selection ->
  (trim selection <> [] ->
   WordTs.getTextFromWord d = (WordTs.normalize_line_breaks selection, d)
   /\ (~ In 13%N selection -> WordTs.getTextFromWord d = (selection, d)))
  /\ (trim selection = [] ->
      WordTs.getTextFromWord d
      = (match body_text d with
         | Some body => WordTs.normalize_line_breaks body
         | None => []
         end, d)).
Proof.
  intros Hrun Hsel.
  unfold WordTs.getTextFromWord, WordTs.try_catch, WordTs.Word_run,
    WordTs.read_text, WordTs.bind, WordTs.read, WordTs.ret.
  rewrite Hrun, Hsel. split.
  - intros Hne.
    assert (Htest : truthy selection
                    && (0 <? N.of_nat (List.length (trim selection)))%N = true).
    { apply andb_true_iff. split.
      - destruct selection; [now elim Hne | reflexivity].
      - destruct (trim selection); [now elim Hne | reflexivity]. }
    rewrite Htest. split; [reflexivity|].
    intros Hcr. now rewrite normalize_line_breaks_without_cr.
  - intros Hblank. rewrite Hblank. cbn [List.length N.of_nat N.ltb N.compare].
    rewrite andb_false_r. destruct (body_text d); reflexivity.
Qed.

(** X3. [replaceInWord] answers [true] exactly when the trimmed old text is
    not empty, a batch can be started, the search for the trimmed text
    (whole words when it holds no whitespace) finds at least one range, and
    the first range takes the new text and then the white highlight; the
    document is then the one that these two operations leave. Only the first
    match is touched, and the position argument plays no part. *)
Theorem replaceInWord_true_iff (oldText newText : jsstring) (position : option Z)
        (d d' : Doc) :
  WordTs.replaceInWord oldText newText position d = (true, d')
  <-> trim oldText <> []
      /\ run_available d = true
      /\ exists first rest d1,
           body_search (trim oldText) (negb (test_ws (trim oldText))) d
           = Some (first :: rest)
           /\ insertText_replace first newText d = Some d1
           /\ set_highlightColor first (js "#FFFFFF") d1 = Some d'.
Proof.
  unfold WordTs.replaceInWord, WordTs.try_catch, WordTs.Word_run, WordTs.bind,
    WordTs.read, WordTs.update, WordTs.ret.
  destruct (trim oldText) as [|c t] eqn:Htrim; cbn [truthy negb].
  - split; [discriminate|]. intros [H _]. now elim H.
  - destruct (run_available d).
    2: { split; [discriminate|]. intros (_ & H & _). discriminate. }
    destruct (body_search (c :: t) _ d) as [[|first rest]|] eqn:Hsearch.
    + split; [discriminate|]. intros (_ & _ & f & r & d1 & H & _). discriminate.
    + destruct (insertText_replace first newText d) as [d1|] eqn:Hins.
      * destruct (set_highlightColor first (js "#FFFFFF") d1) as [d2|] eqn:Hset.
        -- split.
           ++ intros H. injection H as <-. split; [discriminate|].
              split; [reflexivity|]. exists first, rest, d1. auto.
           ++ intros (_ & _ & f & r & e1 & H1 & H2 & H3).
              injection H1 as <- <-. rewrite Hins in H2. injection H2 as <-.
              rewrite Hset in H3. injection H3 as <-. reflexivity.
        -- split; [discriminate|].
           intros (_ & _ & f & r & e1 & H1 & H2 & H3).
           injection H1 as <- <-. rewrite Hins in H2. injection H2 as <-.
           rewrite Hset in H3. discriminate.
      * split; [discriminate|].
        intros (_ & _ & f & r & e1 & H1 & H2 & _).
        injection H1 as <- <-. rewrite Hins in H2. discriminate.
    + split; [discriminate|]. intros (_ & _ & f & r & d1 & H & _). discriminate.
Qed.

(** X4. Whitespace around the text that is passed to [replaceInWord], to
    [highlightInWord] or to [handleReplace] makes no difference: the
    document and the store end up the same as for the trimmed text. *)
Theorem surrounding_whitespace_is_ignored
        (text other : jsstring) (position : option Z) (d : Doc) (w : World) :
  WordTs.replaceInWord (trim text) other position d
  = WordTs.replaceInWord text other position d
  /\ WordTs.highlightInWord (trim text) other position d
     = WordTs.highlightInWord text other position d
  /\ store (handleReplace normalize (trim text) other position w)
     = store (handleReplace normalize text other position w)
  /\ doc (handleReplace normalize (trim text) other position w)
     = doc (handleReplace normalize text other position w).
Proof.
  assert (Hr : forall d0, WordTs.replaceInWord (trim text) other position d0
                          = WordTs.replaceInWord text other position d0).
  { intros d0. unfold WordTs.replaceInWord. now rewrite trim_idempotent. }
  split; [apply Hr|]. split.
  { unfold WordTs.highlightInWord. now rewrite trim_idempotent. }
  unfold handleReplace, call_replaceInWord. rewrite Hr, trim_idempotent.
  destruct (WordTs.replaceInWord text other position (doc w)) as [[|] d1];
    split; reflexivity.
Qed.

(** X5. A batch highlight of one item does to the document what
    [highlightInWord] does for the text, colour and position of that item. *)
Theorem batch_of_one_is_single_highlight
        (text color : jsstring) (position : option Z) (d : Doc) :
  WordTs.highlightMultipleInWord [WordTs.mkItem text color position] d
  = WordTs.highlightInWord text color position d.
Proof.
  unfold WordTs.highlightMultipleInWord, WordTs.highlightInWord,
    WordTs.highlight_items, WordTs.try_catch, WordTs.Word_run, WordTs.bind,
    WordTs.ret. cbn [WordTs.text WordTs.color].
  destruct (negb (truthy (trim text))).
  - destruct (run_available d); reflexivity.
  - destruct (run_available d); [|reflexivity].
    destruct (WordTs.read _ d) as [[results|] d1]; [|reflexivity].
    destruct (WordTs.highlight_ranges results color d1) as [[[]|] d2]; reflexivity.
Qed.

Lemma highlight_items_skips_blank (items : list WordTs.HighlightItem) (d : Doc) :
  WordTs.highlight_items (filter nonblank items) d = WordTs.highlight_items items d.
Proof.
  revert d. induction items as [|item items IH]; intros d; [reflexivity|].
  cbn [filter WordTs.highlight_items]. unfold nonblank at 1.
  destruct (truthy (trim (WordTs.text item))) eqn:Ht; cbn [negb].
  - cbn [WordTs.highlight_items]. rewrite Ht. cbn [negb].
    unfold WordTs.bind.
    destruct (WordTs.read _ d) as [[results|] d1]; [|reflexivity].
    destruct (WordTs.highlight_ranges results _ d1) as [[[]|] d2]; [|reflexivity].
    apply IH.
  - apply IH.
Qed.

Lemma highlight_items_all_blank (items : list WordTs.HighlightItem) (d : Doc) :
  filter nonblank items = [] -> WordTs.highlight_items items d = (Some tt, d).
Proof.
  intros Hnone. rewrite <- highlight_items_skips_blank, Hnone. reflexivity.
Qed.

(** X6. Items whose text is empty or blank play no part in a batch
    highlight: the batch does what the batch of the other items does, and a
    batch that holds only such items leaves the document as it is. *)
Theorem batch_ignores_blank_items (items : list WordTs.HighlightItem) (d : Doc) :
  WordTs.highlightMultipleInWord items d
  = WordTs.highlightMultipleInWord (filter nonblank items) d
  /\ (filter nonblank items = [] -> WordTs.highlightMultipleInWord items d = (tt, d)).
Proof.
  assert (Hsame : WordTs.highlightMultipleInWord items d
                  = WordTs.highlightMultipleInWord (filter nonblank items) d).
  { unfold WordTs.highlightMultipleInWord.
    destruct items as [|item items]; [reflexivity|].
    destruct (filter nonblank (item :: items)) as [|kept rest] eqn:Hf.
    - unfold WordTs.try_catch, WordTs.Word_run.
      destruct (run_available d); [|reflexivity].
      now rewrite (highlight_items_all_blank _ d Hf).
    - rewrite <- Hf. unfold WordTs.try_catch, WordTs.Word_run.
      destruct (run_available d); [|reflexivity].
      now rewrite highlight_items_skips_blank. }
  split; [exact Hsame|]. intros Hnone. rewrite Hsame, Hnone. reflexivity.
Qed.

Lemma highlight_items_nothing_found (items : list WordTs.HighlightItem) (d : Doc) :
  (forall needle wholeWord, body_search needle wholeWord d = Some []) ->
  WordTs.highlight_items items d = (Some tt, d).
Proof.
  intros Hnone. induction items as [|item items IH]; [reflexivity|].
  cbn [WordTs.highlight_items].
  destruct (negb (truthy (trim (WordTs.text item)))); [exact IH|].
  unfold WordTs.bind, WordTs.read. rewrite Hnone.
  cbn [WordTs.highlight_ranges WordTs.ret]. exact IH.
Qed.

(** X7. On a document in which no search finds a range, the batch
    highlight and the single highlight leave the document as it is, and
    [replaceInWord] answers [false] and leaves it as it is. *)
Theorem nothing_found_changes_nothing
        (items : list WordTs.HighlightItem) (text other : jsstring)
        (position : option Z) (d : Doc) :
  (forall needle wholeWord, body_search needle wholeWord d = Some []) ->
  WordTs.highlightMultipleInWord items d = (tt, d)
  /\ WordTs.highlightInWord text other position d = (tt, d)
  /\ WordTs.replaceInWord text other position d = (false, d).
Proof.
  intros Hnone. split; [|split].
  - unfold WordTs.highlightMultipleInWord. destruct items as [|item items]; [reflexivity|].
    unfold WordTs.try_catch, WordTs.Word_run.
    destruct (run_available d); [|reflexivity].
    now rewrite (highlight_items_nothing_found _ d Hnone).
  - unfold WordTs.highlightInWord.
    destruct (negb (truthy (trim text))); [reflexivity|].
    unfold WordTs.try_catch, WordTs.Word_run.
    destruct (run_available d); [|reflexivity].
    unfold WordTs.bind, WordTs.read. rewrite Hnone. reflexivity.
  - apply replaceInWord_no_match. apply Hnone.
Qed.

End WordFunctions.

Section HostFailure.

Context {host : WordHost}.

(** X8. When [Word.run] cannot start a batch, none of the five functions of
    word.ts changes the document, and each returns its fallback: the empty
    string for the read, [false] for the replacement, nothing for the
    highlights and the clearing. *)
Theorem unavailable_host_changes_nothing
        (items : list WordTs.HighlightItem) (text other : jsstring)
        (position : option Z) (d : Doc) :
  run_available d = false ->
  WordTs.getTextFromWord d = ([], d)
  /\ WordTs.highlightMultipleInWord items d = (tt, d)
  /\ WordTs.highlightInWord text other position d = (tt, d)
  /\ WordTs.replaceInWord text other position d = (false, d)
  /\ WordTs.clearHighlights d = (tt, d).
Proof.
  intros Hrun.
  unfold WordTs.getTextFromWord, WordTs.highlightMultipleInWord, WordTs.highlightInWord,
    WordTs.replaceInWord, WordTs.clearHighlights, WordTs.try_catch, WordTs.Word_run.
  rewrite Hrun. repeat split.
  - now destruct items.
  - now destruct (negb (truthy (trim text))).
  - now destruct (negb (truthy (trim text))).
Qed.

End HostFailure.

(* ================================================================== *)
(** ** Dismissals and replacements composed *)
(* ================================================================== *)

Lemma filter_idempotent {A} (f : A -> bool) (l : list A) :
  filter f (filter f l) = filter f l.
Proof.
  induction l as [|x l IH]; [reflexivity|]. cbn [filter].
  destruct (f x) eqn:Hx; [|exact IH]. cbn [filter]. rewrite Hx. now f_equal.
Qed.

Lemma filter_commutes {A} (f g : A -> bool) (l : list A) :
  filter f (filter g l) = filter g (filter f l).
Proof.
  induction l as [|x l IH]; [reflexivity|]. cbn [filter].
  destruct (g x) eqn:Hg; destruct (f x) eqn:Hf; cbn [filter];
    rewrite ?Hg, ?Hf, IH; reflexivity.
Qed.

Lemma filter_all_kept {A} (f : A -> bool) (l : list A) :
  (forall x, In x l -> f x = true) -> filter f l = l.
Proof.
  induction l as [|x l IH]; intros Hall; [reflexivity|]. cbn [filter].
  rewrite (Hall x (or_introl eq_refl)). f_equal. apply IH.
  intros y Hy. apply Hall. now right.
Qed.

(** [prune_mixing] on a record that holds a list of corrections. *)
Lemma prune_mixing_some (f : jsstring -> bool) (m : StyleMixing.t)
      (cs : list StyleMixingCorrection.t) :
  StyleMixing.corrections m = Some cs ->
  prune_mixing f (Some m)
  = match filter (fun c => f (StyleMixingCorrection.current c)) cs with
    | [] => None
    | kept => Some (StyleMixing.with_corrections m kept)
    end.
Proof.
  intros Hcs. unfold prune_mixing. rewrite Hcs.
  destruct (filter _ cs); reflexivity.
Qed.

Lemma prune_mixing_commutes (f g : jsstring -> bool) (prev : option StyleMixing.t) :
  prune_mixing f (prune_mixing g prev) = prune_mixing g (prune_mixing f prev).
Proof.
  destruct prev as [m|]; [|reflexivity].
  destruct (StyleMixing.corrections m) as [cs|] eqn:Hcs.
  2: { unfold prune_mixing. rewrite Hcs. cbn. rewrite Hcs. reflexivity. }
  rewrite (prune_mixing_some g m cs Hcs), (prune_mixing_some f m cs Hcs).
  pose proof (filter_commutes (fun c => f (StyleMixingCorrection.current c))
                              (fun c => g (StyleMixingCorrection.current c)) cs) as Hcomm.
  destruct (filter (fun c => g (StyleMixingCorrection.current c)) cs) as [|cg kg] eqn:Hg;
    destruct (filter (fun c => f (StyleMixingCorrection.current c)) cs) as [|cf kf] eqn:Hf.
  - reflexivity.
  - rewrite (prune_mixing_some g (StyleMixing.with_corrections m (cf :: kf))
                               (cf :: kf) eq_refl).
    rewrite <- Hcomm. reflexivity.
  - rewrite (prune_mixing_some f (StyleMixing.with_corrections m (cg :: kg))
                               (cg :: kg) eq_refl).
    rewrite Hcomm. reflexivity.
  - rewrite (prune_mixing_some f (StyleMixing.with_corrections m (cg :: kg))
                               (cg :: kg) eq_refl).
    rewrite (prune_mixing_some g (StyleMixing.with_corrections m (cf :: kf))
                               (cf :: kf) eq_refl).
    rewrite Hcomm. reflexivity.
Qed.

Lemma prune_mixing_idempotent (f : jsstring -> bool) (prev : option StyleMixing.t) :
  prune_mixing f (prune_mixing f prev) = prune_mixing f prev.
Proof.
  destruct prev as [m|]; [|reflexivity].
  destruct (StyleMixing.corrections m) as [cs|] eqn:Hcs.
  2: { unfold prune_mixing. rewrite Hcs. cbn. rewrite Hcs. reflexivity. }
  rewrite (prune_mixing_some f m cs Hcs).
  pose proof (filter_idempotent (fun c => f (StyleMixingCorrection.current c)) cs) as Hid.
  destruct (filter (fun c => f (StyleMixingCorrection.current c)) cs) as [|c k] eqn:Hf;
    [reflexivity|].
  rewrite (prune_mixing_some f (StyleMixing.with_corrections m (c :: k)) (c :: k) eq_refl).
  rewrite Hid. reflexivity.
Qed.

Lemma prune_mixing_all_kept (f : jsstring -> bool) (prev : option StyleMixing.t) :
  ~ empty_but_present prev ->
  (forall m cs c, prev = Some m -> StyleMixing.corrections m = Some cs -> In c cs ->
                  f (StyleMixingCorrection.current c) = true) ->
  prune_mixing f prev = prev.
Proof.
  intros Hne Hall. destruct prev as [m|]; [|reflexivity].
  destruct (StyleMixing.corrections m) as [cs|] eqn:Hcs.
  2: { unfold prune_mixing. now rewrite Hcs. }
  rewrite (prune_mixing_some f m cs Hcs).
  rewrite filter_all_kept by (intros c Hc; exact (Hall m cs c eq_refl Hcs Hc)).
  destruct cs as [|c cs].
  - elim Hne. exists m. auto.
  - destruct m as [dt rs rn co]. cbn in Hcs. subst co. reflexivity.
Qed.

Section StoreComposition.

Context {host : WordHost}.
Variable normalize : jsstring -> jsstring.

Lemma with_store_id (w : World) (f : Store -> Store) :
  f (store w) = store w -> with_store f w = w.
Proof. destruct w. unfold with_store. cbn. intros ->. reflexivity. Qed.

Lemma store_eta (s : Store) :
  mkStore (corrections s) (toneSuggestions s) (styleSuggestions s)
          (languageStyleMixing s) (punctuationIssues s) (euphonyImprovements s)
          (contentAnalysis s) (stats s) = s.
Proof. destruct s. reflexivity. Qed.

(** Dismissing a key that is not live in the category. *)
Lemma dismiss_absent_key (type : DismissType) (text : jsstring) (w : World) :
  ~ In (normalize text) (live_keys normalize type (store w)) ->
  (type = d_mixing -> ~ empty_but_present (languageStyleMixing (store w))) ->
  dismissSuggestion normalize type text w = w.
Proof.
  intros Habsent Hmix.
  assert (Hkept : forall {A} (key : A -> jsstring) (xs : list A),
             ~ In (normalize text) (map (fun x => normalize (key x)) xs) ->
             filter (fun x => strict_neq (normalize (key x)) (normalize text)) xs = xs).
  { intros A key xs Hno. apply filter_all_kept. intros x Hx.
    apply strict_neq_true. intros Heq. apply Hno. apply in_map_iff. now exists x. }
  destruct type; unfold dismissSuggestion; cbn [live_keys] in Habsent;
    [unfold setCorrections | unfold setToneSuggestions | unfold setStyleSuggestions
     | unfold setLanguageStyleMixing | unfold setPunctuationIssues
     | unfold setEuphonyImprovements];
    apply with_store_id.
  - rewrite (Hkept _ Correction.wrong _ Habsent). apply store_eta.
  - rewrite (Hkept _ ToneSuggestion.current _ Habsent). apply store_eta.
  - rewrite (Hkept _ StyleSuggestion.current _ Habsent). apply store_eta.
  - rewrite prune_mixing_all_kept; [apply store_eta | now apply Hmix |].
    intros m cs c Hm Hcs Hc. apply strict_neq_true. intros Heq. apply Habsent.
    rewrite Hm, Hcs. apply in_map_iff. now exists c.
  - rewrite (Hkept _ PunctuationIssue.currentSentence _ Habsent). apply store_eta.
  - rewrite (Hkept _ EuphonyImprovement.current _ Habsent). apply store_eta.
Qed.

(** X9. Dismissing the same suggestion a second time changes nothing. *)
Theorem dismissSuggestion_idempotent (type : DismissType) (text : jsstring) (w : World) :
  dismissSuggestion normalize type text (dismissSuggestion normalize type text w)
  = dismissSuggestion normalize type text w.
Proof.
  destruct w as [st u s r d tr t q nh]. destruct s.
  destruct type; unfold dismissSuggestion, setCorrections, setToneSuggestions,
    setStyleSuggestions, setLanguageStyleMixing, setPunctuationIssues,
    setEuphonyImprovements, with_store; cbn;
    rewrite ?filter_idempotent, ?prune_mixing_idempotent; reflexivity.
Qed.

(** X10. Two dismissals give the same state in either order, whatever their
    categories and texts. *)
Theorem dismissSuggestion_commutes
        (type1 type2 : DismissType) (text1 text2 : jsstring) (w : World) :
  dismissSuggestion normalize type1 text1 (dismissSuggestion normalize type2 text2 w)
  = dismissSuggestion normalize type2 text2 (dismissSuggestion normalize type1 text1 w).
Proof.
  destruct w as [st u s r d tr t q nh]. destruct s.
  destruct type1, type2; unfold dismissSuggestion, setCorrections, setToneSuggestions,
    setStyleSuggestions, setLanguageStyleMixing, setPunctuationIssues,
    setEuphonyImprovements, with_store; cbn; try reflexivity.
  - f_equal. f_equal. apply filter_commutes.
  - f_equal. f_equal. apply filter_commutes.
  - f_equal. f_equal. apply filter_commutes.
  - f_equal. f_equal. apply prune_mixing_commutes.
  - f_equal. f_equal. apply filter_commutes.
  - f_equal. f_equal. apply filter_commutes.
Qed.

(** X11. Dismissing a text whose canonical key is not live in the named
    category leaves the whole state as it is, with one exception: in the
    mixing category a record that is present with an empty list of
    corrections is replaced by null. *)
Theorem dismissSuggestion_of_absent_key
        (type : DismissType) (text : jsstring) (w : World) :
  ~ In (normalize text) (live_keys normalize type (store w)) ->
  ((type = d_mixing -> ~ empty_but_present (languageStyleMixing (store w))) ->
   dismissSuggestion normalize type text w = w)
  /\ (type = d_mixing ->
      empty_but_present (languageStyleMixing (store w)) ->
      languageStyleMixing (store (dismissSuggestion normalize type text w)) = None).
Proof.
  intros Habsent. split.
  - intros Hmix. now apply dismiss_absent_key.
  - intros -> [m [Hm Hcs]]. cbn. rewrite Hm.
    rewrite (prune_mixing_some _ m [] Hcs). reflexivity.
Qed.

(** The store after an apply that found its match. *)
Lemma handleReplace_success_store (oldText newText : jsstring) (position : option Z)
      (w : World) :
  fst (WordTs.replaceInWord oldText newText position (doc w)) = true ->
  store (handleReplace normalize oldText newText position w)
  = store (fold_right (fun type => dismissSuggestion normalize type (trim oldText)) w
                      [d_spelling; d_tone; d_style; d_mixing; d_punct; d_euphony])
  /\ (forall type,
        ~ In (normalize (trim oldText))
             (live_keys normalize type
                (store (handleReplace normalize oldText newText position w))))
  /\ ~ empty_but_present
        (languageStyleMixing (store (handleReplace normalize oldText newText position w))).
Proof.
  intros Htrue. unfold handleReplace, call_replaceInWord.
  destruct (WordTs.replaceInWord oldText newText position (doc w)) as [ok d].
  cbn [fst] in Htrue. subst ok. split; [reflexivity|]. split.
  - intros type Hin.
    assert (Hkeys : In (normalize (trim oldText))
                       (live_keys normalize type (store w))
                    /\ normalize (trim oldText) <> normalize (trim oldText)).
    { destruct type.
      - now apply (keys_after_filter (fun c => normalize (Correction.wrong c))).
      - now apply (keys_after_filter (fun t => normalize (ToneSuggestion.current t))).
      - now apply (keys_after_filter (fun x => normalize (StyleSuggestion.current x))).
      - revert Hin.
        apply (@prune_mixing_keys normalize (normalize (trim oldText))
                 (languageStyleMixing (store w))); reflexivity.
      - now apply (keys_after_filter
                     (fun p => normalize (PunctuationIssue.currentSentence p))).
      - now apply (keys_after_filter (fun e => normalize (EuphonyImprovement.current e))). }
    destruct Hkeys as [_ Hne]. now apply Hne.
  - cbn. apply prune_mixing_not_empty.
Qed.

(** X12. After a replacement that succeeded, the store is the one that
    dismissing the trimmed old text in each of the six categories, one after
    the other, would leave. *)
Theorem handleReplace_prunes_like_six_dismissals
        (oldText newText : jsstring) (position : option Z) (w : World) :
  fst (WordTs.replaceInWord oldText newText position (doc w)) = true ->
  store (handleReplace normalize oldText newText position w)
  = store (fold_right (fun type => dismissSuggestion normalize type (trim oldText)) w
                      [d_spelling; d_tone; d_style; d_mixing; d_punct; d_euphony]).
Proof.
  intros Htrue.
  exact (proj1 (handleReplace_success_store oldText newText position w Htrue)).
Qed.

(** X13. After a replacement that succeeded, dismissing a text whose
    canonical key is that of the replaced text changes nothing, in whichever
    category: nothing about that text is left to dismiss. *)
Theorem dismissSuggestion_after_apply_changes_nothing
        (oldText newText : jsstring) (position : option Z) (w : World)
        (type : DismissType) (text : jsstring) :
  fst (WordTs.replaceInWord oldText newText position (doc w)) = true ->
  normalize text = normalize (trim oldText) ->
  dismissSuggestion normalize type text
    (handleReplace normalize oldText newText position w)
  = handleReplace normalize oldText newText position w.
Proof.
  intros Htrue Hkey.
  destruct (handleReplace_success_store oldText newText position w Htrue)
    as (_ & Hgone & Hmix).
  apply dismiss_absent_key.
  - rewrite Hkey. apply Hgone.
  - intros _. exact Hmix.
Qed.

End StoreComposition.

(* ================================================================== *)
(** ** The outcome of a check *)
(* ================================================================== *)

Section CycleOutcome.

Context {host : WordHost}.

(** X14. The suggestions and the statistics at the end of a check that runs
    depend on the settings and on the document only: two states with the same
    settings and the same document end with the same store, whatever they
    held before. *)
Theorem checkSpelling_discards_previous_store (p : Provider) (w1 w2 : World) :
  cycle_runs w1 ->
  settings w2 = settings w1 ->
  doc w2 = doc w1 ->
  store (@checkSpelling host p w2) = store (@checkSpelling host p w1).
Proof.
  intros Hruns Hs Hd.
  assert (Hruns2 : cycle_runs w2).
  { unfold cycle_runs, fetched_text in *. now rewrite Hs, Hd. }
  destruct (@checkSpelling_cycle host p w1 Hruns) as (_ & H1 & _).
  destruct (@checkSpelling_cycle host p w2 Hruns2) as (_ & H2 & _).
  rewrite H1, H2. unfold fetched_text. now rewrite Hs, Hd.
Qed.

(** X15. At the end of a check that runs, the stored word count is positive
    exactly when the provider call of the main check succeeded; it is then
    the number of whitespace-delimited tokens of the text that was read.
    When that call failed the statistics are the initial ones, [0], [0] and
    [100], so that the statistics grid, shown for [totalWords > 0], is not
    rendered. *)
Theorem stats_show_words_iff_main_check_succeeded (p : Provider) (w : World) :
  cycle_runs w ->
  let st := stats (store (@checkSpelling host p w)) in
  let main := @callGeminiJson p (main_request (fetched_text w) (settings w)) in
  ((0 < Stats.totalWords st)%N <-> main <> None)
  /\ (main <> None -> Stats.totalWords st = count_tokens (fetched_text w))
  /\ (main = None -> st = Stats.initial).
Proof.
  intros Hruns st main.
  destruct (@checkSpelling_cycle host p w Hruns) as (_ & Hstore & _).
  subst st. rewrite Hstore. cbn [cycle_store stats]. unfold stats_outcome.
  fold main. destruct Hruns as [_ Hblank].
  assert (Hwords : (0 < count_words (fetched_text w))%N).
  { destruct (N.eq_dec (count_words (fetched_text w)) 0) as [H0|H0]; [|lia].
    apply count_words_zero_iff in H0. contradiction. }
  destruct main as [r|].
  - unfold stats_of. cbn [Stats.totalWords].
    split; [split; [discriminate | intros _; exact Hwords]|].
    split; [intros _; apply count_words_is_token_count | intros H; discriminate].
  - split; [split; [intros H; vm_compute in H; discriminate | intros H; now elim H]|].
    split; [intros H; now elim H | reflexivity].
Qed.


End CycleOutcome.

Section FinalDocument.

Context {host : WordHost} {provider : Provider}.

(** *** The document at the end of a check *)

Lemma fold_fire_doc (q : list Timer) :
  flat_map scheduled q = [] ->
  forall w, doc (fold_left fire q w) = doc w.
Proof.
  induction q as [|tm q IH]; intros Hnone w; [reflexivity|].
  cbn [flat_map] in Hnone. apply app_eq_nil in Hnone. destruct Hnone as [Htm Hq].
  cbn [fold_left]. rewrite (IH Hq).
  unfold fire, run_callback, scheduled in *.
  destruct (callback tm); [reflexivity | discriminate].
Qed.

Lemma advance_doc (t : N) (w : World) :
  pending_highlights w = [] -> doc (advance t w) = doc w.
Proof.
  rewrite pending_highlights_scheduled. intros Hnone. unfold advance.
  cbn [set_clock doc]. rewrite fold_fire_doc; [reflexivity|].
  rewrite (proj1 (scheduled_filter_due t (timers w))), Hnone. reflexivity.
Qed.

Lemma run_cycle_doc (text : jsstring) (w : World) :
  store w = empty_store ->
  pending_highlights w = [] ->
  doc (run_cycle text w)
  = snd (WordTs.highlightMultipleInWord (cycle_items text (settings w)) (doc w)).
Proof.
  intros Hstore Hnone. unfold run_cycle. rewrite Promise_all_closed.
  set (settled := N.max _ _). set (w5 := with_store _ _).
  assert (Hdoc : doc (advance settled w5) = doc w).
  { rewrite advance_doc; [reflexivity | exact Hnone]. }
  cbn [nth].
  destruct (results_of_values text (settings w)) as (R1 & R2 & R3).
  rewrite R1, R2, R3. fold (cycle_items text (settings w)).
  destruct (cycle_items text (settings w)) as [|item items].
  - cbn [List.length N.of_nat N.ltb N.compare WordTs.highlightMultipleInWord snd].
    exact Hdoc.
  - replace (0 <? N.of_nat (List.length (item :: items)))%N with true
      by (symmetry; apply length_pos_iff; discriminate).
    unfold call_highlightMultipleInWord. cbn [set_doc doc].
    change (doc (setLoadingText loading_highlighting (advance settled w5)))
      with (doc (advance settled w5)).
    rewrite Hdoc. reflexivity.
Qed.

(** X17. When no hover highlight is waiting, the document at the end of a
    check that runs is the document as [clearHighlights] leaves it, with the
    batch highlight of the spelling, tone and style suggestions of the check
    applied to it. *)
Theorem checkSpelling_final_document (w : World) :
  cycle_runs w ->
  pending_highlights w = [] ->
  doc (checkSpelling w)
  = snd (WordTs.highlightMultipleInWord
           (cycle_items (fetched_text w) (settings w))
           (snd (WordTs.clearHighlights (doc w)))).
Proof.
  intros Hruns Hnone. rewrite (checkSpelling_runs w Hruns).
  set (w0 := call_clearHighlights _).
  change (doc (setLoadingText loading_empty
                 (setIsLoading false (run_cycle (fetched_text w) w0))))
    with (doc (run_cycle (fetched_text w) w0)).
  rewrite run_cycle_doc; [reflexivity | reflexivity | exact Hnone].
Qed.

End FinalDocument.

(* ================================================================== *)
(** ** The message timer and the scheduled highlight *)
(* ================================================================== *)

Section MessageTimer.

Context {host : WordHost} {provider : Provider}.
Variable normalize : jsstring -> jsstring.

Lemma message_ok_same (w w' : World) :
  timer_view w' = timer_view w -> message_ok w -> message_ok w'.
Proof.
  unfold timer_view, message_ok. intros Hview.
  injection Hview as -> -> -> -> ->. exact (fun H => H).
Qed.

Lemma one_pending_same (w w' : World) :
  timer_view w' = timer_view w -> one_pending w -> one_pending w'.
Proof.
  unfold timer_view, one_pending. rewrite !pending_highlights_scheduled.
  intros Hview. injection Hview as -> _ _ _ ->. exact (fun H => H).
Qed.

(** *** What firing timers does to the message *)

Lemma fold_fire_message (q : list Timer) :
  forall w,
    message (ui (fold_left fire q w)) = None
    \/ (message (ui (fold_left fire q w)) = message (ui w)
        /\ forall tm, In tm q -> callback tm <> cb_clear_message).
Proof.
  induction q as [|tm q IH]; intros w; cbn [fold_left].
  - right. split; [reflexivity | intros tm []].
  - destruct (IH (fire w tm)) as [Hnone | [Hsame Hall]]; [now left|].
    assert (Hfire : match callback tm with
                    | cb_clear_message => message (ui (fire w tm)) = None
                    | cb_highlight _ _ _ => message (ui (fire w tm)) = message (ui w)
                    end).
    { unfold fire, run_callback. destruct (callback tm); reflexivity. }
    destruct (callback tm) as [|text color position] eqn:Hcb.
    + left. rewrite Hsame. exact Hfire.
    + right. split; [rewrite Hsame; exact Hfire|].
      intros tm' [<-|Hin]; [congruence | now apply Hall].
Qed.

Lemma advance_message (t : N) (w : World) :
  message (ui (advance t w)) = None
  \/ (message (ui (advance t w)) = message (ui w)
      /\ forall tm, In tm (timers w) -> callback tm = cb_clear_message ->
                    (t < due tm)%N).
Proof.
  unfold advance.
  destruct (fold_fire_message (filter (fun tm => (due tm <=? t)%N) (timers w))
              (set_timers (filter (fun tm => negb (due tm <=? t)%N) (timers w)) w))
    as [Hnone | [Hsame Hall]]; [now left|].
  right. split; [exact Hsame|].
  intros tm Hin Hcb. destruct (due tm <=? t)%N eqn:Hdue.
  - elim (Hall tm); [|exact Hcb]. apply filter_In. now split.
  - apply N.leb_gt in Hdue. exact Hdue.
Qed.

(** *** The message invariant, step by step *)

Lemma showMessage_message_ok (text : MessageText) (type : MessageType.t) (w : World) :
  message_ok w -> message_ok (showMessage text type w).
Proof.
  intros (Href & Hhandles & Hclear & _).
  unfold message_ok.
  cbn [showMessage setTimeout snd set_next_handle set_timers setMessage with_ui
       highlightTimeoutRef next_handle timers ui message clock].
  split; [|split; [|split]].
  - intros h Hh. specialize (Href h Hh). lia.
  - intros tm Hin. apply in_enqueue in Hin. destruct Hin as [->|Hin].
    + cbn [handle]. lia.
    + specialize (Hhandles tm Hin). lia.
  - intros tm Hin Hcb. apply in_enqueue in Hin. destruct Hin as [->|Hin].
    + cbn [handle]. intros Hh. specialize (Href _ Hh). lia.
    + now apply Hclear.
  - intros _. eexists. split; [apply in_enqueue; left; reflexivity|].
    split; [reflexivity|]. cbn [due]. lia.
Qed.

Lemma handleHighlight_message_ok (text color : jsstring) (position : option Z)
      (w : World) :
  message_ok w -> message_ok (handleHighlight text color position w).
Proof.
  intros (Href & Hhandles & Hclear & Hmsg).
  set (w1 := match highlightTimeoutRef w with
             | Some h => if (h =? 0)%N then w else clearTimeout h w
             | None => w
             end).
  assert (Hw1 : (forall tm, In tm (timers w1) -> In tm (timers w))
                /\ (forall tm, In tm (timers w) -> callback tm = cb_clear_message ->
                               In tm (timers w1))
                /\ next_handle w1 = next_handle w
                /\ message (ui w1) = message (ui w)
                /\ clock w1 = clock w).
  { subst w1. destruct (highlightTimeoutRef w) as [h|] eqn:Hr;
      [destruct (h =? 0)%N|]; try (repeat split; now auto).
    cbn [clearTimeout set_timers timers next_handle ui clock].
    repeat split.
    - intros tm Hin. apply filter_In in Hin. tauto.
    - intros tm Hin Hcb. apply filter_In. split; [exact Hin|].
      apply negb_true_iff, N.eqb_neq. intros Heq.
      apply (Hclear tm Hin Hcb). congruence. }
  destruct Hw1 as (Hsub & Hkeep & Hnext & Hm & Hclock).
  change (handleHighlight text color position w)
    with (set_ref (Some (next_handle w1))
            (snd (setTimeout (cb_highlight text color position) 300 w1))).
  unfold message_ok.
  cbn [setTimeout snd set_ref set_next_handle set_timers highlightTimeoutRef
       next_handle timers ui message clock].
  rewrite Hnext, Hm, Hclock.
  split; [|split; [|split]].
  - intros h Hh. injection Hh as <-. lia.
  - intros tm Hin. apply in_enqueue in Hin. destruct Hin as [->|Hin].
    + cbn [handle]. lia.
    + specialize (Hhandles tm (Hsub tm Hin)). lia.
  - intros tm Hin Hcb. apply in_enqueue in Hin. destruct Hin as [->|Hin].
    + discriminate.
    + specialize (Hhandles tm (Hsub tm Hin)). intros Heq. injection Heq as Heq. lia.
  - intros Hshown. destruct (Hmsg Hshown) as (tm & Hin & Hcb & Hdue).
    exists tm. split; [|split; [exact Hcb | exact Hdue]].
    apply in_enqueue. right. now apply Hkeep.
Qed.

Lemma advance_message_ok (t : N) (w : World) :
  message_ok w -> message_ok (advance t w).
Proof.
  intros (Href & Hhandles & Hclear & Hmsg).
  pose proof (advance_message t w) as Hadv.
  unfold advance in *.
  set (due_now := filter (fun tm => (due tm <=? t)%N) (timers w)) in *.
  set (later := filter (fun tm => negb (due tm <=? t)%N) (timers w)) in *.
  destruct (fold_fire_highlights due_now (set_timers later w)) as (_ & F2 & F3 & F4).
  unfold message_ok.
  cbn [set_clock highlightTimeoutRef next_handle timers ui clock] in *.
  rewrite F2, F3, F4. cbn [set_timers highlightTimeoutRef next_handle timers].
  split; [exact Href|]. split; [|split].
  - intros tm Hin. apply filter_In in Hin. now apply Hhandles.
  - intros tm Hin Hcb. apply filter_In in Hin. now apply Hclear.
  - intros Hshown. destruct Hadv as [Hnone | [Hsame Hall]]; [contradiction|].
    rewrite Hsame in Hshown. cbn [set_timers ui] in Hshown.
    destruct (Hmsg Hshown) as (tm & Hin & Hcb & Hdue).
    exists tm. split; [|split; [exact Hcb | lia]].
    apply filter_In. split; [exact Hin|].
    apply negb_true_iff, N.leb_gt. now apply Hall.
Qed.

Lemma handleReplace_message_ok (oldText newText : jsstring) (position : option Z)
      (w : World) :
  message_ok w -> message_ok (handleReplace normalize oldText newText position w).
Proof.
  intros Hok. unfold handleReplace, call_replaceInWord.
  destruct (WordTs.replaceInWord oldText newText position (doc w)) as [ok d].
  destruct ok; apply showMessage_message_ok;
    (eapply message_ok_same; [|exact Hok]; reflexivity).
Qed.

Lemma dismissSuggestion_message_ok (type : DismissType) (textToDismiss : jsstring)
      (w : World) :
  message_ok w -> message_ok (dismissSuggestion normalize type textToDismiss w).
Proof.
  intros Hok. destruct type; (eapply message_ok_same; [|exact Hok]; reflexivity).
Qed.

Lemma run_cycle_message_ok (text : jsstring) (w : World) :
  message_ok w -> message_ok (run_cycle text w).
Proof.
  intros Hok. unfold run_cycle. rewrite Promise_all_closed.
  set (settled := N.max _ _). set (w5 := with_store _ _).
  assert (Hok5 : message_ok w5).
  { eapply message_ok_same; [|exact Hok]; reflexivity. }
  pose proof (advance_message_ok settled w5 Hok5) as Hadv.
  destruct (0 <? _)%N; (eapply message_ok_same; [|exact Hadv]; reflexivity).
Qed.

Lemma checkSpelling_message_ok (w : World) :
  message_ok w -> message_ok (checkSpelling w).
Proof.
  intros Hok. unfold checkSpelling.
  destruct (negb (truthy (apiKey (settings w)))).
  - eapply message_ok_same;
      [|exact (showMessage_message_ok msg_need_api_key MessageType.error w Hok)];
      reflexivity.
  - unfold call_getTextFromWord.
    destruct (WordTs.getTextFromWord (doc w)) as [text d].
    assert (Hok1 : message_ok (set_doc d (log ev_getTextFromWord w))).
    { eapply message_ok_same; [|exact Hok]; reflexivity. }
    destruct (negb (truthy text) || _).
    + now apply showMessage_message_ok.
    + eapply message_ok_same;
        [|apply (run_cycle_message_ok text); eapply message_ok_same; [|exact Hok1]];
        reflexivity.
Qed.

Lemma message_ok_reachable (w : World) :
  reachable normalize w -> message_ok w.
Proof.
  induction 1 as [s d | a w Hreach IH].
  - unfold message_ok, mounted. cbn [highlightTimeoutRef timers ui message].
    split; [discriminate|]. split; [intros tm []|].
    split; [intros tm [] | intros H; now elim H].
  - destruct a; cbn [act].
    + now apply handleHighlight_message_ok.
    + now apply handleReplace_message_ok.
    + now apply dismissSuggestion_message_ok.
    + now apply checkSpelling_message_ok.
    + now apply advance_message_ok.
Qed.

(** X18. In every state that the component reaches by hovers, replacements,
    dismissals, checks and the passing of time, the ref of the hover
    debouncer does not hold the handle of a timer that clears the message, a
    message that is shown has a pending timer that clears it within 4000 ms,
    and once 4000 ms have passed without a handler being called the message
    is null. *)
Theorem message_is_cleared_within_4_seconds (w : World) :
  reachable normalize w ->
  (forall tm, In tm (timers w) -> callback tm = cb_clear_message ->
              highlightTimeoutRef w <> Some (handle tm))
  /\ (message (ui w) <> None ->
      exists tm, In tm (timers w) /\ callback tm = cb_clear_message
                 /\ (due tm <= clock w + 4000)%N)
  /\ (forall t, (clock w + 4000 <= t)%N -> message (ui (advance t w)) = None).
Proof.
  intros Hreach.
  destruct (message_ok_reachable w Hreach) as (_ & _ & Hkept & Hmsg).
  split; [exact Hkept|]. split; [exact Hmsg|]. intros t Ht.
  destruct (advance_message t w) as [Hnone | [Hsame Hall]]; [exact Hnone|].
  rewrite Hsame. destruct (message (ui w)) as [m|] eqn:Hm; [|reflexivity].
  destruct Hmsg as (tm & Hin & Hcb & Hdue); [discriminate|].
  specialize (Hall tm Hin Hcb). lia.
Qed.

(** X19. [showMessage] does not cancel the timer of the message before: a
    message shown [d] ms after another one, with [d < 4000], is cleared when
    the timer of the first one fires, [4000 - d] ms after it appeared. *)
Theorem later_message_is_cleared_by_earlier_timer
        (w : World) (text1 text2 : MessageText) (type1 type2 : MessageType.t) (d : N) :
  (d < 4000)%N ->
  let w' := showMessage text2 type2
              (advance (clock w + d) (showMessage text1 type1 w)) in
  message (ui w') = Some (text2, type2)
  /\ clock w' = (clock w + d)%N
  /\ message (ui (advance (clock w + 4000) w')) = None.
Proof.
  intros Hd w'. subst w'.
  set (w1 := showMessage text1 type1 w).
  set (first := mkTimer (next_handle w) (clock w + 4000) cb_clear_message).
  assert (Hin1 : In first (timers w1)).
  { subst w1. cbn [showMessage setTimeout snd set_next_handle set_timers timers
                   setMessage with_ui clock next_handle].
    apply in_enqueue. now left. }
  set (w2 := advance (clock w + d) w1).
  assert (Hin2 : In first (timers w2)).
  { subst w2. unfold advance. cbn [set_clock timers].
    destruct (fold_fire_highlights
                (filter (fun tm => (due tm <=? clock w + d)%N) (timers w1))
                (set_timers (filter (fun tm => negb (due tm <=? clock w + d)%N)
                                    (timers w1)) w1)) as (_ & F2 & _).
    rewrite F2. cbn [set_timers timers]. apply filter_In. split; [exact Hin1|].
    apply negb_true_iff, N.leb_gt. cbn [first due]. lia. }
  assert (Hclock2 : clock w2 = (clock w + d)%N).
  { subst w2. unfold advance. cbn [set_clock clock].
    change (clock w1) with (clock w). lia. }
  split; [reflexivity|]. split; [exact Hclock2|].
  set (w3 := showMessage text2 type2 w2).
  destruct (advance_message (clock w + 4000) w3) as [Hnone | [_ Hall]]; [exact Hnone|].
  assert (Hin3 : In first (timers w3)).
  { subst w3. cbn [showMessage setTimeout snd set_next_handle set_timers timers
                   setMessage with_ui clock next_handle].
    apply in_enqueue. now right. }
  specialize (Hall first Hin3 eq_refl). cbn [first due] in Hall. lia.
Qed.

End MessageTimer.

Section ScheduledHighlight.

Context {host : WordHost} {provider : Provider}.
Variable normalize : jsstring -> jsstring.

Lemma scheduled_enqueue_clear (tm : Timer) (q : list Timer) :
  scheduled tm = [] ->
  flat_map scheduled (enqueue tm q) = flat_map scheduled q.
Proof.
  intros Hnone. induction q as [|y q IH]; cbn [enqueue flat_map].
  - rewrite Hnone. reflexivity.
  - destruct (due y <=? due tm)%N; cbn [flat_map].
    + now rewrite IH.
    + now rewrite Hnone.
Qed.

Lemma showMessage_pending (text : MessageText) (type : MessageType.t) (w : World) :
  pending_highlights (showMessage text type w) = pending_highlights w
  /\ clock (showMessage text type w) = clock w.
Proof.
  rewrite !pending_highlights_scheduled.
  cbn [showMessage setTimeout snd set_next_handle set_timers timers setMessage
       with_ui clock].
  split; [|reflexivity]. now apply scheduled_enqueue_clear.
Qed.

Lemma showMessage_one_pending (text : MessageText) (type : MessageType.t) (w : World) :
  one_pending w -> one_pending (showMessage text type w).
Proof.
  unfold one_pending. destruct (showMessage_pending text type w) as [-> ->].
  exact (fun H => H).
Qed.

Lemma advance_one_pending (t : N) (w : World) :
  one_pending w -> one_pending (advance t w).
Proof.
  intros [Hlen Hdue]. destruct (advance_highlights t w) as (_ & Hp & Hc & _).
  unfold one_pending. rewrite Hp, Hc. split.
  - etransitivity; [apply filter_length_le | exact Hlen].
  - intros x Hin. apply filter_In in Hin. destruct Hin as [Hin _].
    specialize (Hdue x Hin). lia.
Qed.

Lemma handleReplace_one_pending (oldText newText : jsstring) (position : option Z)
      (w : World) :
  one_pending w -> one_pending (handleReplace normalize oldText newText position w).
Proof.
  intros Hok. unfold handleReplace, call_replaceInWord.
  destruct (WordTs.replaceInWord oldText newText position (doc w)) as [ok d].
  destruct ok; apply showMessage_one_pending;
    (eapply one_pending_same; [|exact Hok]; reflexivity).
Qed.

Lemma run_cycle_one_pending (text : jsstring) (w : World) :
  one_pending w -> one_pending (run_cycle text w).
Proof.
  intros Hok. unfold run_cycle. rewrite Promise_all_closed.
  set (settled := N.max _ _). set (w5 := with_store _ _).
  assert (Hok5 : one_pending w5).
  { eapply one_pending_same; [|exact Hok]; reflexivity. }
  pose proof (advance_one_pending settled w5 Hok5) as Hadv.
  destruct (0 <? _)%N; (eapply one_pending_same; [|exact Hadv]; reflexivity).
Qed.

Lemma checkSpelling_one_pending (w : World) :
  one_pending w -> one_pending (checkSpelling w).
Proof.
  intros Hok. unfold checkSpelling.
  destruct (negb (truthy (apiKey (settings w)))).
  - eapply one_pending_same;
      [|exact (showMessage_one_pending msg_need_api_key MessageType.error w Hok)];
      reflexivity.
  - unfold call_getTextFromWord.
    destruct (WordTs.getTextFromWord (doc w)) as [text d].
    assert (Hok1 : one_pending (set_doc d (log ev_getTextFromWord w))).
    { eapply one_pending_same; [|exact Hok]; reflexivity. }
    destruct (negb (truthy text) || _).
    + now apply showMessage_one_pending.
    + eapply one_pending_same;
        [|apply (run_cycle_one_pending text); eapply one_pending_same; [|exact Hok1]];
        reflexivity.
Qed.

(** X20. In every state that the component reaches by hovers, replacements,
    dismissals, checks and the passing of time, at most one hover highlight
    is scheduled, and it is due within 300 ms. *)
Theorem at_most_one_highlight_is_scheduled (w : World) :
  reachable normalize w ->
  (List.length (pending_highlights w) <= 1)%nat
  /\ forall t e, In (t, e) (pending_highlights w) -> (t <= clock w + 300)%N.
Proof.
  intros Hreach.
  enough (Hone : one_pending w).
  { destruct Hone as [Hlen Hdue]. split; [exact Hlen|].
    intros t e Hin. exact (Hdue (t, e) Hin). }
  induction Hreach as [s d | a w Hreach IH].
  - split; [apply le_0_n | intros x []].
  - destruct a; cbn [act].
    + destruct (handleHighlight_reschedules text color position w
                  (debouncer_ok_reachable normalize w Hreach)) as (Hp & _ & _ & Hc).
      unfold one_pending. rewrite Hp, Hc. split; [apply le_n|].
      intros x [<-|[]]. apply N.le_refl.
    + now apply handleReplace_one_pending.
    + destruct type; (eapply one_pending_same; [|exact IH]; reflexivity).
    + now apply checkSpelling_one_pending.
    + now apply advance_one_pending.
Qed.

End ScheduledHighlight.

(* ================================================================== *)
(** ** The suggestion cards *)
(* ================================================================== *)

Section Cards.

Context {host : WordHost} {provider : Provider}.
Variable normalize : jsstring -> jsstring.

Lemma in_section_cards (v : View) (key : SectionKey) (present : bool)
      (items : list Card) (c : Card) :
  In c (section_cards v key present items)
  <-> present = true /\ shown v key = true /\ In c items.
Proof.
  unfold section_cards, shown.
  destruct present, (shouldShowSection v key), (collapsedSections v key);
    cbn [andb negb In]; intuition congruence.
Qed.

Lemma nonempty_present {A} (x : A) (xs : list A) :
  In x xs -> (0 <? N.of_nat (List.length xs))%N = true.
Proof.
  intros Hin. apply length_pos_iff. intros ->. destruct Hin.
Qed.

(** A card is rendered exactly when its section is open and the store holds
    its suggestion. *)
Lemma in_cards (v : View) (w : World) (c : Card) :
  In c (cards v w) <-> shown v (section c) = true /\ card_source w c.
Proof.
  unfold cards, card_source. rewrite !in_app_iff. split.
  - intros [H|[H|[H|[H|[H|H]]]]].
    + apply in_section_cards in H. destruct H as (_ & Hs & Hin).
      apply in_map_iff in Hin. destruct Hin as [x [<- Hx]].
      split; [exact Hs|]. left. now exists x.
    + apply in_section_cards in H. destruct H as (_ & Hs & Hin).
      apply in_map_iff in Hin. destruct Hin as [x [<- Hx]].
      split; [exact Hs|]. right. left. now exists x.
    + apply in_section_cards in H. destruct H as (_ & Hs & Hin).
      apply in_map_iff in Hin. destruct Hin as [x [<- Hx]].
      split; [exact Hs|]. right. right. left. now exists x.
    + destruct (languageStyleMixing (store w)) as [m|]; [|destruct H].
      apply in_section_cards in H. destruct H as (Hp & Hs & Hin).
      apply in_map_iff in Hin. destruct Hin as [x [<- Hx]].
      apply andb_true_iff in Hp. destruct Hp as [Hd Hsty].
      split; [exact Hs|]. right. right. right. left.
      destruct (StyleMixing.corrections m) as [cs|] eqn:Hcs; [|destruct Hx].
      exists m, cs, x. repeat split; try assumption.
      destruct (selectedStyle (settings w)); [reflexivity | discriminate | discriminate].
    + apply in_section_cards in H. destruct H as (_ & Hs & Hin).
      apply in_map_iff in Hin. destruct Hin as [x [<- Hx]].
      split; [exact Hs|]. right. right. right. right. left. now exists x.
    + apply in_section_cards in H. destruct H as (_ & Hs & Hin).
      apply in_map_iff in Hin. destruct Hin as [x [<- Hx]].
      split; [exact Hs|]. right. right. right. right. right. now exists x.
  - intros [Hs [H|[H|[H|[H|[H|H]]]]]].
    + destruct H as [x [Hx ->]]. left. apply in_section_cards.
      split; [now apply (nonempty_present x)|]. split; [exact Hs|].
      now apply in_map.
    + destruct H as [x [Hx ->]]. right. left. apply in_section_cards.
      split; [now apply (nonempty_present x)|]. split; [exact Hs|].
      now apply in_map.
    + destruct H as [x [Hx ->]]. right. right. left. apply in_section_cards.
      split; [now apply (nonempty_present x)|]. split; [exact Hs|].
      now apply in_map.
    + destruct H as (m & cs & x & Hm & Hd & Hsty & Hcs & Hx & ->).
      right. right. right. left. rewrite Hm. apply in_section_cards.
      rewrite Hd, Hsty, Hcs. split; [reflexivity|]. split; [exact Hs|].
      now apply in_map.
    + destruct H as [x [Hx ->]]. right. right. right. right. left.
      apply in_section_cards.
      split; [now apply (nonempty_present x)|]. split; [exact Hs|].
      now apply in_map.
    + destruct H as [x [Hx ->]]. right. right. right. right. right.
      apply in_section_cards.
      split; [now apply (nonempty_present x)|]. split; [exact Hs|].
      now apply in_map.
Qed.

(** The dismiss button of a card names the category of its section and the
    card's text, and that text is a live key of the category. *)
Lemma card_source_live (w : World) (c : Card) :
  card_source w c ->
  exists type,
    dismiss_btn c = act_dismiss type (card_text c)
    /\ section c = section_of type
    /\ In (normalize (card_text c)) (live_keys normalize type (store w))
    /\ forall a, In a (suggestion_btns c) ->
                 exists newText position, a = act_apply (card_text c) newText position.
Proof.
  intros [H|[H|[H|[H|[H|H]]]]].
  - destruct H as [x [Hx ->]]. exists d_spelling. repeat split.
    + cbn [live_keys]. apply in_map_iff. now exists x.
    + intros a Ha. cbn [suggestion_btns spelling_card] in Ha.
      apply in_map_iff in Ha. destruct Ha as [s [<- _]]. now eexists _, _.
  - destruct H as [x [Hx ->]]. exists d_tone. repeat split.
    + cbn [live_keys]. apply in_map_iff. now exists x.
    + intros a [<-|[]]. now eexists _, _.
  - destruct H as [x [Hx ->]]. exists d_style. repeat split.
    + cbn [live_keys]. apply in_map_iff. now exists x.
    + intros a [<-|[]]. now eexists _, _.
  - destruct H as (m & cs & x & Hm & Hd & Hsty & Hcs & Hx & ->).
    exists d_mixing. repeat split.
    + cbn [live_keys]. rewrite Hm, Hcs. apply in_map_iff. now exists x.
    + intros a [<-|[]]. now eexists _, _.
  - destruct H as [x [Hx ->]]. exists d_punct. repeat split.
    + cbn [live_keys]. apply in_map_iff. now exists x.
    + intros a [<-|[]]. now eexists _, _.
  - destruct H as [x [Hx ->]]. exists d_euphony. repeat split.
    + cbn [live_keys]. apply in_map_iff. now exists x.
    + intros a Ha. cbn [suggestion_btns euphony_card] in Ha.
      apply in_map_iff in Ha. destruct Ha as [s [<- _]]. now eexists _, _.
Qed.

Lemma section_of_injective (type type' : DismissType) :
  section_of type = section_of type' -> type = type'.
Proof. destruct type, type'; (reflexivity || discriminate). Qed.

(** The dismissed key is not live in its category afterwards. *)
Lemma dismissed_key_not_live (type : DismissType) (text : jsstring) (w : World) :
  ~ In (normalize text)
       (live_keys normalize type (store (dismissSuggestion normalize type text w))).
Proof.
  intros Hin.
  assert (Hkeys : In (normalize text) (live_keys normalize type (store w))
                  /\ normalize text <> normalize text); [|now destruct Hkeys].
  destruct type.
  - now apply (keys_after_filter (fun c => normalize (Correction.wrong c))).
  - now apply (keys_after_filter (fun t => normalize (ToneSuggestion.current t))).
  - now apply (keys_after_filter (fun t => normalize (StyleSuggestion.current t))).
  - exact (proj1 (@prune_mixing_keys normalize (normalize text) _ (store w)
                     (store (dismissSuggestion normalize d_mixing text w))
                     eq_refl eq_refl (normalize text)) Hin).
  - now apply (keys_after_filter (fun t => normalize (PunctuationIssue.currentSentence t))).
  - now apply (keys_after_filter (fun t => normalize (EuphonyImprovement.current t))).
Qed.

(** X21. After a click on the dismiss button of a rendered card, no card of
    that section shows a text with the same canonical key, under any view
    filter and whatever is collapsed: the button names the category that its
    section renders and the text that the category is keyed by. *)
Theorem dismiss_button_removes_its_card (v v' : View) (w : World) (c : Card) :
  In c (cards v w) ->
  forall c', In c' (cards v' (act normalize (dismiss_btn c) w)) ->
             section c' = section c ->
             normalize (card_text c') <> normalize (card_text c).
Proof.
  intros Hc c' Hc' Hsec Hkey.
  apply in_cards in Hc. destruct Hc as [_ Hc].
  apply in_cards in Hc'. destruct Hc' as [_ Hc'].
  destruct (card_source_live w c Hc) as (type & Hbtn & Hs & _ & _).
  rewrite Hbtn in Hc'. cbn [act] in Hc'.
  destruct (card_source_live _ c' Hc') as (type' & _ & Hs' & Hlive & _).
  assert (type' = type) as ->.
  { apply section_of_injective. congruence. }
  rewrite Hkey in Hlive. exact (dismissed_key_not_live type (card_text c) w Hlive).
Qed.

End Cards.

Section CardHandlers.

Context {host : WordHost} {provider : Provider}.
Variable normalize : jsstring -> jsstring.

(** X22. After a click on a suggestion button of a rendered card whose
    replacement succeeds, no card of any section shows a text with the same
    canonical key as that card, provided the canonical key of the card's text
    does not depend on the whitespace around it. *)
Theorem suggestion_button_removes_cards_of_its_text
        (v v' : View) (w : World) (c : Card) (a : Action) :
  In c (cards v w) ->
  In a (suggestion_btns c) ->
  apply_succeeds a w = true ->
  normalize (trim (card_text c)) = normalize (card_text c) ->
  forall c', In c' (cards v' (act normalize a w)) ->
             normalize (card_text c') <> normalize (card_text c).
Proof.
  intros Hc Ha Hok Htrim c' Hc' Hkey.
  apply in_cards in Hc. destruct Hc as [_ Hc].
  apply in_cards in Hc'. destruct Hc' as [_ Hc'].
  destruct (card_source_live normalize w c Hc) as (type & _ & _ & _ & Hbtns).
  destruct (Hbtns a Ha) as (newText & position & ->).
  cbn [act apply_succeeds] in *.
  destruct (card_source_live normalize _ c' Hc') as (type' & _ & _ & Hlive & _).
  destruct (handleReplace_success_store normalize (card_text c) newText position w Hok)
    as (_ & Hgone & _).
  apply (Hgone type'). rewrite Htrim, <- Hkey. exact Hlive.
Qed.

(** *** Applying and dismissing only remove cards *)

Lemma prune_mixing_sub (f : jsstring -> bool) (prev : option StyleMixing.t)
      (m' : StyleMixing.t) (cs' : list StyleMixingCorrection.t) :
  prune_mixing f prev = Some m' ->
  StyleMixing.corrections m' = Some cs' ->
  exists m cs, prev = Some m /\ StyleMixing.corrections m = Some cs
               /\ StyleMixing.detected m = StyleMixing.detected m'
               /\ incl cs' cs.
Proof.
  unfold prune_mixing. destruct prev as [m|]; [|discriminate].
  destruct (StyleMixing.corrections m) as [cs|] eqn:Hcs.
  - destruct (0 <? _)%N; [|discriminate]. intros Hm. injection Hm as <-.
    cbn [StyleMixing.with_corrections StyleMixing.corrections StyleMixing.detected].
    intros Hcs'. injection Hcs' as <-. exists m, cs.
    repeat split; try assumption. intros x Hx. apply filter_In in Hx. tauto.
  - intros Hm. injection Hm as <-. congruence.
Qed.

Lemma card_source_pruned (w w' : World) (c : Card) :
  pruned w w' -> card_source w' c -> card_source w c.
Proof.
  intros (Hset & H1 & H2 & H3 & H5 & H6 & H4) [H|[H|[H|[H|[H|H]]]]].
  - destruct H as [x [Hx ->]]. left. exists x. split; [now apply H1 | reflexivity].
  - destruct H as [x [Hx ->]]. right. left. exists x.
    split; [now apply H2 | reflexivity].
  - destruct H as [x [Hx ->]]. right. right. left. exists x.
    split; [now apply H3 | reflexivity].
  - destruct H as (m' & cs' & x & Hm & Hd & Hsty & Hcs & Hx & ->).
    right. right. right. left. rewrite Hset in Hsty.
    destruct H4 as [Hsame | [f Hf]].
    + exists m', cs', x. rewrite <- Hsame. repeat split; assumption.
    + rewrite Hf in Hm.
      destruct (prune_mixing_sub f _ m' cs' Hm Hcs) as (m & cs & Hm0 & Hcs0 & Hd0 & Hincl).
      exists m, cs, x. repeat split; try assumption; [congruence | now apply Hincl].
  - destruct H as [x [Hx ->]]. right. right. right. right. left. exists x.
    split; [now apply H5 | reflexivity].
  - destruct H as [x [Hx ->]]. right. right. right. right. right. exists x.
    split; [now apply H6 | reflexivity].
Qed.

Lemma dismissSuggestion_pruned (type : DismissType) (text : jsstring) (w : World) :
  pruned w (dismissSuggestion normalize type text w).
Proof.
  destruct type; unfold pruned, dismissSuggestion;
    cbn [setCorrections setToneSuggestions setStyleSuggestions setLanguageStyleMixing
         setPunctuationIssues setEuphonyImprovements with_store store settings
         corrections toneSuggestions styleSuggestions languageStyleMixing
         punctuationIssues euphonyImprovements];
    repeat split;
    try apply incl_refl; try apply incl_filter; try (now left).
  right. eexists. reflexivity.
Qed.

Lemma handleReplace_pruned (oldText newText : jsstring) (position : option Z)
      (w : World) :
  pruned w (handleReplace normalize oldText newText position w).
Proof.
  unfold handleReplace, call_replaceInWord.
  destruct (WordTs.replaceInWord oldText newText position (doc w)) as [ok d].
  destruct ok.
  - unfold pruned. split; [reflexivity|].
    split; [apply incl_filter|]. split; [apply incl_filter|].
    split; [apply incl_filter|]. split; [apply incl_filter|].
    split; [apply incl_filter|]. right. eexists. reflexivity.
  - unfold pruned. repeat split; try apply incl_refl. now left.
Qed.

(** X23. Replacing and dismissing only take cards away: a card that is
    rendered after [handleReplace] or [dismissSuggestion] was rendered
    before, with the same handlers. *)
Theorem apply_and_dismiss_add_no_card (v : View) (w : World) (c : Card) :
  (forall oldText newText position,
      In c (cards v (handleReplace normalize oldText newText position w)) ->
      In c (cards v w))
  /\ (forall type textToDismiss,
         In c (cards v (dismissSuggestion normalize type textToDismiss w)) ->
         In c (cards v w)).
Proof.
  split.
  - intros oldText newText position Hc. apply in_cards in Hc. apply in_cards.
    destruct Hc as [Hs Hc]. split; [exact Hs|].
    exact (card_source_pruned _ _ c (handleReplace_pruned oldText newText position w) Hc).
  - intros type text Hc. apply in_cards in Hc. apply in_cards.
    destruct Hc as [Hs Hc]. split; [exact Hs|].
    exact (card_source_pruned _ _ c (dismissSuggestion_pruned type text w) Hc).
Qed.

(** *** The view only hides cards *)

Lemma filter_same_section (v : View) (key : SectionKey) (items : list Card) :
  (forall c, In c items -> section c = key) ->
  filter (fun c => shown v (section c)) items
  = if shown v key then items else [].
Proof.
  induction items as [|c items IH]; intros Hall.
  - now destruct (shown v key).
  - cbn [filter]. rewrite (Hall c (or_introl eq_refl)).
    rewrite IH by (intros c' Hc'; apply Hall; now right).
    now destruct (shown v key).
Qed.

Lemma section_cards_filter (v : View) (key : SectionKey) (present : bool)
      (items : list Card) :
  (forall c, In c items -> section c = key) ->
  section_cards v key present items
  = filter (fun c => shown v (section c)) (section_cards initial_view key present items).
Proof.
  intros Hall. unfold section_cards at 2. cbn [initial_view shouldShowSection
    viewFilter collapsedSections negb]. rewrite andb_true_r.
  unfold section_cards. destruct present; cbn [andb]; [|now destruct (shouldShowSection v key)].
  rewrite (filter_same_section v key items Hall). unfold shown.
  destruct (shouldShowSection v key), (collapsedSections v key); reflexivity.
Qed.

Lemma map_section {A} (card : A -> Card) (key : SectionKey) (xs : list A) :
  (forall x, section (card x) = key) ->
  forall c, In c (map card xs) -> section c = key.
Proof.
  intros Hkey c Hc. apply in_map_iff in Hc. destruct Hc as [x [<- _]]. apply Hkey.
Qed.

Lemma cards_filter_shown (v : View) (w : World) :
  cards v w = filter (fun c => shown v (section c)) (cards initial_view w).
Proof.
  unfold cards. rewrite !filter_app.
  rewrite <- !section_cards_filter
    by (apply map_section; reflexivity).
  destruct (languageStyleMixing (store w)) as [m|].
  - rewrite <- section_cards_filter by (apply map_section; reflexivity).
    reflexivity.
  - reflexivity.
Qed.

(** X24. The view filter and the collapsed sections only hide cards: the
    cards rendered under a view are those of the initial view, in the same
    order and with the same handlers, whose section passes the filter and is
    not collapsed. *)
Theorem view_only_hides_cards (v : View) (w : World) :
  cards v w = filter (fun c => shown v (section c)) (cards initial_view w)
  /\ forall c, In c (cards v w)
               <-> In c (cards initial_view w)
                   /\ shouldShowSection v (section c) = true
                   /\ collapsedSections v (section c) = false.
Proof.
  split; [apply cards_filter_shown|].
  intros c. rewrite cards_filter_shown, filter_In. unfold shown.
  rewrite andb_true_iff, negb_true_iff. tauto.
Qed.

(** *** Collapsing a section *)

Lemma SectionKey_eqb_eq (a b : SectionKey) : SectionKey_eqb a b = true <-> a = b.
Proof. destruct a, b; cbn; split; (reflexivity || discriminate). Qed.

Lemma shown_toggleSection (key k : SectionKey) (v : View) :
  shown (toggleSection key v) k
  = if SectionKey_eqb k key
    then shouldShowSection v key && collapsedSections v key
    else shown v k.
Proof.
  unfold shown, toggleSection, shouldShowSection. cbn [viewFilter collapsedSections].
  destruct (SectionKey_eqb k key) eqn:Hk; [|reflexivity].
  apply SectionKey_eqb_eq in Hk. subst k. now rewrite negb_involutive.
Qed.

Lemma filter_none {A} (f : A -> bool) (l : list A) :
  (forall x, In x l -> f x = false) -> filter f l = [].
Proof.
  induction l as [|x l IH]; intros Hall; [reflexivity|]. cbn [filter].
  rewrite (Hall x (or_introl eq_refl)). apply IH.
  intros y Hy. apply Hall. now right.
Qed.

(** X27. The collapse button of a section acts on the cards of that section
    only, hides them when the section was open, and a second click brings the
    rendered cards back to what they were. *)
Theorem toggleSection_affects_its_section_only (key : SectionKey) (v : View) (w : World) :
  cards (toggleSection key (toggleSection key v)) w = cards v w
  /\ filter (fun c => negb (SectionKey_eqb (section c) key))
            (cards (toggleSection key v) w)
     = filter (fun c => negb (SectionKey_eqb (section c) key)) (cards v w)
  /\ (collapsedSections v key = false ->
      filter (fun c => SectionKey_eqb (section c) key)
             (cards (toggleSection key v) w) = []).
Proof.
  split; [|split].
  - rewrite (cards_filter_shown (toggleSection key (toggleSection key v))),
      (cards_filter_shown v).
    apply filter_ext. intros c. rewrite !shown_toggleSection.
    destruct (SectionKey_eqb (section c) key) eqn:Hk; [|reflexivity].
    rewrite SectionKey_eqb_eq in Hk. rewrite Hk. unfold shown.
    assert (Hself : SectionKey_eqb key key = true) by now apply SectionKey_eqb_eq.
    unfold shouldShowSection, toggleSection. cbn [viewFilter collapsedSections].
    rewrite Hself. reflexivity.
  - rewrite (cards_filter_shown (toggleSection key v)), (cards_filter_shown v).
    rewrite !(filter_commutes (fun c => negb (SectionKey_eqb (section c) key))).
    apply filter_ext_in. intros c Hc. apply filter_In in Hc. destruct Hc as [_ Hc].
    rewrite shown_toggleSection. apply negb_true_iff in Hc. now rewrite Hc.
  - intros Hopen. rewrite (cards_filter_shown (toggleSection key v)).
    apply filter_none. intros c Hc. apply filter_In in Hc. destruct Hc as [_ Hc].
    rewrite shown_toggleSection in Hc.
    destruct (SectionKey_eqb (section c) key); [|reflexivity].
    rewrite Hopen, andb_false_r in Hc. discriminate.
Qed.

(** *** The batch highlight and the cards *)

Lemma open_section_cards (key : SectionKey) {A} (card : A -> Card) (xs : list A) :
  section_cards initial_view key (0 <? N.of_nat (List.length xs))%N (map card xs)
  = map card xs.
Proof.
  unfold section_cards. cbn [initial_view shouldShowSection viewFilter
    collapsedSections negb]. rewrite andb_true_r.
  destruct xs; reflexivity.
Qed.

Lemma filter_in_batch_all (items : list Card) :
  (forall c, In c items -> in_batch c = true) -> filter in_batch items = items.
Proof.
  induction items as [|c items IH]; intros Hall; [reflexivity|]. cbn [filter].
  rewrite (Hall c (or_introl eq_refl)), IH; [reflexivity|].
  intros c' Hc'. apply Hall. now right.
Qed.

Lemma filter_in_batch_none (items : list Card) :
  (forall c, In c items -> in_batch c = false) -> filter in_batch items = [].
Proof.
  induction items as [|c items IH]; intros Hall; [reflexivity|]. cbn [filter].
  rewrite (Hall c (or_introl eq_refl)), IH; [reflexivity|].
  intros c' Hc'. apply Hall. now right.
Qed.

Lemma in_batch_section (key : SectionKey) (v : View) (present : bool)
      (items : list Card) (b : bool) :
  (forall c, In c items -> section c = key) ->
  (forall c, section c = key -> in_batch c = b) ->
  forall c, In c (section_cards v key present items) -> in_batch c = b.
Proof.
  intros Hall Hb c Hc. apply in_section_cards in Hc. destruct Hc as (_ & _ & Hc).
  apply Hb. now apply Hall.
Qed.

Lemma hover_items_of_cards (w : World) :
  flat_map hover_item (filter in_batch (cards initial_view w))
  = highlightItems_of (corrections (store w)) (toneSuggestions (store w))
                      (styleSuggestions (store w)).
Proof.
  unfold cards, highlightItems_of. rewrite !filter_app, !open_section_cards.
  rewrite (filter_in_batch_all (map spelling_card _))
    by (intros c Hc; apply in_map_iff in Hc; destruct Hc as [x [<- _]]; reflexivity).
  rewrite (filter_in_batch_all (map tone_card _))
    by (intros c Hc; apply in_map_iff in Hc; destruct Hc as [x [<- _]]; reflexivity).
  rewrite (filter_in_batch_all (map style_card _))
    by (intros c Hc; apply in_map_iff in Hc; destruct Hc as [x [<- _]]; reflexivity).
  rewrite (filter_in_batch_none (map punctuation_card _))
    by (intros c Hc; apply in_map_iff in Hc; destruct Hc as [x [<- _]]; reflexivity).
  rewrite (filter_in_batch_none (map euphony_card _))
    by (intros c Hc; apply in_map_iff in Hc; destruct Hc as [x [<- _]]; reflexivity).
  assert (Hmix : filter in_batch
                   match languageStyleMixing (store w) with
                   | Some m =>
                       section_cards initial_view sec_mixing
                         (StyleMixing.detected m
                          && match selectedStyle (settings w) with
                             | none => true | _ => false end)
                         (map mixing_card (or_empty (StyleMixing.corrections m)))
                   | None => []
                   end = []).
  { destruct (languageStyleMixing (store w)) as [m|]; [|reflexivity].
    apply filter_in_batch_none.
    apply (in_batch_section sec_mixing).
    - apply map_section. reflexivity.
    - intros c Hc. unfold in_batch. now rewrite Hc. }
  rewrite Hmix. cbn [app]. rewrite app_nil_r.
  rewrite !flat_map_app, !flat_map_concat_map, !map_map.
  cbn [hover_item onMouseEnter spelling_card tone_card style_card].
  rewrite <- !flat_map_concat_map.
  assert (Hsingle : forall {A B} (f : A -> B) (xs : list A),
             flat_map (fun x => [f x]) xs = map f xs).
  { intros A B f xs. induction xs as [|x xs IH]; [reflexivity|].
    cbn [flat_map map app]. now rewrite IH. }
  rewrite !Hsingle. reflexivity.
Qed.

(** X25. The batch highlight at the end of a check that runs asks for what
    hovering over each card of the spelling, tone and style sections asks
    for, with the same colours and in the order of the cards; the cards of
    the mixing, punctuation and euphony sections are not part of it. *)
Theorem batch_highlight_is_hover_of_three_sections (w : World) :
  cycle_runs w ->
  let w' := checkSpelling w in
  batch_highlight_calls (trace w')
  = batch_highlight_calls (trace w)
    ++ batch_of (clock w')
         (flat_map hover_item (filter in_batch (cards initial_view w'))).
Proof.
  intros Hruns w'.
  destruct (checkSpelling_cycle w Hruns) as (_ & Hstore & _ & Hbatch & _ & _ & Hclock).
  fold w' in Hstore, Hbatch, Hclock.
  rewrite Hbatch, Hclock, hover_items_of_cards, Hstore. reflexivity.
Qed.

End CardHandlers.

(* ================================================================== *)
(** ** The accuracy for short texts *)
(* ================================================================== *)

Lemma same_number_eq (x y : number) : same_number x y = true <-> x = y.
Proof.
  destruct x as [a|a| |a m e], y as [b|b| |b m' e']; cbn [same_number];
    try (split; [discriminate | congruence]).
  - rewrite Bool.eqb_true_iff. split; congruence.
  - rewrite Bool.eqb_true_iff. split; congruence.
  - split; reflexivity.
  - rewrite !andb_true_iff, Bool.eqb_true_iff, Pos.eqb_eq, Z.eqb_eq.
    split; [intros [[-> ->] ->]; reflexivity | intros H; injection H; auto].
Qed.

Lemma in_upto (n k : N) : (k <= n)%N -> In k (upto n).
Proof.
  intros Hle. unfold upto. apply in_map_iff. exists (N.to_nat k).
  split; [apply N2Nat.id|]. apply in_seq. lia.
Qed.

Lemma is_exception_iff (words errorCount : N) :
  is_exception words errorCount = true <-> In (words, errorCount) rounding_exceptions.
Proof.
  unfold is_exception. rewrite existsb_exists. split.
  - intros [[w e] [Hin Heq]]. cbn [fst snd] in Heq.
    apply andb_true_iff in Heq. destruct Heq as [Hw He].
    apply N.eqb_eq in Hw. apply N.eqb_eq in He. now subst.
  - intros Hin. exists (words, errorCount). split; [exact Hin|].
    cbn [fst snd]. now rewrite !N.eqb_refl.
Qed.

Lemma accuracy_table_sound (bound : N) :
  accuracy_table bound = true ->
  forall words errorCount,
    (words <= bound)%N -> (errorCount <= words)%N ->
    rounds_as_expected words errorCount = true.
Proof.
  unfold accuracy_table. intros Htable words errorCount Hw He.
  rewrite forallb_forall in Htable. specialize (Htable words (in_upto bound words Hw)).
  rewrite forallb_forall in Htable. exact (Htable errorCount (in_upto words errorCount He)).
Qed.

Lemma accuracy_table_200 : accuracy_table 200 = true.
Proof. vm_compute. reflexivity. Qed.

(** X26. For a text of up to 200 words and an error count up to the word
    count, the accuracy that the code computes is the percentage of correct
    words rounded to the nearest integer, ties upwards, except for eight
    pairs of counts, for which it is one less; each of the eight is a tie. *)
Theorem accuracy_is_off_by_one_for_eight_inputs (words errorCount : N) :
  (words <= 200)%N ->
  (errorCount <= words)%N ->
  let exact := spec_accuracy (Z.of_N words) (Z.of_N errorCount) in
  (accuracy_of words errorCount = num exact
   <-> ~ In (words, errorCount) rounding_exceptions)
  /\ (In (words, errorCount) rounding_exceptions ->
      accuracy_of words errorCount = num (exact - 1)
      /\ ((200 * (Z.of_N words - Z.of_N errorCount)) mod (2 * Z.of_N words)
          = Z.of_N words)%Z).
Proof.
  intros Hw He exact.
  pose proof (accuracy_table_sound 200 accuracy_table_200 words errorCount Hw He)
    as Htable.
  unfold rounds_as_expected in Htable. fold exact in Htable.
  destruct (is_exception words errorCount) eqn:Hex.
  - apply is_exception_iff in Hex. apply andb_true_iff in Htable.
    destruct Htable as [Hless Hnot]. apply same_number_eq in Hless.
    apply negb_true_iff in Hnot. split.
    + split.
      * intros Heq. apply same_number_eq in Heq. congruence.
      * intros Hno. contradiction.
    + intros _. split; [exact Hless|]. clear - Hex.
      unfold rounding_exceptions in Hex. cbn [In] in Hex.
      repeat (destruct Hex as [Hex|Hex];
              [injection Hex as <- <-; reflexivity|]).
      destruct Hex.
  - apply same_number_eq in Htable. split.
    + split; [|intros _; exact Htable]. intros _ Hin.
      apply is_exception_iff in Hin. congruence.
    + intros Hin. apply is_exception_iff in Hin. congruence.
Qed.

(* ================================================================== *)
(** ** The further properties on concrete states *)
(* ================================================================== *)

(** *** word.ts *)

Lemma getTextFromWord_prefers_selection_witness :
  @run_available Fake.host Sample.document_selected = true
  /\ @selection_text Fake.host Sample.document_selected = Some (js "cat")
  /\ @WordTs.getTextFromWord Fake.host Sample.document_selected
     = (js "cat", Sample.document_selected).
Proof.
  split; [reflexivity|]. split; [reflexivity|].
  destruct (@getTextFromWord_prefers_selection Fake.host Sample.document_selected
              (js "cat") eq_refl eq_refl) as [Hselected _].
  destruct Hselected as [_ Hsame].
  - intros H. vm_compute in H. discriminate.
  - apply Hsame. vm_compute. intros [H|[H|[H|[]]]]; discriminate.
Defined.

Lemma nothing_found_changes_nothing_witness :
  (forall needle wholeWord,
      @body_search Fake.host needle wholeWord Example.document_empty = Some [])
  /\ @WordTs.replaceInWord Fake.host (js "teh") (js "the") None Example.document_empty
     = (false, Example.document_empty).
Proof.
  assert (Hnone : forall needle wholeWord,
             @body_search Fake.host needle wholeWord Example.document_empty = Some []).
  { intros needle [|]; reflexivity. }
  split; [exact Hnone|].
  exact (proj2 (proj2 (@nothing_found_changes_nothing Fake.host [] (js "teh") (js "the")
                         None Example.document_empty Hnone))).
Defined.

Lemma unavailable_host_changes_nothing_witness :
  @run_available Fake.host Example.document_unreadable = false
  /\ @WordTs.clearHighlights Fake.host Example.document_unreadable
     = (tt, Example.document_unreadable).
Proof.
  split; [reflexivity|].
  exact (proj2 (proj2 (proj2 (proj2
           (@unavailable_host_changes_nothing Fake.host [] (js "teh") (js "the") None
              Example.document_unreadable eq_refl))))).
Defined.

(** *** Dismissals and replacements *)

Lemma dismissSuggestion_of_absent_key_witness :
  ~ In (Fake.normalize (js "dog"))
       (live_keys Fake.normalize d_spelling (store Example.world1))
  /\ dismissSuggestion Fake.normalize d_spelling (js "dog") Example.world1
     = Example.world1.
Proof.
  assert (Habsent : ~ In (Fake.normalize (js "dog"))
                         (live_keys Fake.normalize d_spelling (store Example.world1))).
  { vm_compute. intros [H|[]]. discriminate. }
  split; [exact Habsent|].
  apply (proj1 (@dismissSuggestion_of_absent_key Fake.host Fake.normalize d_spelling
                  (js "dog") Example.world1 Habsent)).
  intros H. discriminate.
Defined.

Lemma handleReplace_prunes_like_six_dismissals_witness :
  fst (WordTs.replaceInWord Example.teh (js "the") None (doc Example.world1)) = true
  /\ store (handleReplace Fake.normalize Example.teh (js "the") None Example.world1)
     = store (fold_right
                (fun type => dismissSuggestion Fake.normalize type (trim Example.teh))
                Example.world1
                [d_spelling; d_tone; d_style; d_mixing; d_punct; d_euphony]).
Proof.
  split; [reflexivity|].
  exact (@handleReplace_prunes_like_six_dismissals Fake.host Fake.normalize
           Example.teh (js "the") None Example.world1 eq_refl).
Defined.

Lemma dismissSuggestion_after_apply_changes_nothing_witness :
  let w' := handleReplace Fake.normalize Example.teh (js "the") None Example.world1 in
  fst (WordTs.replaceInWord Example.teh (js "the") None (doc Example.world1)) = true
  /\ Fake.normalize (js "TEH") = Fake.normalize (trim Example.teh)
  /\ dismissSuggestion Fake.normalize d_tone (js "TEH") w' = w'.
Proof.
  split; [reflexivity|]. split; [reflexivity|].
  exact (@dismissSuggestion_after_apply_changes_nothing Fake.host Fake.normalize
           Example.teh (js "the") None Example.world1 d_tone (js "TEH")
           eq_refl eq_refl).
Defined.

(** *** The outcome of a check *)

Lemma world2_fresh_runs : cycle_runs Sample.world2_fresh.
Proof. split; [reflexivity | intros H; vm_compute in H; discriminate]. Defined.

Lemma checkSpelling_discards_previous_store_witness :
  cycle_runs Example.world2
  /\ settings Sample.world2_fresh = settings Example.world2
  /\ doc Sample.world2_fresh = doc Example.world2
  /\ store Sample.world2_fresh <> store Example.world2
  /\ store (@checkSpelling Fake.host Example.provider2 Sample.world2_fresh)
     = store (@checkSpelling Fake.host Example.provider2 Example.world2).
Proof.
  split; [exact world2_runs|]. split; [reflexivity|]. split; [reflexivity|].
  split; [intros H; discriminate H|].
  exact (@checkSpelling_discards_previous_store Fake.host Example.provider2
           Example.world2 Sample.world2_fresh world2_runs eq_refl eq_refl).
Defined.

Lemma stats_show_words_iff_main_check_succeeded_witness :
  cycle_runs Example.world2
  /\ Stats.totalWords
       (stats (store (@checkSpelling Fake.host Example.provider2 Example.world2)))
     = 3%N.
Proof.
  split; [exact world2_runs|].
  destruct (@stats_show_words_iff_main_check_succeeded Fake.host Example.provider2
              Example.world2 world2_runs) as (_ & Hwords & _).
  rewrite Hwords; [reflexivity | discriminate].
Defined.


Lemma checkSpelling_final_document_witness :
  cycle_runs Example.world2
  /\ pending_highlights Example.world2 = []
  /\ Fake.words (doc (@checkSpelling Fake.host Example.provider2 Example.world2))
     = [(js "teh", js "#fee2e2"); (js "cat", js "#fef3c7"); (js "sat", js "#ccfbf1")].
Proof.
  split; [exact world2_runs|]. split; [reflexivity|].
  rewrite (@checkSpelling_final_document Fake.host Example.provider2 Example.world2
             world2_runs eq_refl).
  vm_compute. reflexivity.
Defined.

(** *** Timers *)

Lemma world_not_found_reachable :
  @reachable Fake.host Example.provider2 Fake.normalize Sample.world_not_found.
Proof. apply reach_act, reach_mounted. Defined.

Lemma world_hovered_reachable :
  @reachable Fake.host Example.provider2 Fake.normalize Sample.world_hovered.
Proof. apply reach_act, reach_mounted. Defined.

Lemma message_is_cleared_within_4_seconds_witness :
  @reachable Fake.host Example.provider2 Fake.normalize Sample.world_not_found
  /\ message (ui Sample.world_not_found) = Some (msg_not_found, MessageType.error)
  /\ (clock Sample.world_not_found + 4000 <= 4000)%N
  /\ message (ui (advance 4000 Sample.world_not_found)) = None.
Proof.
  assert (Hlate : (clock Sample.world_not_found + 4000 <= 4000)%N).
  { vm_compute. intros H. discriminate. }
  split; [exact world_not_found_reachable|]. split; [reflexivity|].
  split; [exact Hlate|].
  exact (proj2 (proj2 (@message_is_cleared_within_4_seconds Fake.host
                         Example.provider2 Fake.normalize Sample.world_not_found
                         world_not_found_reachable)) 4000%N Hlate).
Defined.

Lemma later_message_is_cleared_by_earlier_timer_witness :
  let w' := showMessage msg_not_found MessageType.error
              (advance 3000 (showMessage msg_replaced MessageType.success
                                         Example.world1)) in
  (3000 < 4000)%N
  /\ message (ui w') = Some (msg_not_found, MessageType.error)
  /\ clock w' = 3000%N
  /\ message (ui (advance 4000 w')) = None.
Proof.
  split; [reflexivity|].
  exact (@later_message_is_cleared_by_earlier_timer Fake.host Example.world1
           msg_replaced msg_not_found MessageType.success MessageType.error 3000
           eq_refl).
Defined.

Lemma at_most_one_highlight_is_scheduled_witness :
  @reachable Fake.host Example.provider2 Fake.normalize Sample.world_hovered
  /\ pending_highlights Sample.world_hovered
     = [(300%N, ev_highlightInWord (js "teh") (js "#fee2e2") (Some 0%Z))]
  /\ (List.length (pending_highlights Sample.world_hovered) <= 1)%nat.
Proof.
  split; [exact world_hovered_reachable|]. split; [reflexivity|].
  exact (proj1 (@at_most_one_highlight_is_scheduled Fake.host Example.provider2
                  Fake.normalize Sample.world_hovered world_hovered_reachable)).
Defined.

(** *** Cards *)

Lemma dismiss_button_removes_its_card_witness :
  let w' := @act Fake.host Example.provider2 Fake.normalize
                 (dismiss_btn Sample.teh_card) Sample.world3 in
  In Sample.teh_card (cards initial_view Sample.world3)
  /\ In Sample.sta_card (cards initial_view w')
  /\ section Sample.sta_card = section Sample.teh_card
  /\ Fake.normalize (card_text Sample.sta_card)
     <> Fake.normalize (card_text Sample.teh_card).
Proof.
  assert (Hteh : In Sample.teh_card (cards initial_view Sample.world3)).
  { left. reflexivity. }
  assert (Hsta : In Sample.sta_card
                    (cards initial_view
                       (@act Fake.host Example.provider2 Fake.normalize
                             (dismiss_btn Sample.teh_card) Sample.world3))).
  { left. reflexivity. }
  split; [exact Hteh|]. split; [exact Hsta|]. split; [reflexivity|].
  exact (@dismiss_button_removes_its_card Fake.host Example.provider2 Fake.normalize
           initial_view initial_view Sample.world3 Sample.teh_card Hteh
           Sample.sta_card Hsta eq_refl).
Defined.

Lemma suggestion_button_removes_cards_of_its_text_witness :
  let a := act_apply (js "teh") (js "the") (Some 0%Z) in
  let w' := @act Fake.host Example.provider2 Fake.normalize a Example.world1 in
  In Sample.teh_card (cards initial_view Example.world1)
  /\ In a (suggestion_btns Sample.teh_card)
  /\ apply_succeeds a Example.world1 = true
  /\ Fake.normalize (trim (card_text Sample.teh_card))
     = Fake.normalize (card_text Sample.teh_card)
  /\ cards initial_view w' = [Sample.cat_card]
  /\ Fake.normalize (card_text Sample.cat_card)
     <> Fake.normalize (card_text Sample.teh_card).
Proof.
  assert (Hteh : In Sample.teh_card (cards initial_view Example.world1)).
  { left. reflexivity. }
  assert (Hbtn : In (act_apply (js "teh") (js "the") (Some 0%Z))
                    (suggestion_btns Sample.teh_card)).
  { left. reflexivity. }
  assert (Hcat : cards initial_view
                   (@act Fake.host Example.provider2 Fake.normalize
                         (act_apply (js "teh") (js "the") (Some 0%Z)) Example.world1)
                 = [Sample.cat_card]).
  { vm_compute. reflexivity. }
  split; [exact Hteh|]. split; [exact Hbtn|]. split; [reflexivity|].
  split; [reflexivity|]. split; [exact Hcat|].
  apply (@suggestion_button_removes_cards_of_its_text Fake.host Example.provider2
           Fake.normalize initial_view initial_view Example.world1 Sample.teh_card
           (act_apply (js "teh") (js "the") (Some 0%Z)) Hteh Hbtn eq_refl eq_refl).
  rewrite Hcat. left. reflexivity.
Defined.

Lemma batch_highlight_is_hover_of_three_sections_witness :
  let w' := @checkSpelling Fake.host Example.provider2 Example.world2 in
  cycle_runs Example.world2
  /\ batch_highlight_calls (trace w')
     = [(650%N, flat_map hover_item (filter in_batch (cards initial_view w')))].
Proof.
  split; [exact world2_runs|].
  rewrite (@batch_highlight_is_hover_of_three_sections Fake.host Example.provider2
             Example.world2 world2_runs).
  vm_compute. reflexivity.
Defined.

(** *** The accuracy *)

Lemma accuracy_is_off_by_one_for_eight_inputs_witness :
  (40 <= 200)%N /\ (17 <= 40)%N
  /\ spec_accuracy 40 17 = 58%Z
  /\ accuracy_of 40 17 = num 57.
Proof.
  assert (H40 : (40 <= 200)%N) by (intros H; discriminate).
  assert (H17 : (17 <= 40)%N) by (intros H; discriminate).
  split; [exact H40|]. split; [exact H17|]. split; [reflexivity|].
  apply (proj2 (accuracy_is_off_by_one_for_eight_inputs 40 17 H40 H17)).
  left. reflexivity.
Defined.
